(** * rpyc wire-level data path: brine codec, socket stream, backoff connect

    A shallow embedding of

      - [rpyc/core/brine.py]      (the value codec: [dump], [load], [dumpable]),
      - [rpyc/core/stream.py]     ([SocketStream]: [read], [write], [close],
                                   [closed], [fileno], [_connect];
                                   [ClosedFile]; [Stream.poll]),
      - [rpyc/lib/__init__.py]    ([socket_backoff_connect], [exp_backoff]),
      - [rpyc/external/socket.py] (the exception classes [error], [timeout]),
      - [rpyc/external/timeout.py] (the class [Timeout]),

    followed by the properties the specification states about them and by
    further properties of the same code.

    Conventions.
      - A Python call either returns or raises: [result A].
      - Byte strings are [list byte]; Python integers are [Z].
      - Loops whose termination depends on the environment take a [fuel]
        argument and answer [None] when it runs out; every statement that
        the code returns something exhibits the result, with the fuel.
      - [rpyc/lib/compat.py] and [rpyc/external/errno.py] are not among
        the sources.  Of what they define, [is_py3k], [get_exc_errno] and
        the error numbers are parameters, and so are [select_error] and
        the poll object of [poll]; [Struct] and [BytesIO] are the
        standard library's [struct.Struct] and [io.BytesIO];
        [BYTES_LITERAL] makes bytes of an ASCII text. *)

From Stdlib Require Import ZArith List Lia Bool QArith Qpower Lqa.
From Stdlib Require Import Strings.Byte.
Import ListNotations.

Local Open Scope Z_scope.

(* ================================================================== *)
(** * The Python runtime the sources rely on                           *)
(* ================================================================== *)

(** ** Exception classes and their (single-inheritance) hierarchy *)

Inductive pyclass : Type :=
| BaseException | Exception | KeyboardInterrupt
| TypeError | ValueError | AttributeError
| UnicodeError | UnicodeDecodeError | UnicodeEncodeError
| ArithmeticError | OverflowError
| struct_error
| EOFError | OSError | TimeoutError.

Definition pyclass_eqb (a b : pyclass) : bool :=
  match a, b with
  | BaseException, BaseException | Exception, Exception
  | KeyboardInterrupt, KeyboardInterrupt
  | TypeError, TypeError | ValueError, ValueError
  | AttributeError, AttributeError
  | UnicodeError, UnicodeError | UnicodeDecodeError, UnicodeDecodeError
  | UnicodeEncodeError, UnicodeEncodeError
  | ArithmeticError, ArithmeticError | OverflowError, OverflowError
  | struct_error, struct_error
  | EOFError, EOFError | OSError, OSError | TimeoutError, TimeoutError => true
  | _, _ => false
  end.

(** The base class of a class ([None] for the root). *)
Definition base (c : pyclass) : option pyclass :=
  match c with
  | BaseException => None
  | Exception | KeyboardInterrupt => Some BaseException
  | TypeError | ValueError | AttributeError | ArithmeticError
  | struct_error | EOFError | OSError => Some Exception
  | UnicodeError => Some ValueError
  | UnicodeDecodeError | UnicodeEncodeError => Some UnicodeError
  | OverflowError => Some ArithmeticError
  | TimeoutError => Some OSError
  end.

Fixpoint issubclass_upto (depth : nat) (c parent : pyclass) : bool :=
  pyclass_eqb c parent ||
  match depth with
  | O => false
  | S d => match base c with
           | Some b => issubclass_upto d b parent
           | None => false
           end
  end.

(** The hierarchy above is four levels deep. *)
Definition issubclass : pyclass -> pyclass -> bool := issubclass_upto 4.

(** An exception object: its class and, for operating-system errors, the
    [errno] it carries. *)
Record exn : Type := Exn { exn_class : pyclass; exn_errno : option Z }.

Definition isinstance (e : exn) (c : pyclass) : bool :=
  issubclass (exn_class e) c.

(** ** Results of calls *)

Inductive result (A : Type) : Type :=
| Ok (a : A)
| Raise (e : exn).
Arguments Ok {A} a.
Arguments Raise {A} e.

Definition raise {A : Type} (c : pyclass) : result A := Raise (Exn c None).

Definition rbind {A B : Type} (r : result A) (k : A -> result B) : result B :=
  match r with
  | Ok a => k a
  | Raise e => Raise e
  end.

Declare Scope py_scope.
Delimit Scope py_scope with py.
Notation "x <- c1 ;; c2" := (rbind c1 (fun x => c2))
  (at level 61, c1 at next level, right associativity) : py_scope.
Notation "' pat <- c1 ;; c2" := (rbind c1 (fun x => match x with pat => c2 end))
  (at level 61, pat pattern, c1 at next level, right associativity) : py_scope.
Local Open Scope py_scope.

(** ** Bytes *)

Definition bytes : Type := list byte.

Definition ord (b : byte) : Z := Z.of_N (Byte.to_N b).

(** [bytes([n])] for [0 <= n < 256]; every use below is within that range. *)
Definition chr (n : Z) : byte :=
  match Byte.of_N (Z.to_N n) with
  | Some b => b
  | None => x00
  end.

Definition len {A : Type} (l : list A) : Z := Z.of_nat (length l).

(** [data[:n]] and [data[n:]] for [n >= 0]. *)
Definition slice_to {A : Type} (n : Z) (data : list A) : list A :=
  if len data <=? n then data else firstn (Z.to_nat n) data.
Definition slice_from {A : Type} (n : Z) (data : list A) : list A :=
  if len data <=? n then [] else skipn (Z.to_nat n) data.

(** ** [struct.Struct] with network byte order

    Modelled from the spec: [rpyc.lib.compat.Struct] is not among the
    sources.  The formats the codec uses are an 8-bit and a 32-bit unsigned
    length prefix and big-endian IEEE-754 doubles: the standard library's
    [struct.Struct] with the format strings of the source. *)

Module Struct.

(** The [k] low-order bytes of [n], most significant first. *)
Fixpoint be_bytes (k : nat) (n : Z) : bytes :=
  match k with
  | O => []
  | S k' => chr ((n / 256 ^ Z.of_nat k') mod 256) :: be_bytes k' n
  end.

Definition be_int (b : bytes) : Z :=
  fold_left (fun acc x => acc * 256 + ord x) b 0.

(** An unsigned field of [k] bytes: [pack] raises [struct.error] when the
    argument is out of range, [unpack] when the buffer has not exactly
    [k] bytes. *)
Definition pack_uint (k : nat) (n : Z) : result bytes :=
  if (0 <=? n) && (n <? 256 ^ Z.of_nat k)
  then Ok (be_bytes k n)
  else raise struct_error.

Definition unpack_uint (k : nat) (b : bytes) : result Z :=
  if Nat.eqb (length b) k then Ok (be_int b) else raise struct_error.

End Struct.

(** ** Floating-point numbers

    A [float] is an IEEE-754 binary64 datum, kept as its 64-bit pattern.
    [struct] format ["d"] in network order writes that pattern most
    significant byte first. *)

Module Float.

Definition t : Type := Z.

Definition sign (f : t) : Z := (f / 2 ^ 63) mod 2.
Definition biased_exp (f : t) : Z := (f / 2 ^ 52) mod 2 ^ 11.
Definition fraction (f : t) : Z := f mod 2 ^ 52.

Definition is_nan (f : t) : bool :=
  (biased_exp f =? 2047) && negb (fraction f =? 0).
Definition is_inf (f : t) : bool :=
  (biased_exp f =? 2047) && (fraction f =? 0).

(** The value of a finite float multiplied by [2^1074] (an integer). *)
Definition scaled (f : t) : Z :=
  let m := if biased_exp f =? 0 then fraction f else fraction f + 2 ^ 52 in
  let e := Z.max (biased_exp f) 1 - 1 in
  (if sign f =? 1 then -1 else 1) * (m * 2 ^ e).

Definition scale : Z := 2 ^ 1074.

Definition pack (f : t) : bytes := Struct.be_bytes 8 f.
Definition unpack (b : bytes) : t := Struct.be_int b.

End Float.

(** ** Text

    A text ([str] in Python 3, [unicode] in Python 2) is the list of its
    code points, each in [0, 0x10FFFF]. *)

Module Text.

Definition t : Type := list Z.

Definition is_surrogate (cp : Z) : bool := (0xD800 <=? cp) && (cp <=? 0xDFFF).

Definition encode_cp (cp : Z) : bytes :=
  if cp <? 0x80 then [chr cp]
  else if cp <? 0x800 then
    [chr (0xC0 + cp / 64); chr (0x80 + cp mod 64)]
  else if cp <? 0x10000 then
    [chr (0xE0 + cp / 4096); chr (0x80 + (cp / 64) mod 64);
     chr (0x80 + cp mod 64)]
  else
    [chr (0xF0 + cp / 262144); chr (0x80 + (cp / 4096) mod 64);
     chr (0x80 + (cp / 64) mod 64); chr (0x80 + cp mod 64)].

(** [s.encode("utf8")].  Python 3 ([strict]) refuses lone surrogates with
    [UnicodeEncodeError]; Python 2 writes them as three bytes. *)
Fixpoint utf8_encode (strict : bool) (s : t) : result bytes :=
  match s with
  | [] => Ok []
  | cp :: s' =>
      if strict && is_surrogate cp then raise UnicodeEncodeError
      else rest <- utf8_encode strict s' ;; Ok (encode_cp cp ++ rest)
  end.

Definition is_cont (b : byte) : bool := (0x80 <=? ord b) && (ord b <? 0xC0).
Definition low6 (b : byte) : Z := ord b - 0x80.

(** [b.decode("utf-8")]: shortest form only, nothing above U+10FFFF and,
    when [strict], no surrogate. *)
Fixpoint utf8_decode (strict : bool) (b : bytes) : result t :=
  match b with
  | [] => Ok []
  | b0 :: r0 =>
      let c0 := ord b0 in
      if c0 <? 0x80 then
        s <- utf8_decode strict r0 ;; Ok (c0 :: s)
      else if (0xC2 <=? c0) && (c0 <? 0xE0) then
        match r0 with
        | b1 :: r1 =>
            if is_cont b1 then
              s <- utf8_decode strict r1 ;;
              Ok ((c0 - 0xC0) * 64 + low6 b1 :: s)
            else raise UnicodeDecodeError
        | _ => raise UnicodeDecodeError
        end
      else if (0xE0 <=? c0) && (c0 <? 0xF0) then
        match r0 with
        | b1 :: b2 :: r2 =>
            let cp := (c0 - 0xE0) * 4096 + low6 b1 * 64 + low6 b2 in
            if is_cont b1 && is_cont b2 && (0x800 <=? cp)
               && negb (strict && is_surrogate cp) then
              s <- utf8_decode strict r2 ;; Ok (cp :: s)
            else raise UnicodeDecodeError
        | _ => raise UnicodeDecodeError
        end
      else if (0xF0 <=? c0) && (c0 <? 0xF5) then
        match r0 with
        | b1 :: b2 :: b3 :: r3 =>
            let cp := (c0 - 0xF0) * 262144 + low6 b1 * 4096
                      + low6 b2 * 64 + low6 b3 in
            if is_cont b1 && is_cont b2 && is_cont b3
               && (0x10000 <=? cp) && (cp <? 0x110000) then
              s <- utf8_decode strict r3 ;; Ok (cp :: s)
            else raise UnicodeDecodeError
        | _ => raise UnicodeDecodeError
        end
      else raise UnicodeDecodeError
  end.

(** [b.decode('ascii')]. *)
Definition ascii_decode (b : bytes) : result t :=
  if forallb (fun x => ord x <? 0x80) b then Ok (map ord b)
  else raise UnicodeDecodeError.

(** [u.encode('ascii')]. *)
Definition ascii_encode (s : t) : result bytes :=
  if forallb (fun cp => cp <? 0x80) s then Ok (map chr s)
  else raise UnicodeEncodeError.

End Text.

(** ** Decimal integer literals: [str(n)] and [int(text)] *)

Module IntLit.

Definition digit_byte (d : Z) : byte := chr (0x30 + d).

Fixpoint pos_digits (fuel : nat) (n : Z) (acc : bytes) : bytes :=
  match fuel with
  | O => acc
  | S f =>
      if n <? 10 then digit_byte n :: acc
      else pos_digits f (n / 10) (digit_byte (n mod 10) :: acc)
  end.

(** [str(n)] as ASCII bytes: a minus sign when negative, then the decimal
    digits without leading zeros.  A number has at most as many decimal
    digits as binary ones. *)
Definition str (n : Z) : bytes :=
  let digits := pos_digits (S (Z.to_nat (Z.log2 (Z.abs n)))) (Z.abs n) [] in
  if n <? 0 then x2d :: digits else digits.

Definition is_space (c : Z) : bool :=
  (c =? 0x20) || ((0x09 <=? c) && (c <=? 0x0d)).
Definition is_digit (c : Z) : bool := (0x30 <=? c) && (c <=? 0x39).

Fixpoint lstrip (s : list Z) : list Z :=
  match s with
  | c :: s' => if is_space c then lstrip s' else s
  | [] => []
  end.
Definition strip (s : list Z) : list Z := rev (lstrip (rev (lstrip s))).

(** Digits, with single underscores between digits when [underscores]
    (Python 3.6 and later).  [after_digit] tells whether the previous
    character was a digit. *)
Fixpoint digits_value (underscores after_digit : bool) (acc : Z)
         (s : list Z) : option Z :=
  match s with
  | [] => if after_digit then Some acc else None
  | c :: s' =>
      if is_digit c then digits_value underscores true (acc * 10 + (c - 0x30)) s'
      else if underscores && after_digit && (c =? 0x5f) then
        digits_value underscores false acc s'
      else None
  end.

(** [int(text)] in base 10, [text] given by its character codes: blanks
    around, an optional sign, digits.  Characters outside ASCII count as
    neither digit nor blank here. *)
Definition parse (underscores : bool) (s : list Z) : result Z :=
  let body := strip s in
  let '(neg, ds) :=
    match body with
    | c :: r => if c =? 0x2d then (true, r)
                else if c =? 0x2b then (false, r) else (false, body)
    | [] => (false, body)
    end in
  match digits_value underscores false 0 ds with
  | Some n => Ok (if neg : bool then - n else n)
  | None => raise ValueError
  end.

End IntLit.

(** ** Values

    The objects the codec meets.  [VLong] is Python 2's [long]; [VBytes] is
    [bytes] (Python 2's [str]); [VUnicode] is text (Python 3's [str],
    Python 2's [unicode]); [VObject] stands for an object of any other type
    (a list, a dict, an instance of a user class, ...). *)

#[warnings="-register-all"]
Inductive value : Type :=
| VNone
| VNotImplemented
| VEllipsis
| VBool (b : bool)
| VInt (n : Z)
| VLong (n : Z)
| VFloat (f : Float.t)
| VComplex (re im : Float.t)
| VBytes (b : bytes)
| VUnicode (s : Text.t)
| VSlice (start stop step : value)
| VTuple (items : list value)
| VFrozenset (items : list value)
| VObject.

(** Induction over values that reaches the elements of tuples and sets. *)
Section value_ind_nested.
Variable P : value -> Prop.
Hypothesis HNone : P VNone.
Hypothesis HNotImplemented : P VNotImplemented.
Hypothesis HEllipsis : P VEllipsis.
Hypothesis HBool : forall b, P (VBool b).
Hypothesis HInt : forall n, P (VInt n).
Hypothesis HLong : forall n, P (VLong n).
Hypothesis HFloat : forall f, P (VFloat f).
Hypothesis HComplex : forall re im, P (VComplex re im).
Hypothesis HBytes : forall b, P (VBytes b).
Hypothesis HUnicode : forall s, P (VUnicode s).
Hypothesis HSlice : forall a b c, P a -> P b -> P c -> P (VSlice a b c).
Hypothesis HTuple : forall items, Forall P items -> P (VTuple items).
Hypothesis HFrozenset : forall items, Forall P items -> P (VFrozenset items).
Hypothesis HObject : P VObject.

Fixpoint value_ind_nested (v : value) : P v :=
  let fix all (l : list value) : Forall P l :=
    match l with
    | [] => Forall_nil P
    | x :: l' => Forall_cons x (value_ind_nested x) (all l')
    end in
  match v with
  | VNone => HNone
  | VNotImplemented => HNotImplemented
  | VEllipsis => HEllipsis
  | VBool b => HBool b
  | VInt n => HInt n
  | VLong n => HLong n
  | VFloat f => HFloat f
  | VComplex re im => HComplex re im
  | VBytes b => HBytes b
  | VUnicode s => HUnicode s
  | VSlice a b c =>
      HSlice a b c (value_ind_nested a) (value_ind_nested b) (value_ind_nested c)
  | VTuple items => HTuple items (all items)
  | VFrozenset items => HFrozenset items (all items)
  | VObject => HObject
  end.
End value_ind_nested.

(** [type(obj)]. *)
Inductive pytype : Type :=
| NoneType | NotImplementedType | ellipsis
| bool_ | int_ | long_ | float_ | complex_ | bytes_ | unicode_
| slice_ | tuple_ | frozenset_ | object_.

Definition type (obj : value) : pytype :=
  match obj with
  | VNone => NoneType
  | VNotImplemented => NotImplementedType
  | VEllipsis => ellipsis
  | VBool _ => bool_
  | VInt _ => int_
  | VLong _ => long_
  | VFloat _ => float_
  | VComplex _ _ => complex_
  | VBytes _ => bytes_
  | VUnicode _ => unicode_
  | VSlice _ _ _ => slice_
  | VTuple _ => tuple_
  | VFrozenset _ => frozenset_
  | VObject => object_
  end.

Definition pytype_eqb (a b : pytype) : bool :=
  match a, b with
  | NoneType, NoneType | NotImplementedType, NotImplementedType
  | ellipsis, ellipsis | bool_, bool_ | int_, int_ | long_, long_
  | float_, float_ | complex_, complex_ | bytes_, bytes_
  | unicode_, unicode_ | slice_, slice_ | tuple_, tuple_
  | frozenset_, frozenset_ | object_, object_ => true
  | _, _ => false
  end.

(** ** Built-in operations on values *)

Module Builtins.

(** A real number as Python compares it: finite ones by their value
    multiplied by [Float.scale]. *)
Inductive real : Type := Finite (scaled : Z) | PosInf | NegInf | NaN.

Definition real_of_float (f : Float.t) : real :=
  if Float.is_nan f then NaN
  else if Float.is_inf f then (if Float.sign f =? 1 then NegInf else PosInf)
  else Finite (Float.scaled f).

Definition real_of_int (n : Z) : real := Finite (n * Float.scale).

Definition real_eqb (a b : real) : bool :=
  match a, b with
  | Finite x, Finite y => x =? y
  | PosInf, PosInf | NegInf, NegInf => true
  | _, _ => false
  end.

(** The number a value denotes, as (real part, imaginary part). *)
Definition number (v : value) : option (real * real) :=
  match v with
  | VBool b => Some (real_of_int (if b then 1 else 0), Finite 0)
  | VInt n | VLong n => Some (real_of_int n, Finite 0)
  | VFloat f => Some (real_of_float f, Finite 0)
  | VComplex re im => Some (real_of_float re, real_of_float im)
  | _ => None
  end.

Definition list_eqb {A : Type} (eqb : A -> A -> bool) : list A -> list A -> bool :=
  fix go (l1 l2 : list A) : bool :=
    match l1, l2 with
    | [], [] => true
    | x :: l1', y :: l2' => eqb x y && go l1' l2'
    | _, _ => false
    end.

(** [a == b].  Numbers compare by value across types; in Python 2 a byte
    string equals the text it decodes to as ASCII. *)
Fixpoint eq (is_py3k : bool) (a b : value) {struct a} : bool :=
  match a, b with
  | VNone, VNone | VNotImplemented, VNotImplemented
  | VEllipsis, VEllipsis => true
  | VBytes x, VBytes y => list_eqb Byte.eqb x y
  | VUnicode x, VUnicode y => list_eqb Z.eqb x y
  | VBytes x, VUnicode y | VUnicode y, VBytes x =>
      negb is_py3k &&
      match Text.ascii_decode x with
      | Ok s => list_eqb Z.eqb s y
      | Raise _ => false
      end
  | VSlice a1 a2 a3, VSlice b1 b2 b3 =>
      eq is_py3k a1 b1 && eq is_py3k a2 b2 && eq is_py3k a3 b3
  | VTuple xs, VTuple ys =>
      (fix go (l1 l2 : list value) : bool :=
         match l1, l2 with
         | [], [] => true
         | x :: l1', y :: l2' => eq is_py3k x y && go l1' l2'
         | _, _ => false
         end) xs ys
  | VFrozenset xs, VFrozenset ys =>
      (fix sub (l1 : list value) : bool :=
         match l1 with
         | [] => true
         | x :: l1' => existsb (fun y => eq is_py3k x y) ys && sub l1'
         end) xs
      && forallb (fun y =>
           (fix mem (l1 : list value) : bool :=
              match l1 with
              | [] => false
              | x :: l1' => eq is_py3k x y || mem l1'
              end) xs) ys
  | _, _ =>
      match number a, number b with
      | Some (r1, i1), Some (r2, i2) => real_eqb r1 r2 && real_eqb i1 i2
      | _, _ => false
      end
  end.

(** Whether [hash(obj)] succeeds: slices are not hashable (before
    Python 3.12), a tuple is when its items are. *)
Fixpoint hashable (v : value) : bool :=
  match v with
  | VSlice _ _ _ => false
  | VTuple items => forallb hashable items
  | _ => true
  end.

(** [iter(obj)] run to the end. *)
Definition iterate (is_py3k : bool) (obj : value) : result (list value) :=
  match obj with
  | VTuple items | VFrozenset items => Ok items
  | VBytes b =>
      Ok (map (fun x => if is_py3k then VInt (ord x) else VBytes [x]) b)
  | VUnicode s => Ok (map (fun cp => VUnicode [cp]) s)
  | _ => raise TypeError
  end.

(** Insertion into a set under construction: an element equal to one
    already there is dropped. *)
Fixpoint set_of (is_py3k : bool) (seen items : list value) : list value :=
  match items with
  | [] => seen
  | x :: items' =>
      if existsb (fun y => eq is_py3k y x) seen
      then set_of is_py3k seen items'
      else set_of is_py3k (seen ++ [x]) items'
  end.

(** [frozenset(obj)]. *)
Definition frozenset (is_py3k : bool) (obj : value) : result value :=
  items <- iterate is_py3k obj ;;
  if forallb hashable items then Ok (VFrozenset (set_of is_py3k [] items))
  else raise TypeError.

(** [a, b, c = obj]. *)
Definition unpack3 (is_py3k : bool) (obj : value)
  : result (value * value * value) :=
  items <- iterate is_py3k obj ;;
  match items with
  | [a; b; c] => Ok (a, b, c)
  | _ => raise ValueError
  end.

(** The integer [int(obj)] (Python 2: [long(obj)]) denotes. *)
Definition to_int (is_py3k : bool) (obj : value) : result Z :=
  match obj with
  | VBool b => Ok (if b then 1 else 0)
  | VInt n | VLong n => Ok n
  | VFloat f =>
      if Float.is_nan f then raise ValueError
      else if Float.is_inf f then raise OverflowError
      else Ok (Z.quot (Float.scaled f) Float.scale)
  | VBytes b => IntLit.parse is_py3k (map ord b)
  | VUnicode s => IntLit.parse is_py3k s
  | _ => raise TypeError
  end.

(** [obj.decode("utf-8")]: bytes decode; Python 2 text is first encoded
    as ASCII; anything else has no such method. *)
Definition decode_utf8 (is_py3k : bool) (obj : value) : result value :=
  match obj with
  | VBytes b => s <- Text.utf8_decode is_py3k b ;; Ok (VUnicode s)
  | VUnicode s =>
      if is_py3k then raise AttributeError
      else b <- Text.ascii_encode s ;;
           s' <- Text.utf8_decode false b ;; Ok (VUnicode s')
  | _ => raise AttributeError
  end.

End Builtins.

(** [range(a, b)] and the dictionaries built from lists of pairs. *)
Definition range (a b : Z) : list Z :=
  map (fun k => a + Z.of_nat k) (seq 0 (Z.to_nat (b - a))).

Definition dict_get {K V : Type} (eqb : K -> K -> bool)
           (d : list (K * V)) (key : K) : option V :=
  match find (fun kv => eqb (fst kv) key) d with
  | Some kv => Some (snd kv)
  | None => None
  end.

Definition bytes_eqb : bytes -> bytes -> bool := Builtins.list_eqb Byte.eqb.

(* ================================================================== *)
(** * rpyc/core/brine.py                                               *)
(* ================================================================== *)

Module brine.
Section brine.

(** [rpyc.lib.compat.is_py3k]: whether the interpreter is Python 3. *)
Variable is_py3k : bool.

(** Modelled from the spec: [rpyc.lib.compat.BYTES_LITERAL] is not among
    the sources.  An integer outside the small range is written as its
    base-10 ASCII text: [BYTES_LITERAL] turns that text into bytes, which
    it already is here. *)
Definition BYTES_LITERAL (text : bytes) : bytes := text.

(* singletons *)
Definition TAG_NONE : bytes := [x00].
Definition TAG_EMPTY_STR : bytes := [x01].
Definition TAG_EMPTY_TUPLE : bytes := [x02].
Definition TAG_TRUE : bytes := [x03].
Definition TAG_FALSE : bytes := [x04].
Definition TAG_NOT_IMPLEMENTED : bytes := [x05].
Definition TAG_ELLIPSIS : bytes := [x06].
(* types *)
Definition TAG_UNICODE : bytes := [x08].
Definition TAG_LONG : bytes := [x09].
Definition TAG_STR1 : bytes := [x0a].
Definition TAG_STR2 : bytes := [x0b].
Definition TAG_STR3 : bytes := [x0c].
Definition TAG_STR4 : bytes := [x0d].
Definition TAG_STR_L1 : bytes := [x0e].
Definition TAG_STR_L4 : bytes := [x0f].
Definition TAG_TUP1 : bytes := [x10].
Definition TAG_TUP2 : bytes := [x11].
Definition TAG_TUP3 : bytes := [x12].
Definition TAG_TUP4 : bytes := [x13].
Definition TAG_TUP_L1 : bytes := [x14].
Definition TAG_TUP_L4 : bytes := [x15].
Definition TAG_INT_L1 : bytes := [x16].
Definition TAG_INT_L4 : bytes := [x17].
Definition TAG_FLOAT : bytes := [x18].
Definition TAG_SLICE : bytes := [x19].
Definition TAG_FSET : bytes := [x1a].
Definition TAG_COMPLEX : bytes := [x1b].

(** Both branches on [is_py3k] build the same table. *)
Definition IMM_INTS : list (Z * bytes) :=
  map (fun i => (i, [chr (i + 0x50)])) (range (-0x30) 0xa0).

Definition I1_pack : Z -> result bytes := Struct.pack_uint 1.
Definition I1_unpack : bytes -> result Z := Struct.unpack_uint 1.
Definition I4_pack : Z -> result bytes := Struct.pack_uint 4.
Definition I4_unpack : bytes -> result Z := Struct.unpack_uint 4.
Definition F8_pack (f : Float.t) : bytes := Float.pack f.
Definition F8_unpack (b : bytes) : result Float.t :=
  if Nat.eqb (length b) 8 then Ok (Float.unpack b) else raise struct_error.
Definition C16_pack (re im : Float.t) : bytes := Float.pack re ++ Float.pack im.
Definition C16_unpack (b : bytes) : result (Float.t * Float.t) :=
  if Nat.eqb (length b) 16
  then Ok (Float.unpack (firstn 8 b), Float.unpack (skipn 8 b))
  else raise struct_error.

Definition IMM_INTS_LOADER : list (bytes * Z) :=
  map (fun kv => (snd kv, fst kv)) IMM_INTS.

(** ** dumping

    The [stream] is the list of chunks appended so far. *)

Definition stream_t : Type := list bytes.
Definition append (stream : stream_t) (chunk : bytes) : stream_t :=
  stream ++ [chunk].

Definition _dump_none (stream : stream_t) : result stream_t :=
  Ok (append stream TAG_NONE).

Definition _dump_notimplemeted (stream : stream_t) : result stream_t :=
  Ok (append stream TAG_NOT_IMPLEMENTED).

Definition _dump_ellipsis (stream : stream_t) : result stream_t :=
  Ok (append stream TAG_ELLIPSIS).

Definition _dump_bool (obj : bool) (stream : stream_t) : result stream_t :=
  if obj then Ok (append stream TAG_TRUE)
  else Ok (append stream TAG_FALSE).

Definition _dump_int (obj : Z) (stream : stream_t) : result stream_t :=
  match dict_get Z.eqb IMM_INTS obj with
  | Some b => Ok (append stream b)
  | None =>
      let obj := BYTES_LITERAL (IntLit.str obj) in
      let lenobj := len obj in
      if lenobj <? 256 then
        l <- I1_pack lenobj ;; Ok (append stream (TAG_INT_L1 ++ l ++ obj))
      else
        l <- I4_pack lenobj ;; Ok (append stream (TAG_INT_L4 ++ l ++ obj))
  end.

Definition _dump_float (obj : Float.t) (stream : stream_t) : result stream_t :=
  Ok (append stream (TAG_FLOAT ++ F8_pack obj)).

Definition _dump_complex (re im : Float.t) (stream : stream_t)
  : result stream_t :=
  Ok (append stream (TAG_COMPLEX ++ C16_pack re im)).

Definition _dump_bytes (obj : bytes) (stream : stream_t) : result stream_t :=
  let lenobj := len obj in
  if lenobj =? 0 then Ok (append stream TAG_EMPTY_STR)
  else if lenobj =? 1 then Ok (append stream (TAG_STR1 ++ obj))
  else if lenobj =? 2 then Ok (append stream (TAG_STR2 ++ obj))
  else if lenobj =? 3 then Ok (append stream (TAG_STR3 ++ obj))
  else if lenobj =? 4 then Ok (append stream (TAG_STR4 ++ obj))
  else if lenobj <? 256 then
    l <- I1_pack lenobj ;; Ok (append stream (TAG_STR_L1 ++ l ++ obj))
  else
    l <- I4_pack lenobj ;; Ok (append stream (TAG_STR_L4 ++ l ++ obj)).

Definition _dump_str (obj : Text.t) (stream : stream_t) : result stream_t :=
  let stream := append stream TAG_UNICODE in
  b <- Text.utf8_encode is_py3k obj ;;
  _dump_bytes b stream.

(** Registered only when [not is_py3k]. *)
Definition _dump_long (obj : Z) (stream : stream_t) : result stream_t :=
  let stream := append stream TAG_LONG in
  _dump_int obj stream.

(** [for item in obj: _dump(item, stream)]. *)
Definition dump_items (_dump : value -> stream_t -> result stream_t)
  : list value -> stream_t -> result stream_t :=
  fix go (items : list value) (stream : stream_t) : result stream_t :=
    match items with
    | [] => Ok stream
    | item :: items' => stream <- _dump item stream ;; go items' stream
    end.

(** The header [_dump_tuple] writes before the items. *)
Definition tuple_header (lenobj : Z) : result bytes :=
  if lenobj =? 0 then Ok TAG_EMPTY_TUPLE
  else if lenobj =? 1 then Ok TAG_TUP1
  else if lenobj =? 2 then Ok TAG_TUP2
  else if lenobj =? 3 then Ok TAG_TUP3
  else if lenobj =? 4 then Ok TAG_TUP4
  else if lenobj <? 256 then l <- I1_pack lenobj ;; Ok (TAG_TUP_L1 ++ l)
  else l <- I4_pack lenobj ;; Ok (TAG_TUP_L4 ++ l).

Definition _dump_tuple (_dump : value -> stream_t -> result stream_t)
           (obj : list value) (stream : stream_t) : result stream_t :=
  h <- tuple_header (len obj) ;;
  dump_items _dump obj (append stream h).

Definition _undumpable (stream : stream_t) : result stream_t :=
  raise TypeError.

(** [_dump_registry.get(type(obj), _undumpable)(obj, stream)]: one case
    per registered type; [_dump_slice] and [_dump_frozenset] append their
    tag and dump a tuple. *)
Fixpoint _dump (obj : value) (stream : stream_t) {struct obj} : result stream_t :=
  match obj with
  | VNone => _dump_none stream
  | VNotImplemented => _dump_notimplemeted stream
  | VEllipsis => _dump_ellipsis stream
  | VBool b => _dump_bool b stream
  | VSlice start stop step =>
      _dump_tuple _dump [start; stop; step] (append stream TAG_SLICE)
  | VFrozenset items =>
      _dump_tuple _dump items (append stream TAG_FSET)
  | VInt n => _dump_int n stream
  | VFloat f => _dump_float f stream
  | VComplex re im => _dump_complex re im stream
  | VBytes b => _dump_bytes b stream
  | VUnicode s => _dump_str s stream
  | VLong n => if is_py3k then _undumpable stream else _dump_long n stream
  | VTuple items => _dump_tuple _dump items stream
  | VObject => _undumpable stream
  end.

Definition join (stream : stream_t) : bytes := concat stream.

Definition dump (obj : value) : result bytes :=
  stream <- _dump obj [] ;; Ok (join stream).

(** ** loading

    A loader runs on a [BytesIO]: it is given the bytes not yet read and
    answers with its result and the bytes left, or raises.  [None] means
    that the [fuel] bounding the recursion ran out. *)

Definition loader (A : Type) : Type := bytes -> option (result (A * bytes)).

Definition ret {A : Type} (a : A) : loader A := fun s => Some (Ok (a, s)).
Definition lift {A : Type} (r : result A) : loader A :=
  fun s => match r with
           | Ok a => Some (Ok (a, s))
           | Raise e => Some (Raise e)
           end.
Definition out_of_fuel {A : Type} : loader A := fun _ => None.
Definition lbind {A B : Type} (m : loader A) (k : A -> loader B) : loader B :=
  fun s => match m s with
           | Some (Ok (a, s')) => k a s'
           | Some (Raise e) => Some (Raise e)
           | None => None
           end.

Notation "x <-- c1 ;; c2" := (lbind c1 (fun x => c2))
  (at level 61, c1 at next level, right associativity).
Notation "' pat <-- c1 ;; c2" :=
  (lbind c1 (fun x => match x with pat => c2 end))
  (at level 61, pat pattern, c1 at next level, right associativity).

(** [stream.read(l)] on the [BytesIO]: the next [l] bytes, fewer when the
    buffer ends. *)
Definition read (l : Z) : loader bytes :=
  fun s => Some (Ok (slice_to l s, slice_from l s)).

Definition read_str (l : Z) : loader value :=
  b <-- read l ;;
  if is_py3k then s <-- lift (Text.ascii_decode b) ;; ret (VUnicode s)
  else ret (VBytes b).

Definition _load_none : loader value := ret VNone.
Definition _load_nonimp : loader value := ret VNotImplemented.
Definition _load_elipsis : loader value := ret VEllipsis.
Definition _load_true : loader value := ret (VBool true).
Definition _load_false : loader value := ret (VBool false).
Definition _load_empty_tuple : loader value := ret (VTuple []).
Definition _load_empty_str : loader value := ret (VBytes []).

Definition _load_long (_load : loader value) : loader value :=
  obj <-- _load ;;
  n <-- lift (Builtins.to_int is_py3k obj) ;;
  ret (if is_py3k then VInt n else VLong n).

Definition _load_float : loader value :=
  b <-- read 8 ;; f <-- lift (F8_unpack b) ;; ret (VFloat f).

Definition _load_complex : loader value :=
  b <-- read 16 ;;
  '(real, imag) <-- lift (C16_unpack b) ;;
  ret (VComplex real imag).

Definition _load_str1 : loader value := read_str 1.
Definition _load_str2 : loader value := read_str 2.
Definition _load_str3 : loader value := read_str 3.
Definition _load_str4 : loader value := read_str 4.

Definition _load_str_l1 : loader value :=
  b <-- read 1 ;; l <-- lift (I1_unpack b) ;; read_str l.

Definition _load_str_l4 : loader value :=
  b <-- read 4 ;; l <-- lift (I4_unpack b) ;; read_str l.

Definition _load_unicode (_load : loader value) : loader value :=
  obj <-- _load ;; lift (Builtins.decode_utf8 is_py3k obj).

Definition _load_tup1 (_load : loader value) : loader value :=
  a <-- _load ;; ret (VTuple [a]).

Definition _load_tup2 (_load : loader value) : loader value :=
  a <-- _load ;; b <-- _load ;; ret (VTuple [a; b]).

Definition _load_tup3 (_load : loader value) : loader value :=
  a <-- _load ;; b <-- _load ;; c <-- _load ;; ret (VTuple [a; b; c]).

Definition _load_tup4 (_load : loader value) : loader value :=
  a <-- _load ;; b <-- _load ;; c <-- _load ;; d <-- _load ;;
  ret (VTuple [a; b; c; d]).

(** [tuple(_load(stream) for i in range(l))]. *)
Fixpoint load_items (_load : loader value) (fuel : nat) (l : Z)
  : loader (list value) :=
  if l <=? 0 then ret []
  else match fuel with
       | O => out_of_fuel
       | S fuel' =>
           item <-- _load ;;
           items <-- load_items _load fuel' (l - 1) ;;
           ret (item :: items)
       end.

Definition _load_tup_l1 (_load : loader value) (fuel : nat) : loader value :=
  b <-- read 1 ;; l <-- lift (I1_unpack b) ;;
  items <-- load_items _load fuel l ;; ret (VTuple items).

(** Both branches on [is_py3k] ([range], [xrange]) do the same. *)
Definition _load_tup_l4 (_load : loader value) (fuel : nat) : loader value :=
  b <-- read 4 ;; l <-- lift (I4_unpack b) ;;
  items <-- load_items _load fuel l ;; ret (VTuple items).

Definition _load_slice (_load : loader value) : loader value :=
  obj <-- _load ;;
  '(start, stop, step) <-- lift (Builtins.unpack3 is_py3k obj) ;;
  ret (VSlice start stop step).

Definition _load_frozenset (_load : loader value) : loader value :=
  obj <-- _load ;; lift (Builtins.frozenset is_py3k obj).

Definition _load_int_l1 : loader value :=
  b <-- read 1 ;; l <-- lift (I1_unpack b) ;;
  d <-- read l ;;
  n <-- lift (Builtins.to_int is_py3k (VBytes d)) ;; ret (VInt n).

Definition _load_int_l4 : loader value :=
  b <-- read 4 ;; l <-- lift (I4_unpack b) ;;
  d <-- read l ;;
  n <-- lift (Builtins.to_int is_py3k (VBytes d)) ;; ret (VInt n).

(** The handlers as registered, keyed by tag; [_load] is the function they
    call back, [fuel] what the counted loops may use. *)
Definition _load_registry (_load : loader value) (fuel : nat)
  : list (bytes * loader value) :=
  [ (TAG_NONE, _load_none);
    (TAG_NOT_IMPLEMENTED, _load_nonimp);
    (TAG_ELLIPSIS, _load_elipsis);
    (TAG_TRUE, _load_true);
    (TAG_FALSE, _load_false);
    (TAG_EMPTY_TUPLE, _load_empty_tuple);
    (TAG_EMPTY_STR, _load_empty_str);
    (TAG_LONG, _load_long _load);
    (TAG_FLOAT, _load_float);
    (TAG_COMPLEX, _load_complex);
    (TAG_STR1, _load_str1);
    (TAG_STR2, _load_str2);
    (TAG_STR3, _load_str3);
    (TAG_STR4, _load_str4);
    (TAG_STR_L1, _load_str_l1);
    (TAG_STR_L4, _load_str_l4);
    (TAG_UNICODE, _load_unicode _load);
    (TAG_TUP1, _load_tup1 _load);
    (TAG_TUP2, _load_tup2 _load);
    (TAG_TUP3, _load_tup3 _load);
    (TAG_TUP4, _load_tup4 _load);
    (TAG_TUP_L1, _load_tup_l1 _load fuel);
    (TAG_TUP_L4, _load_tup_l4 _load fuel);
    (TAG_SLICE, _load_slice _load);
    (TAG_FSET, _load_frozenset _load);
    (TAG_INT_L1, _load_int_l1);
    (TAG_INT_L4, _load_int_l4) ].

(** [_load_registry.get(tag)] is [None] for an unregistered tag, and
    calling [None] raises [TypeError]. *)
Fixpoint _load (fuel : nat) : loader value :=
  match fuel with
  | O => out_of_fuel
  | S fuel' =>
      tag <-- read 1 ;;
      match dict_get bytes_eqb IMM_INTS_LOADER tag with
      | Some n => ret (VInt n)
      | None =>
          match dict_get bytes_eqb (_load_registry (_load fuel') fuel') tag with
          | Some handler => handler
          | None => lift (raise TypeError)
          end
      end
  end.

(** Every nested call reads at least the tag, so the length of the data
    (plus one for the call that finds the buffer empty) bounds the depth
    of the recursion and the number of items of a counted loop. *)
Definition load (data : bytes) : option (result value) :=
  match _load (S (length data)) data with
  | Some (Ok (obj, _)) => Some (Ok obj)
  | Some (Raise e) => Some (Raise e)
  | None => None
  end.

Definition simple_types : list pytype :=
  if is_py3k then
    [NoneType; int_; bool_; float_; bytes_; unicode_; complex_;
     NotImplementedType; ellipsis]
  else
    [NoneType; int_; long_; bool_; float_; bytes_; unicode_; complex_;
     NotImplementedType; ellipsis].

Definition type_in (t : pytype) (ts : list pytype) : bool :=
  existsb (pytype_eqb t) ts.

Fixpoint dumpable (obj : value) : bool :=
  if type_in (type obj) simple_types then true
  else
    match obj with
    | VTuple items | VFrozenset items => forallb dumpable items
    | VSlice start stop step =>
        dumpable start && dumpable stop && dumpable step
    | _ => false
    end.

End brine.
End brine.

(* ================================================================== *)
(** * rpyc/external/socket.py                                          *)
(* ================================================================== *)

(** The module that [stream.py] and [lib/__init__.py] import as [socket]
    ([from rpyc.external import socket]).  Both exception classes it
    exports are [Exception] itself, so an [except socket.timeout] clause
    catches every exception that is an instance of [Exception]. *)

Module socket.

(** [error = Exception] *)
Definition error : pyclass := Exception.

(** [timeout = Exception] *)
Definition timeout : pyclass := Exception.

End socket.

(* ================================================================== *)
(** * rpyc/lib/__init__.py                                             *)
(* ================================================================== *)

Module lib.
Section lib.

(** Delays are floating-point numbers.  They are kept as rationals, and
    [rnd] is the rounding the interpreter applies to the exact result of
    every floating-point operation and to every literal; with the identity
    for [rnd] the arithmetic is exact. *)
Variable rnd : Q -> Q.

(** [random.uniform(a, b)] is [a + (b - a) * random()], the draw
    [random()] lying in [0, 1); the bounds are integers here, and their
    difference is exact. *)
Definition uniform (a b u : Q) : Q := rnd (a + rnd ((b - a) * u))%Q.

Definition exp_backoff (collision : Z) (u : Q) : Q :=
  let n := Z.min collision 10 in
  let supremum_adjustment : Q := if n >? 3 then 1%Q else 0%Q in
  let k := uniform 0 (Qpower 2 n - supremum_adjustment)%Q u in
  rnd (k * rnd (512 # 10000000))%Q.

(** What a call of [socket_backoff_connect] leaves behind: the delays it
    slept, in order, and how many sockets it closed. *)
Record trace : Type := { slept : list Q; closed_sockets : Z }.

Section connect.

(** The network: what [sock.settimeout(timeout); sock.connect(addr)]
    does on the socket of the [collision]-th attempt ([None]: it
    returns; [Some e]: it raises [e]). *)
Variable attempt : Z -> option exn.
(** The draw [random()] makes for the backoff after that attempt. *)
Variable draw : Z -> Q.

(** The [while connecting] loop; on success the result is the number
    of the attempt whose socket is returned. *)
Fixpoint connect_loop (fuel : nat) (attempts collision : Z) (tr : trace)
  : option (result Z * trace) :=
  match fuel with
  | O => None
  | S fuel' =>
      let collision := collision + 1 in
      match attempt collision with
      | None => Some (Ok collision, tr)
      | Some e =>
          if isinstance e socket.timeout then
            if (collision =? attempts) || (attempts <? 1) then
              Some (Raise e, tr)
            else
              connect_loop fuel' attempts collision
                {| slept := slept tr ++ [exp_backoff collision (draw collision)];
                   closed_sockets := closed_sockets tr + 1 |}
          else Some (Raise e, tr)
      end
  end.

(** The loop ends within [max(attempts, 1)] rounds. *)
Definition socket_backoff_connect (attempts : Z) : option (result Z * trace) :=
  connect_loop (Z.to_nat (Z.max attempts 1)) attempts 0
               {| slept := []; closed_sockets := 0 |}.

End connect.

End lib.
End lib.

(* ================================================================== *)
(** * rpyc/core/stream.py                                              *)
(* ================================================================== *)

Module stream.

(** ** The transport endpoint a [SocketStream] wraps

    The endpoint is scripted by what the operating system will answer:
    each [recv] consumes the next receive event, each [send] the next send
    event.  When the receive script is exhausted the peer has closed
    ([recv] returns the empty string); when the send script is exhausted
    everything offered is accepted. *)

Inductive recv_event : Type :=
| Arrives (chunk : bytes)      (* bytes ready; an empty chunk is end of stream *)
| RecvRaises (e : exn).

Inductive send_event : Type :=
| Accepts (n : Z)              (* room for [n] bytes in this call *)
| SendRaises (e : exn).

Record endpoint : Type := {
  rx : list recv_event;
  tx : list send_event;
  sent : bytes;                  (* what the peer has been sent so far *)
  fd : result Z;                 (* what [fileno()] answers *)
  on_shutdown : option exn       (* what [shutdown()] raises, if anything *)
}.

Definition set_rx (ep : endpoint) (r : list recv_event) : endpoint :=
  {| rx := r; tx := tx ep; sent := sent ep; fd := fd ep;
     on_shutdown := on_shutdown ep |}.
Definition set_tx (ep : endpoint) (t : list send_event) (s : bytes) : endpoint :=
  {| rx := rx ep; tx := t; sent := s; fd := fd ep;
     on_shutdown := on_shutdown ep |}.

Definition ep_recv (ep : endpoint) (bufsize : Z) : result bytes * endpoint :=
  match rx ep with
  | [] => (Ok [], ep)
  | Arrives chunk :: rest =>
      (Ok (slice_to bufsize chunk),
       set_rx ep (match slice_from bufsize chunk with
                  | [] => rest
                  | remaining => Arrives remaining :: rest
                  end))
  | RecvRaises e :: rest => (Raise e, set_rx ep rest)
  end.

Definition ep_send (ep : endpoint) (data : bytes) : result Z * endpoint :=
  match tx ep with
  | [] => (Ok (len data), set_tx ep [] (sent ep ++ data))
  | Accepts n :: rest =>
      let count := Z.max 0 (Z.min n (len data)) in
      (Ok count, set_tx ep rest (sent ep ++ slice_to count data))
  | SendRaises e :: rest => (Raise e, set_tx ep rest (sent ep))
  end.

(** ** [ClosedFile] and the [sock] slot

    [self.sock] is either a live endpoint or the [ClosedFile] singleton.
    On [ClosedFile], [close] does nothing, [closed] is [True], [fileno]
    raises [EOFError], and every other attribute (here [recv], [send],
    [shutdown]) raises [EOFError] from [__getattr__]. *)

Inductive sock_t : Type :=
| Socket (ep : endpoint)
| ClosedFile.

Definition stream_closed : exn := Exn EOFError None.

Definition sock_recv (sock : sock_t) (bufsize : Z) : result bytes * sock_t :=
  match sock with
  | Socket ep => let (r, ep') := ep_recv ep bufsize in (r, Socket ep')
  | ClosedFile => (Raise stream_closed, ClosedFile)
  end.

Definition sock_send (sock : sock_t) (data : bytes) : result Z * sock_t :=
  match sock with
  | Socket ep => let (r, ep') := ep_send ep data in (r, Socket ep')
  | ClosedFile => (Raise stream_closed, ClosedFile)
  end.

Definition sock_shutdown (sock : sock_t) : result unit :=
  match sock with
  | Socket ep => match on_shutdown ep with
                 | Some e => Raise e
                 | None => Ok tt
                 end
  | ClosedFile => Raise stream_closed
  end.

Definition sock_fileno (sock : sock_t) : result Z :=
  match sock with
  | Socket ep => fd ep
  | ClosedFile => Raise stream_closed
  end.

(** ** [SocketStream] *)

Record SocketStream : Type := { sock : sock_t }.

Definition MAX_IO_CHUNK : Z := 64000.

Definition closed (self : SocketStream) : bool :=
  match sock self with
  | ClosedFile => true
  | Socket _ => false
  end.

(** [close]: an [Exception] from [shutdown] is swallowed, anything else
    leaves at once; [self.sock.close()] returns. *)
Definition close (self : SocketStream) : result unit * SocketStream :=
  let after_shutdown : result unit :=
    if negb (closed self) then
      match sock_shutdown (sock self) with
      | Ok _ => Ok tt
      | Raise e => if isinstance e Exception then Ok tt else Raise e
      end
    else Ok tt in
  match after_shutdown with
  | Ok _ => (Ok tt, {| sock := ClosedFile |})
  | Raise e => (Raise e, self)
  end.

Section with_compat.

(** From [rpyc.lib.compat] and [rpyc.external.errno], which are not
    among the sources: the function reading the error number of an
    exception, and the error numbers named by the code. *)
Variable get_exc_errno : exn -> option Z.
Variables EAGAIN EWOULDBLOCK EBADF : Z.

Definition retry_errnos : list Z := [EAGAIN; EWOULDBLOCK].

Definition errno_in (x : option Z) (l : list Z) : bool :=
  match x with
  | Some n => existsb (Z.eqb n) l
  | None => false
  end.

(** [self.close(); raise EOFError(...)]. *)
Definition close_and_raise_EOFError {A : Type} (self : SocketStream)
  : result A * SocketStream :=
  match close self with
  | (Ok _, self') => (raise EOFError, self')
  | (Raise e, self') => (Raise e, self')
  end.

Definition fileno (self : SocketStream) : result Z * SocketStream :=
  match sock_fileno (sock self) with
  | Ok n => (Ok n, self)
  | Raise ex =>
      if isinstance ex socket.error then
        match close self with
        | (Ok _, self') =>
            if errno_in (get_exc_errno ex) [EBADF]
            then (raise EOFError, self')
            else (Raise ex, self')
        | (Raise e, self') => (Raise e, self')
        end
      else (Raise ex, self)
  end.

(** The [while count > 0] loop of [read]; [data] is the list of
    buffers received so far. *)
Fixpoint read_loop (fuel : nat) (self : SocketStream) (count : Z)
         (data : list bytes) : option (result bytes * SocketStream) :=
  if count >? 0 then
    match fuel with
    | O => None
    | S fuel' =>
        let (r, sock') := sock_recv (sock self) (Z.min MAX_IO_CHUNK count) in
        let self := {| sock := sock' |} in
        match r with
        | Raise ex =>
            if isinstance ex socket.timeout then
              read_loop fuel' self count data
            else if isinstance ex socket.error then
              if errno_in (get_exc_errno ex) retry_errnos then
                read_loop fuel' self count data
              else Some (close_and_raise_EOFError self)
            else Some (Raise ex, self)
        | Ok buf =>
            match buf with
            | [] => Some (close_and_raise_EOFError self)
            | _ => read_loop fuel' self (count - len buf) (data ++ [buf])
            end
        end
    end
  else Some (Ok (concat data), self).

Definition read (fuel : nat) (self : SocketStream) (count : Z)
  : option (result bytes * SocketStream) :=
  read_loop fuel self count [].

(** The [while data] loop of [write], inside its [try]. *)
Fixpoint write_loop (fuel : nat) (self : SocketStream) (data : bytes)
  : option (result unit * SocketStream) :=
  match data with
  | [] => Some (Ok tt, self)
  | _ =>
      match fuel with
      | O => None
      | S fuel' =>
          let (r, sock') := sock_send (sock self) (slice_to MAX_IO_CHUNK data) in
          let self := {| sock := sock' |} in
          match r with
          | Ok count => write_loop fuel' self (slice_from count data)
          | Raise ex => Some (Raise ex, self)
          end
      end
  end.

Definition write (fuel : nat) (self : SocketStream) (data : bytes)
  : option (result unit * SocketStream) :=
  match write_loop fuel self data with
  | Some (Raise ex, self') =>
      if isinstance ex socket.error
      then Some (close_and_raise_EOFError self')
      else Some (Raise ex, self')
  | other => other
  end.

End with_compat.

End stream.

(* ================================================================== *)
(** * rpyc/external/timeout.py                                         *)
(* ================================================================== *)

(** [time.sleep(secs)] refuses a negative length with [ValueError]; what
    it returns here is the time slept. *)
Module time.

Definition sleep (secs : Q) : result Q :=
  if Qle_bool 0 secs then Ok secs else raise ValueError.

End time.

Module timeout.
Section timeout.

(** Clock readings and durations are floating-point numbers, kept as
    rationals; [rnd] is the rounding of the result of a floating-point
    operation, as in [lib]. *)
Variable rnd : Q -> Q.

Record Timeout : Type := { finite : bool; tmax : option Q }.

(** What the constructor is given: another [Timeout], [None], or a
    number of seconds. *)
Inductive timeout_arg : Type :=
| OfTimeout (t : Timeout)
| OfNone
| OfSeconds (s : Q).

(** [Timeout(timeout)]; [now] is what [time.time()] returns if it is
    called. *)
Definition __init__ (now : Q) (timeout : timeout_arg) : Timeout :=
  match timeout with
  | OfTimeout t => {| finite := finite t; tmax := tmax t |}
  | OfNone => {| finite := false; tmax := None |}
  | OfSeconds s =>
      let finite := Qle_bool 0 s in
      {| finite := finite;
         tmax := if finite then Some (rnd (now + s)%Q) else None |}
  end.

(** [self.finite and time.time() >= self.tmax]; comparing a number with
    [None] raises [TypeError]. *)
Definition expired (self : Timeout) (now : Q) : result bool :=
  if finite self then
    match tmax self with
    | Some t => Ok (Qle_bool t now)
    | None => raise TypeError
    end
  else Ok false.

(** [max((0, self.tmax - time.time())) if self.finite else None]. *)
Definition timeleft (self : Timeout) (now : Q) : result (option Q) :=
  if finite self then
    match tmax self with
    | Some t =>
        let d := rnd (t - now)%Q in
        Ok (Some (if Qle_bool d 0 then 0%Q else d))
    | None => raise TypeError
    end
  else Ok None.

(** [time.sleep(min(interval, self.timeleft()) if self.finite else
    interval)]. *)
Definition sleep (self : Timeout) (now : Q) (interval : Q) : result Q :=
  if finite self then
    remaining <- timeleft self now ;;
    match remaining with
    | Some l => time.sleep (if Qle_bool interval l then interval else l)
    | None => raise TypeError
    end
  else time.sleep interval.

End timeout.
End timeout.

(* ================================================================== *)
(** * rpyc/core/stream.py: [Stream.poll]                               *)
(* ================================================================== *)

Module Stream.
Section poll.

Variable rnd : Q -> Q.

(** From [rpyc.lib.compat] and [rpyc.external.errno], as in [stream]. *)
Variable get_exc_errno : exn -> option Z.
Variables EBADF EINTR : Z.
Variable select_error : pyclass.

(** The poll object [poll()] of [rpyc.lib.compat] makes, by what the
    operating system will answer: what [register(fd, "r")] raises, if
    anything, and what the [k]-th call [poll(t)] returns (the list of
    the descriptors that are ready) or raises. *)
Record poller : Type := {
  on_register : Z -> option exn;
  answers : nat -> option Q -> result (list Z)
}.

Variable p : poller.

(** The clock: when the [Timeout] is made, and when the time left is
    computed before the [k]-th call of [p.poll]. *)
Variable started : Q.
Variable clock : nat -> Q.

(** [ex.args[0] == errno.EINTR]: the first argument of an error of the
    operating system is its error number. *)
Definition interrupted (ex : exn) : bool :=
  stream.errno_in (exn_errno ex) [EINTR].

(** The [while True] loop, from its [k]-th round on. *)
Fixpoint poll_loop (fuel : nat) (k : nat) (timeout : timeout.Timeout)
  : option (result (list Z)) :=
  match fuel with
  | O => None
  | S fuel' =>
      match (remaining <- timeout.timeleft rnd timeout (clock k) ;;
             answers p k remaining) with
      | Ok rl => Some (Ok rl)
      | Raise ex =>
          if isinstance ex select_error then
            if interrupted ex then poll_loop fuel' (S k) timeout
            else Some (Raise ex)
          else Some (Raise ex)
      end
  end.

(** [poll], on a [SocketStream]: [self.fileno()] is the one above. *)
Definition poll (fuel : nat) (self : stream.SocketStream)
           (timeout : timeout.timeout_arg)
  : option (result bool * stream.SocketStream) :=
  let timeout := timeout.__init__ rnd started timeout in
  let body : option (result (list Z) * stream.SocketStream) :=
    match stream.fileno get_exc_errno EBADF self with
    | (Raise e, self') => Some (Raise e, self')
    | (Ok fd, self') =>
        match on_register p fd with
        | Some e => Some (Raise e, self')
        | None =>
            match poll_loop fuel 0 timeout with
            | Some r => Some (r, self')
            | None => None
            end
        end
    end in
  match body with
  | Some (Raise ex, self') =>
      if isinstance ex ValueError
      then Some (Raise (Exn select_error None), self')
      else Some (Raise ex, self')
  | Some (Ok rl, self') =>
      Some (Ok (match rl with [] => false | _ => true end), self')
  | None => None
  end.

End poll.
End Stream.

(* ================================================================== *)
(** * rpyc/core/stream.py: [SocketStream._connect]                     *)
(* ================================================================== *)

Module SocketStream.

(** The options [_connect] sets. *)
Inductive sockopt : Type :=
| TCP_NODELAY | SO_KEEPALIVE | TCP_KEEPCNT | TCP_KEEPIDLE | TCP_KEEPINTVL.

(** A connected socket: the options set on it so far, in order, and
    whether [close] has been called. *)
Record socket_t : Type := {
  options : list (sockopt * Z);
  was_closed : bool
}.

(** The [keepalive] argument: a boolean or an integer. *)
Inductive keepalive_t : Type :=
| KBool (b : bool)
| KInt (n : Z).

(** [if keepalive:] *)
Definition truth (keepalive : keepalive_t) : bool :=
  match keepalive with
  | KBool b => b
  | KInt n => negb (n =? 0)
  end.

(** The integer a boolean or an integer stands for in a comparison or
    as the value of an option. *)
Definition int_of (keepalive : keepalive_t) : Z :=
  match keepalive with
  | KBool b => if b then 1 else 0
  | KInt n => n
  end.

Section _connect.

(** The platform: what [s.setsockopt(level, option, value)] raises, if
    anything, and whether the [socket] module has the attributes
    [TCP_KEEPIDLE], [TCP_KEEPINTVL] and [TCP_KEEPCNT]. *)
Variable setsockopt_raises : sockopt -> Z -> option exn.
Variables has_TCP_KEEPIDLE has_TCP_KEEPINTVL has_TCP_KEEPCNT : bool.

(** A step on the socket [s]: its result and the socket afterwards. *)
Definition step (A : Type) : Type := socket_t -> result A * socket_t.

Definition then_ {A B : Type} (m : step A) (k : A -> step B) : step B :=
  fun s => match m s with
           | (Ok a, s') => k a s'
           | (Raise e, s') => (Raise e, s')
           end.

Definition done : step unit := fun s => (Ok tt, s).

Definition fail (c : pyclass) : step unit := fun s => (raise c, s).

Definition setsockopt (option : sockopt) (value : Z) : step unit :=
  fun s => match setsockopt_raises option value with
           | Some e => (Raise e, s)
           | None => (Ok tt, {| options := options s ++ [(option, value)];
                                was_closed := was_closed s |})
           end.

Definition close (s : socket_t) : socket_t :=
  {| options := options s; was_closed := true |}.

(** The body of the [try]. *)
Definition configure (nodelay : bool) (keepalive : keepalive_t) : step unit :=
  then_ (if nodelay then setsockopt TCP_NODELAY 1 else done) (fun _ =>
  if truth keepalive then
    then_ (setsockopt SO_KEEPALIVE 1) (fun _ =>
    let is_linux_socket :=
      has_TCP_KEEPIDLE && has_TCP_KEEPINTVL && has_TCP_KEEPCNT in
    if is_linux_socket then
      let keepalive :=
        match keepalive with
        | KBool true => KInt 60
        | other => other
        end in
      if int_of keepalive <? 1 then fail ValueError
      else
        then_ (setsockopt TCP_KEEPCNT 5) (fun _ =>
        then_ (setsockopt TCP_KEEPIDLE (int_of keepalive)) (fun _ =>
        setsockopt TCP_KEEPINTVL (int_of keepalive)))
    else done)
  else done).

(** [_connect], from what [socket_backoff_connect] returned or raised:
    the result, and the socket as it is left when there is one.  On any
    exception of the body the socket is closed and the exception raised
    again. *)
Definition _connect (connected : result socket_t) (nodelay : bool)
           (keepalive : keepalive_t) : result socket_t * option socket_t :=
  match connected with
  | Raise e => (Raise e, None)
  | Ok s =>
      match configure nodelay keepalive s with
      | (Ok _, s') => (Ok s', Some s')
      | (Raise e, s') => (Raise e, Some (close s'))
      end
  end.

End _connect.
End SocketStream.

(* ================================================================== *)
(** * Vocabulary of the statements                                    *)
(* ================================================================== *)

(** ** First bytes *)

(** The registered tags are the bytes [0x00]-[0x06] and [0x08]-[0x1b]. *)
Definition registered (t : byte) : bool :=
  ((0x00 <=? ord t) && (ord t <=? 0x06)) || ((0x08 <=? ord t) && (ord t <=? 0x1b)).

(** The bytes standing for the integers [-0x30 .. 0x9f]. *)
Definition immediate (t : byte) : bool := (0x20 <=? ord t) && (ord t <=? 0xef).

(** A byte that is neither an immediate integer nor a registered tag. *)
Definition unrecognized (t : byte) : bool :=
  negb (immediate t) && negb (registered t).

(** ** Loaders that consume exactly a given chunk *)

(** The answer of a loader that produced [r] and left [rest] unread. *)
Definition answer {A : Type} (r : result A) (rest : bytes)
  : option (result (A * bytes)) :=
  Some (match r with
        | Ok a => Ok (a, rest)
        | Raise e => Raise e
        end).

(** [consumes m chunk r]: run on a buffer that starts with [chunk], the
    loader [m] answers [r] and leaves everything after [chunk] unread. *)
Definition consumes {A : Type} (m : brine.loader A) (chunk : bytes)
           (r : result A) : Prop :=
  forall rest : bytes, m (chunk ++ rest) = answer r rest.

(** [tuple(_load(stream) for i in range(l))] as a loader of a value. *)
Definition tuple_of (L : brine.loader value) (fuel : nat) (l : Z)
  : brine.loader value :=
  brine.lbind (brine.load_items L fuel l) (fun items => brine.ret (VTuple items)).

(** [within n strict m]: on every buffer of at most [n] bytes the loader
    [m] answers (it does not run out of fuel), and when it returns, what
    it leaves is a suffix of what it was given - a proper one when
    [strict]. *)
Definition within {A : Type} (n : nat) (strict : bool) (m : brine.loader A)
  : Prop :=
  forall s : bytes, (length s <= n)%nat ->
    exists r, m s = Some r /\
      forall a s', r = Ok (a, s') ->
        exists used, s = used ++ s' /\ (strict = true -> used <> []).

(** ** What [load] makes of the output of [dump]

    [reload v] follows the handlers on the bytes [dump v] writes.  It is a
    function of the value alone; [load_dump] below shows that it is what
    [load (dump v)] computes. *)

(** What [read_str] makes of the bytes it has read. *)
Definition str_of_bytes (is_py3k : bool) (b : bytes) : result value :=
  if is_py3k then s <- Text.ascii_decode b ;; Ok (VUnicode s)
  else Ok (VBytes b).

(** [f] on every element in turn, stopping at the first that raises. *)
Definition map_result {A B : Type} (f : A -> result B) : list A -> result (list B) :=
  fix go (l : list A) : result (list B) :=
    match l with
    | [] => Ok []
    | x :: l' => y <- f x ;; ys <- go l' ;; Ok (y :: ys)
    end.

(** An integer: immediate, or read back from its decimal digits. *)
Definition reload_int (is_py3k : bool) (n : Z) : result value :=
  match dict_get Z.eqb brine.IMM_INTS n with
  | Some _ => Ok (VInt n)
  | None =>
      m <- Builtins.to_int is_py3k (VBytes (IntLit.str n)) ;; Ok (VInt m)
  end.

(** A byte string: [_load_empty_str] when empty, [read_str] otherwise. *)
Definition reload_bytes (is_py3k : bool) (b : bytes) : result value :=
  if len b =? 0 then Ok (VBytes []) else str_of_bytes is_py3k b.

Definition reload_tuple (reload : value -> result value) (items : list value)
  : result value :=
  vs <- map_result reload items ;; Ok (VTuple vs).

Fixpoint reload (is_py3k : bool) (v : value) {struct v} : result value :=
  match v with
  | VNone | VNotImplemented | VEllipsis | VBool _ => Ok v
  | VInt n => reload_int is_py3k n
  | VLong n =>
      obj <- reload_int is_py3k n ;;
      m <- Builtins.to_int is_py3k obj ;;
      Ok (if is_py3k then VInt m else VLong m)
  | VFloat f => Ok (VFloat (Float.unpack (Float.pack f)))
  | VComplex re im =>
      Ok (VComplex (Float.unpack (Float.pack re)) (Float.unpack (Float.pack im)))
  | VBytes b => reload_bytes is_py3k b
  | VUnicode s =>
      b <- Text.utf8_encode is_py3k s ;;
      obj <- reload_bytes is_py3k b ;;
      Builtins.decode_utf8 is_py3k obj
  | VSlice start stop step =>
      obj <- reload_tuple (reload is_py3k) [start; stop; step] ;;
      '(a, b, c) <- Builtins.unpack3 is_py3k obj ;;
      Ok (VSlice a b c)
  | VTuple items => reload_tuple (reload is_py3k) items
  | VFrozenset items =>
      obj <- reload_tuple (reload is_py3k) items ;;
      Builtins.frozenset is_py3k obj
  | VObject => raise TypeError
  end.

(** [encodes py s0 s1 r]: between the stream states [s0] and [s1] the
    dumper appended a non-empty chunk from which [_load], given fuel for
    its length, produces [r] and nothing else. *)
Definition encodes (py : bool) (s0 s1 : brine.stream_t) (r : result value) : Prop :=
  exists chunk : bytes,
    brine.join s1 = brine.join s0 ++ chunk /\
    (1 <= length chunk)%nat /\
    forall fuel, (length chunk <= fuel)%nat ->
                 consumes (brine._load py fuel) chunk r.

(** The property proved of every value, by induction. *)
Definition loads_back (py : bool) (v : value) : Prop :=
  forall s0 s1, brine._dump py v s0 = Ok s1 -> encodes py s0 s1 (reload py v).

(** ** Round trip *)

(** One more decimal digit, given by its character code. *)
Definition digit_step (a c : Z) : Z := a * 10 + (c - 0x30).

(** The code points: [0 .. 0x10FFFF]. *)
Definition code_point (cp : Z) : bool := (0 <=? cp) && (cp <? 0x110000).

(** [items] holds no two equal elements, and none equal to one of
    [seen]: what a [frozenset] guarantees of its elements. *)
Fixpoint distinct (is_py3k : bool) (seen items : list value) : bool :=
  match items with
  | [] => true
  | x :: items' =>
      negb (existsb (fun y => Builtins.eq is_py3k y x) seen)
      && distinct is_py3k (seen ++ [x]) items'
  end.

(** The invariants every Python object of these types satisfies: a float
    is 64 bits wide, a text is made of code points, the elements of a
    [frozenset] are hashable and pairwise unequal. *)
Fixpoint well_formed (is_py3k : bool) (v : value) : bool :=
  match v with
  | VFloat f => (0 <=? f) && (f <? 2 ^ 64)
  | VComplex re im =>
      ((0 <=? re) && (re <? 2 ^ 64)) && ((0 <=? im) && (im <? 2 ^ 64))
  | VUnicode s => forallb code_point s
  | VSlice start stop step =>
      well_formed is_py3k start && well_formed is_py3k stop
      && well_formed is_py3k step
  | VTuple items => forallb (well_formed is_py3k) items
  | VFrozenset items =>
      forallb (well_formed is_py3k) items
      && forallb Builtins.hashable items
      && distinct is_py3k [] items
  | _ => true
  end.

(** No byte string and no text in the value but empty ones. *)
Fixpoint stringless (v : value) : bool :=
  match v with
  | VBytes b => match b with [] => true | _ => false end
  | VUnicode s => match s with [] => true | _ => false end
  | VSlice start stop step =>
      stringless start && stringless stop && stringless step
  | VTuple items | VFrozenset items => forallb stringless items
  | _ => true
  end.

(** Where the round trip holds: the value it must hold of. *)
Definition round_trips (py : bool) (v : value) : Prop :=
  well_formed py v = true -> (py = true -> stringless v = true) ->
  forall s0 s1, brine._dump py v s0 = Ok s1 -> reload py v = Ok v.

(** ** Floating-point rounding *)

(** What the statements about delays assume of the rounding: it is
    monotone, and the integers from 0 to 1024 are representable. *)
Definition rounding (rnd : Q -> Q) : Prop :=
  (forall x y : Q, (x <= y)%Q -> (rnd x <= rnd y)%Q) /\
  (forall z : Z, 0 <= z <= 1024 -> (rnd (inject_Z z) == inject_Z z)%Q).

(** ** Streams and their transports *)

(** Sample values of the parameters of [stream]: the error number an
    exception carries, and the Linux error numbers. *)
Module linux.
Definition get_exc_errno (e : exn) : option Z := exn_errno e.
Definition EAGAIN : Z := 11.
Definition EWOULDBLOCK : Z := 11.
Definition EBADF : Z := 9.
Definition ECONNRESET : Z := 104.
End linux.

(** A fresh endpoint with the given scripts, and the stream over it. *)
Definition endpoint_over (rx : list stream.recv_event)
           (tx : list stream.send_event) : stream.endpoint :=
  {| stream.rx := rx; stream.tx := tx; stream.sent := []; stream.fd := Ok 3;
     stream.on_shutdown := None |}.

Definition stream_over (rx : list stream.recv_event) (tx : list stream.send_event)
  : stream.SocketStream :=
  {| stream.sock := stream.Socket (endpoint_over rx tx) |}.

Definition closed_stream : stream.SocketStream :=
  {| stream.sock := stream.ClosedFile |}.

(** The bytes a receive script delivers. *)
Fixpoint delivered (script : list stream.recv_event) : bytes :=
  match script with
  | [] => []
  | stream.Arrives chunk :: rest => chunk ++ delivered rest
  | stream.RecvRaises _ :: rest => delivered rest
  end.

(** A receive event at which [read] does not stop: a chunk that is not
    empty, or an exception that is an instance of [socket.timeout]. *)
Definition flowing (ev : stream.recv_event) : Prop :=
  match ev with
  | stream.Arrives chunk => chunk <> []
  | stream.RecvRaises e => isinstance e socket.timeout = true
  end.

(** The errors the specification calls transient: a timeout, or an
    operating-system error whose number is in [retry_errnos]. *)
Definition transient (get_exc_errno : exn -> option Z) (EAGAIN EWOULDBLOCK : Z)
           (e : exn) : Prop :=
  isinstance e TimeoutError = true \/
  (isinstance e OSError = true /\
   stream.errno_in (get_exc_errno e) (stream.retry_errnos EAGAIN EWOULDBLOCK) = true).

(** [shutdown] on the endpoint raises nothing but instances of
    [Exception] (which [close] swallows). *)
Definition quiet_shutdown (self : stream.SocketStream) : Prop :=
  match stream.sock_shutdown (stream.sock self) with
  | Ok _ => True
  | Raise e => stream.closed self = true \/ isinstance e Exception = true
  end.

(** ** What the length fields can hold *)

(** Every length [dump] has to write for [v] fits its field of at most
    four bytes - the number of digits of an integer, of bytes of a byte
    string, of bytes of the UTF-8 form of a text (which has to exist), of
    items of a tuple or a set. *)
Fixpoint fits (is_py3k : bool) (v : value) : bool :=
  match v with
  | VInt n | VLong n => len (IntLit.str n) <? 2 ^ 32
  | VBytes b => len b <? 2 ^ 32
  | VUnicode s =>
      match Text.utf8_encode is_py3k s with
      | Ok b => len b <? 2 ^ 32
      | Raise _ => false
      end
  | VSlice start stop step =>
      fits is_py3k start && fits is_py3k stop && fits is_py3k step
  | VTuple items | VFrozenset items =>
      (len items <? 2 ^ 32) && forallb (fits is_py3k) items
  | _ => true
  end.

(** ** What a loader returns *)

(** Every value the loader [m] returns satisfies [P]. *)
Definition yields {A : Type} (P : A -> Prop) (m : brine.loader A) : Prop :=
  forall (s : bytes) (a : A) (s' : bytes), m s = Some (Ok (a, s')) -> P a.

(** ** Deadlines *)

(** What the constructor establishes of a [Timeout]: it is finite exactly
    when it holds a deadline. *)
Definition consistent (t : timeout.Timeout) : bool :=
  Bool.eqb (timeout.finite t)
           (match timeout.tmax t with Some _ => true | None => false end).

(** ** Connection attempts *)

(** The [i]-th attempt raises an instance of [socket.timeout]. *)
Definition times_out (attempt : Z -> option exn) (i : Z) : Prop :=
  exists e, attempt i = Some e /\ isinstance e socket.timeout = true.

(** The delays slept after the attempts [1 .. k-1]. *)
Definition backoffs (rnd : Q -> Q) (draw : Z -> Q) (k : Z) : list Q :=
  map (fun i => lib.exp_backoff rnd i (draw i)) (range 1 k).

(** ** Send scripts *)

(** A send event that raises nothing. *)
Definition accepting (ev : stream.send_event) : Prop :=
  match ev with
  | stream.Accepts _ => True
  | stream.SendRaises _ => False
  end.

(* ================================================================== *)
(** * Properties                                                       *)
(* ================================================================== *)

(** ** Bytes, slices and [struct] fields *)

Lemma ord_range (b : byte) : 0 <= ord b < 256.
Proof.
  unfold ord. pose proof (Byte.to_N_bounded b) as H.
  lia.
Qed.

Lemma chr_ord (b : byte) : chr (ord b) = b.
Proof.
  unfold chr, ord. rewrite N2Z.id, Byte.of_to_N. reflexivity.
Qed.

Lemma ord_chr (n : Z) : 0 <= n < 256 -> ord (chr n) = n.
Proof.
  intros H. unfold chr, ord.
  destruct (Byte.of_N (Z.to_N n)) as [b|] eqn:E.
  - apply Byte.to_of_N in E. rewrite E. lia.
  - pose proof (Byte.to_of_N_option_map (Z.to_N n)) as M. rewrite E in M.
    simpl in M. destruct (N.leb_spec (Z.to_N n) 255); [discriminate | lia].
Qed.

Lemma len_app {A : Type} (l1 l2 : list A) : len (l1 ++ l2) = len l1 + len l2.
Proof. unfold len. rewrite length_app. lia. Qed.

Lemma len_nonneg {A : Type} (l : list A) : 0 <= len l.
Proof. unfold len. lia. Qed.

Lemma len_cons {A : Type} (x : A) (l : list A) : len (x :: l) = 1 + len l.
Proof. unfold len. simpl length. lia. Qed.

Lemma slice_to_app {A : Type} (d rest : list A) :
  slice_to (len d) (d ++ rest) = d.
Proof.
  unfold slice_to. rewrite len_app.
  destruct (Z.leb_spec (len d + len rest) (len d)) as [H|H].
  - assert (rest = []) as ->.
    { destruct rest; [reflexivity|]. rewrite len_cons in H.
      pose proof (len_nonneg rest). lia. }
    apply app_nil_r.
  - unfold len. rewrite Nat2Z.id, firstn_app, Nat.sub_diag, firstn_all.
    simpl. apply app_nil_r.
Qed.

Lemma slice_from_app {A : Type} (d rest : list A) :
  slice_from (len d) (d ++ rest) = rest.
Proof.
  unfold slice_from. rewrite len_app.
  destruct (Z.leb_spec (len d + len rest) (len d)) as [H|H].
  - destruct rest; [reflexivity|]. rewrite len_cons in H.
    pose proof (len_nonneg rest). lia.
  - unfold len. rewrite Nat2Z.id, skipn_app, Nat.sub_diag, skipn_all.
    reflexivity.
Qed.

(** A slice never invents bytes: the two halves make up the data. *)
Lemma slice_split {A : Type} (n : Z) (data : list A) :
  data = slice_to n data ++ slice_from n data.
Proof.
  unfold slice_to, slice_from. destruct (len data <=? n).
  - symmetry. apply app_nil_r.
  - symmetry. apply firstn_skipn.
Qed.

Lemma slice_to_short {A : Type} (n : Z) (data : list A) :
  len data <= n -> slice_to n data = data /\ slice_from n data = [].
Proof.
  intros H. unfold slice_to, slice_from.
  destruct (Z.leb_spec (len data) n); [split; reflexivity | lia].
Qed.

Lemma be_bytes_length (k : nat) (n : Z) : length (Struct.be_bytes k n) = k.
Proof. induction k; simpl; congruence. Qed.

Lemma be_int_app (a b : bytes) (acc : Z) :
  fold_left (fun acc x => acc * 256 + ord x) (a ++ b) acc =
  fold_left (fun acc x => acc * 256 + ord x) b
            (fold_left (fun acc x => acc * 256 + ord x) a acc).
Proof. apply fold_left_app. Qed.

Lemma be_int_be_bytes_acc (k : nat) (n acc : Z) :
  0 <= n ->
  fold_left (fun acc x => acc * 256 + ord x) (Struct.be_bytes k n) acc =
  acc * 256 ^ Z.of_nat k + n mod 256 ^ Z.of_nat k.
Proof.
  revert acc. induction k as [|k IH]; intros acc Hn.
  - simpl. rewrite Z.mod_1_r. lia.
  - cbn [Struct.be_bytes fold_left].
    rewrite IH by assumption.
    rewrite ord_chr by (apply Z.mod_pos_bound; lia).
    rewrite Nat2Z.inj_succ, Z.pow_succ_r by lia.
    set (p := 256 ^ Z.of_nat k). assert (0 < p) by (subst p; lia).
    rewrite (Z.mul_comm 256 p), Z.rem_mul_r by lia. lia.
Qed.

Lemma be_int_be_bytes (k : nat) (n : Z) :
  0 <= n < 256 ^ Z.of_nat k -> Struct.be_int (Struct.be_bytes k n) = n.
Proof.
  intros H. unfold Struct.be_int. rewrite be_int_be_bytes_acc by lia.
  rewrite Z.mod_small; lia.
Qed.

Lemma unpack_pack_uint (k : nat) (n : Z) (b : bytes) :
  Struct.pack_uint k n = Ok b ->
  length b = k /\ Struct.unpack_uint k b = Ok n.
Proof.
  unfold Struct.pack_uint, Struct.unpack_uint.
  destruct ((0 <=? n) && (n <? 256 ^ Z.of_nat k)) eqn:E; [|discriminate].
  intros [= <-]. rewrite be_bytes_length, Nat.eqb_refl.
  split; [reflexivity|]. rewrite be_int_be_bytes; [reflexivity | lia].
Qed.

Lemma bytes_eqb_eq (a b : bytes) : bytes_eqb a b = true -> a = b.
Proof.
  unfold bytes_eqb. revert b.
  induction a as [|x a IH]; intros [|y b] H; simpl in H; try discriminate.
  - reflexivity.
  - apply andb_true_iff in H. destruct H as [H1 H2].
    apply Byte.byte_dec_bl in H1. rewrite H1, (IH b H2). reflexivity.
Qed.

(** ** The table of immediate integers *)

Lemma in_range (a b v : Z) : In v (range a b) <-> a <= v < b.
Proof.
  unfold range. rewrite in_map_iff. split.
  - intros (k & <- & Hk). apply in_seq in Hk. lia.
  - intros H. exists (Z.to_nat (v - a)). split; [lia|]. apply in_seq. lia.
Qed.

Lemma IMM_INTS_hit (v : Z) :
  -0x30 <= v < 0xa0 ->
  dict_get Z.eqb brine.IMM_INTS v = Some [chr (v + 0x50)].
Proof.
  intros H.
  assert (forallb (fun v => match dict_get Z.eqb brine.IMM_INTS v with
                            | Some b => bytes_eqb b [chr (v + 0x50)]
                            | None => false
                            end) (range (-0x30) 0xa0) = true) as A
      by (vm_compute; reflexivity).
  rewrite forallb_forall in A. specialize (A v (proj2 (in_range _ _ _) H)).
  cbv beta in A.
  destruct (dict_get Z.eqb brine.IMM_INTS v) as [b|]; [|discriminate].
  apply bytes_eqb_eq in A. subst b. reflexivity.
Qed.

Lemma IMM_INTS_miss (v : Z) :
  ~ (-0x30 <= v < 0xa0) -> dict_get Z.eqb brine.IMM_INTS v = None.
Proof.
  intros H. unfold dict_get.
  destruct (find _ brine.IMM_INTS) as [[k b]|] eqn:E; [|reflexivity].
  apply find_some in E. destruct E as [I E]. simpl in E.
  apply Z.eqb_eq in E. subst k. unfold brine.IMM_INTS in I.
  apply in_map_iff in I. destruct I as (i & [= -> _] & I).
  apply in_range in I. contradiction.
Qed.

Lemma IMM_INTS_LOADER_hit (t : byte) :
  0x20 <= ord t <= 0xef ->
  dict_get bytes_eqb brine.IMM_INTS_LOADER [t] = Some (ord t - 0x50).
Proof.
  destruct t; vm_compute; intros [H1 H2]; try reflexivity;
    exfalso; first [now apply H1 | now apply H2].
Qed.

Lemma IMM_INTS_LOADER_miss (t : byte) :
  ~ (0x20 <= ord t <= 0xef) ->
  dict_get bytes_eqb brine.IMM_INTS_LOADER [t] = None.
Proof.
  destruct t; intros H; try (vm_compute; reflexivity);
    exfalso; apply H; vm_compute; split; discriminate.
Qed.

Lemma IMM_INTS_LOADER_nil :
  dict_get bytes_eqb brine.IMM_INTS_LOADER [] = None.
Proof. vm_compute. reflexivity. Qed.

(** ** One step of [_load] *)

Lemma slice_1_cons {A : Type} (t : A) (rest : list A) :
  slice_to 1 (t :: rest) = [t] /\ slice_from 1 (t :: rest) = rest.
Proof.
  unfold slice_to, slice_from. rewrite len_cons.
  destruct rest as [|x rest].
  - simpl. split; reflexivity.
  - destruct (Z.leb_spec (1 + len (x :: rest)) 1) as [H|H].
    + rewrite len_cons in H. pose proof (len_nonneg rest). lia.
    + split; reflexivity.
Qed.

Lemma _load_cons (py : bool) (f : nat) (t : byte) (rest : bytes) :
  brine._load py (S f) (t :: rest) =
  match dict_get bytes_eqb brine.IMM_INTS_LOADER [t] with
  | Some n => Some (Ok (VInt n, rest))
  | None =>
      match dict_get bytes_eqb
              (brine._load_registry py (brine._load py f) f) [t] with
      | Some handler => handler rest
      | None => Some (Raise (Exn TypeError None))
      end
  end.
Proof.
  cbn [brine._load]. unfold brine.lbind at 1. unfold brine.read.
  destruct (slice_1_cons t rest) as [-> ->].
  destruct (dict_get bytes_eqb brine.IMM_INTS_LOADER [t]); [reflexivity|].
  destruct (dict_get bytes_eqb _ [t]); reflexivity.
Qed.

Lemma _load_nil (py : bool) (f : nat) :
  brine._load py (S f) [] = Some (Raise (Exn TypeError None)).
Proof. reflexivity. Qed.

Lemma registry_miss (py : bool) (L : brine.loader value) (f : nat) (t : byte) :
  registered t = false ->
  dict_get bytes_eqb (brine._load_registry py L f) [t] = None.
Proof. destruct t; intros H; try discriminate H; reflexivity. Qed.

(** C8.  Density of the encoding.  An integer [v] of [-48 .. 159] is dumped
    as the single byte of value [v + 0x50], with no tag; a byte string [b]
    of one to four bytes is dumped as [1 + len b] bytes: the tag of its
    exact length ([0x0a] to [0x0d], which is [0x09 + len b]) followed by
    the bytes themselves, with no length field; and [load] answers a byte
    of the reserved range [0x20 .. 0xef] with its integer whatever the
    handler table holds (so before any tag lookup), leaving the rest of
    the buffer unread. *)
Theorem dump_density (is_py3k : bool) :
  (forall v : Z, -48 <= v <= 159 ->
     brine.dump is_py3k (VInt v) = Ok [chr (v + 0x50)] /\
     ord (chr (v + 0x50)) = v + 0x50) /\
  (forall b : bytes, 1 <= len b <= 4 ->
     brine.dump is_py3k (VBytes b) = Ok (chr (0x09 + len b) :: b) /\
     In [chr (0x09 + len b)]
        [brine.TAG_STR1; brine.TAG_STR2; brine.TAG_STR3; brine.TAG_STR4] /\
     len (chr (0x09 + len b) :: b) = 1 + len b) /\
  (forall (t : byte) (rest : bytes) (fuel : nat), 0x20 <= ord t <= 0xef ->
     brine._load is_py3k (S fuel) (t :: rest) = Some (Ok (VInt (ord t - 0x50), rest)) /\
     brine.load is_py3k (t :: rest) = Some (Ok (VInt (ord t - 0x50)))).
Proof.
  split; [|split].
  - intros v Hv. split; [|apply ord_chr; lia].
    unfold brine.dump. cbn [brine._dump]. unfold brine._dump_int.
    rewrite IMM_INTS_hit by lia. reflexivity.
  - intros b Hb.
    assert (len b = 1 \/ len b = 2 \/ len b = 3 \/ len b = 4) as C by lia.
    split; [|split].
    + unfold brine.dump. cbn [brine._dump]. unfold brine._dump_bytes.
      destruct C as [E|[E|[E|E]]]; rewrite E; cbn; rewrite app_nil_r;
        reflexivity.
    + destruct C as [E|[E|[E|E]]]; rewrite E; cbn; tauto.
    + apply len_cons.
  - intros t rest fuel Ht.
    assert (forall f, brine._load is_py3k (S f) (t :: rest)
                      = Some (Ok (VInt (ord t - 0x50), rest))) as A.
    { intros f. rewrite _load_cons, IMM_INTS_LOADER_hit by lia. reflexivity. }
    split; [apply A|]. unfold brine.load. rewrite A. reflexivity.
Qed.

Lemma dump_density_witness :
  (brine.dump true (VInt (-48)) = Ok [x20] /\
   brine.dump true (VInt 159) = Ok [xef]) /\
  brine.dump true (VBytes [x61; x62; x63; x64]) = Ok [x0d; x61; x62; x63; x64] /\
  brine.load true [xef; x00; xff] = Some (Ok (VInt 159)).
Proof.
  destruct (dump_density true) as (Hint & Hbytes & Hload).
  split; [split|split].
  - exact (proj1 (Hint (-48) ltac:(lia))).
  - exact (proj1 (Hint 159 ltac:(lia))).
  - exact (proj1 (Hbytes [x61; x62; x63; x64] ltac:(vm_compute; split; discriminate))).
  - exact (proj2 (Hload xef [x00; xff] O ltac:(vm_compute; split; discriminate))).
Defined.

(** ** Composing loaders that consume exactly a given chunk *)

Section consumes_facts.
Context {A B : Type}.

Lemma consumes_ret (a : A) : consumes (brine.ret a) [] (Ok a).
Proof. intros rest. reflexivity. Qed.

Lemma consumes_lift (r : result A) : consumes (brine.lift r) [] r.
Proof. intros rest. destruct r; reflexivity. Qed.

Lemma consumes_bind (m : brine.loader A) (k : A -> brine.loader B)
      (c1 c2 : bytes) (r1 : result A) (k' : A -> result B) :
  consumes m c1 r1 ->
  (forall a, r1 = Ok a -> consumes (k a) c2 (k' a)) ->
  consumes (brine.lbind m k) (c1 ++ c2) (rbind r1 k').
Proof.
  intros Hm Hk rest. unfold brine.lbind.
  rewrite <- app_assoc, Hm. destruct r1 as [a|e]; simpl.
  - apply (Hk a eq_refl).
  - reflexivity.
Qed.

Lemma consumes_ext (m m' : brine.loader A) (chunk : bytes) (r : result A) :
  (forall s, m s = m' s) -> consumes m' chunk r -> consumes m chunk r.
Proof. intros E H rest. rewrite E. apply H. Qed.
End consumes_facts.

Lemma consumes_read (d : bytes) : consumes (brine.read (len d)) d (Ok d).
Proof.
  intros rest. unfold brine.read, answer.
  rewrite slice_to_app, slice_from_app. reflexivity.
Qed.

Lemma consumes_read_n (n : Z) (d : bytes) :
  len d = n -> consumes (brine.read n) d (Ok d).
Proof. intros <-. apply consumes_read. Qed.

(** A length field of [k] bytes followed by what the length governs. *)
Lemma consumes_length_field {A : Type} (k : nat) (l : Z) (p : bytes)
      (body : Z -> brine.loader A) (chunk : bytes) (r : result A) :
  Struct.pack_uint k l = Ok p ->
  consumes (body l) chunk r ->
  consumes (brine.lbind (brine.read (Z.of_nat k)) (fun b =>
            brine.lbind (brine.lift (Struct.unpack_uint k b)) body))
           (p ++ chunk) r.
Proof.
  intros Hp Hbody. apply unpack_pack_uint in Hp. destruct Hp as [Hlen Hun].
  change r with (rbind (Ok p) (fun _ : bytes => r)).
  apply consumes_bind.
  - apply consumes_read_n. unfold len. congruence.
  - intros b [= <-]. rewrite Hun.
    change chunk with ([] ++ chunk).
    change r with (rbind (Ok l) (fun _ : Z => r)).
    apply consumes_bind; [apply consumes_lift|].
    intros a [= <-]. assumption.
Qed.

Lemma pack_uint_ok (k : nat) (l : Z) :
  0 <= l < 256 ^ Z.of_nat k -> Struct.pack_uint k l = Ok (Struct.be_bytes k l).
Proof.
  intros H. unfold Struct.pack_uint.
  destruct (Z.leb_spec 0 l); [|lia].
  destruct (Z.ltb_spec l (256 ^ Z.of_nat k)); [|lia]. reflexivity.
Qed.

Lemma pack_uint_length (k : nat) (l : Z) (p : bytes) :
  Struct.pack_uint k l = Ok p -> length p = k.
Proof. intros H. apply unpack_pack_uint in H. tauto. Qed.

Lemma consumes_read_str (py : bool) (b : bytes) (l : Z) :
  len b = l -> consumes (brine.read_str py l) b (str_of_bytes py b).
Proof.
  intros Hl. unfold brine.read_str.
  rewrite <- (app_nil_r b) at 1.
  change (str_of_bytes py b)
    with (rbind (Ok b) (fun b => str_of_bytes py b)).
  apply consumes_bind; [apply consumes_read_n; assumption|].
  intros a [= <-]. unfold str_of_bytes. destruct py.
  - change (@nil byte) with (@nil byte ++ []).
    apply consumes_bind; [apply consumes_lift|].
    intros s _. apply consumes_ret.
  - apply consumes_ret.
Qed.

(** A registered tag followed by what its handler consumes. *)
Lemma consumes_tag (py : bool) (f : nat) (t : byte)
      (h : brine.loader value) (chunk : bytes) (r : result value) :
  immediate t = false ->
  dict_get bytes_eqb (brine._load_registry py (brine._load py f) f) [t] = Some h ->
  consumes h chunk r ->
  consumes (brine._load py (S f)) (t :: chunk) r.
Proof.
  intros Hi Hh Hc rest. simpl app. rewrite _load_cons.
  rewrite IMM_INTS_LOADER_miss.
  - rewrite Hh. apply Hc.
  - unfold immediate in Hi. apply andb_false_iff in Hi.
    destruct Hi as [Hi|Hi]; [apply Z.leb_gt in Hi | apply Z.leb_gt in Hi]; lia.
Qed.

(** ** [load] after [dump] computes [reload] *)

Lemma join_append (s : brine.stream_t) (c : bytes) :
  brine.join (brine.append s c) = brine.join s ++ c.
Proof.
  unfold brine.join, brine.append. rewrite concat_app. simpl.
  rewrite app_nil_r. reflexivity.
Qed.

(** An appended chunk [t :: body] whose tag [t] selects a handler that
    needs no callback. *)
Lemma encodes_tagged (py : bool) (s0 : brine.stream_t) (t : byte) (body : bytes)
      (h : brine.loader value) (r : result value) :
  immediate t = false ->
  (forall L f, dict_get bytes_eqb (brine._load_registry py L f) [t] = Some h) ->
  consumes h body r ->
  encodes py s0 (brine.append s0 (t :: body)) r.
Proof.
  intros Hi Hh Hc. exists (t :: body). split; [apply join_append|].
  split; [simpl; lia|].
  intros [|f] Hf; [simpl in Hf; lia|].
  eapply consumes_tag; eauto.
Qed.

Ltac singleton_tag :=
  eapply encodes_tagged;
  [ reflexivity | intros; reflexivity | apply consumes_ret ].

Lemma consumes_int_payload (py : bool) (d : bytes) :
  consumes (brine.lbind (brine.read (len d)) (fun d' =>
            brine.lbind (brine.lift (Builtins.to_int py (VBytes d'))) (fun n =>
            brine.ret (VInt n))))
           d (m <- Builtins.to_int py (VBytes d) ;; Ok (VInt m)).
Proof.
  rewrite <- (app_nil_r d) at 2.
  apply (consumes_bind (brine.read (len d)) _ d [] (Ok d)
           (fun d => m <- Builtins.to_int py (VBytes d) ;; Ok (VInt m)));
    [apply consumes_read|].
  intros a [= <-]. change (@nil byte) with (@nil byte ++ []).
  apply consumes_bind; [apply consumes_lift|].
  intros m _. apply consumes_ret.
Qed.

Lemma encodes_int (py : bool) (n : Z) (s0 s1 : brine.stream_t) :
  brine._dump_int n s0 = Ok s1 -> encodes py s0 s1 (reload_int py n).
Proof.
  unfold brine._dump_int, reload_int.
  destruct (dict_get Z.eqb brine.IMM_INTS n) as [b|] eqn:E.
  - assert (-0x30 <= n < 0xa0) as Hn.
    { destruct (Z_le_dec (-0x30) n); [destruct (Z_lt_dec n 0xa0)|];
        try lia; rewrite IMM_INTS_miss in E by lia; discriminate. }
    rewrite IMM_INTS_hit in E by lia. injection E as <-. intros [= <-].
    exists [chr (n + 0x50)]. split; [apply join_append|].
    split; [simpl; lia|].
    intros [|f] Hf; [simpl in Hf; lia|]. intros rest. simpl app.
    rewrite _load_cons, IMM_INTS_LOADER_hit by (rewrite ord_chr; lia).
    rewrite ord_chr by lia. unfold answer. do 4 f_equal. lia.
  - unfold brine.BYTES_LITERAL. set (d := IntLit.str n).
    destruct (len d <? 256).
    + destruct (brine.I1_pack (len d)) as [p|e] eqn:Hp; [|discriminate].
      cbn [rbind]. intros [= <-].
      apply (encodes_tagged py s0 x16 (p ++ d) (brine._load_int_l1 py));
        [reflexivity | intros; reflexivity |].
      apply (consumes_length_field 1 (len d)); [exact Hp|].
      apply consumes_int_payload.
    + destruct (brine.I4_pack (len d)) as [p|e] eqn:Hp; [|discriminate].
      cbn [rbind]. intros [= <-].
      apply (encodes_tagged py s0 x17 (p ++ d) (brine._load_int_l4 py));
        [reflexivity | intros; reflexivity |].
      apply (consumes_length_field 4 (len d)); [exact Hp|].
      apply consumes_int_payload.
Qed.

Lemma encodes_bytes (py : bool) (b : bytes) (s0 s1 : brine.stream_t) :
  brine._dump_bytes b s0 = Ok s1 -> encodes py s0 s1 (reload_bytes py b).
Proof.
  unfold brine._dump_bytes, reload_bytes.
  destruct (len b =? 0) eqn:E0.
  { intros [= <-]. singleton_tag. }
  destruct (len b =? 1) eqn:E1.
  { intros [= <-]. apply Z.eqb_eq in E1.
    apply (encodes_tagged py s0 x0a b (brine._load_str1 py));
      [reflexivity | intros; reflexivity |].
    apply consumes_read_str. assumption. }
  destruct (len b =? 2) eqn:E2.
  { intros [= <-]. apply Z.eqb_eq in E2.
    apply (encodes_tagged py s0 x0b b (brine._load_str2 py));
      [reflexivity | intros; reflexivity |].
    apply consumes_read_str. assumption. }
  destruct (len b =? 3) eqn:E3.
  { intros [= <-]. apply Z.eqb_eq in E3.
    apply (encodes_tagged py s0 x0c b (brine._load_str3 py));
      [reflexivity | intros; reflexivity |].
    apply consumes_read_str. assumption. }
  destruct (len b =? 4) eqn:E4.
  { intros [= <-]. apply Z.eqb_eq in E4.
    apply (encodes_tagged py s0 x0d b (brine._load_str4 py));
      [reflexivity | intros; reflexivity |].
    apply consumes_read_str. assumption. }
  destruct (len b <? 256).
  - destruct (brine.I1_pack (len b)) as [p|e] eqn:Hp; [|discriminate].
    cbn [rbind]. intros [= <-].
    apply (encodes_tagged py s0 x0e (p ++ b) (brine._load_str_l1 py));
      [reflexivity | intros; reflexivity |].
    apply (consumes_length_field 1 (len b)); [exact Hp|].
    apply consumes_read_str. reflexivity.
  - destruct (brine.I4_pack (len b)) as [p|e] eqn:Hp; [|discriminate].
    cbn [rbind]. intros [= <-].
    apply (encodes_tagged py s0 x0f (p ++ b) (brine._load_str_l4 py));
      [reflexivity | intros; reflexivity |].
    apply (consumes_length_field 4 (len b)); [exact Hp|].
    apply consumes_read_str. reflexivity.
Qed.

(** A tag whose handler first calls [_load] back and then works on the
    object it got, reading nothing more. *)
Lemma encodes_wrapped (py : bool) (s0 s1 : brine.stream_t) (t : byte)
      (k : value -> brine.loader value) (g : value -> result value)
      (r : result value) :
  immediate t = false ->
  (forall L f, dict_get bytes_eqb (brine._load_registry py L f) [t]
               = Some (brine.lbind L k)) ->
  (forall obj, consumes (k obj) [] (g obj)) ->
  encodes py (brine.append s0 [t]) s1 r ->
  encodes py s0 s1 (rbind r g).
Proof.
  intros Hi Hh Hk (chunk & Hj & Hlen & Hc).
  exists (t :: chunk). split.
  { rewrite Hj, join_append, <- app_assoc. reflexivity. }
  split; [simpl; lia|].
  intros [|f] Hf; [simpl in Hf; lia|]. simpl in Hf.
  eapply consumes_tag; [exact Hi | apply Hh |].
  rewrite <- (app_nil_r chunk).
  apply consumes_bind; [apply Hc; lia|].
  intros obj _. apply Hk.
Qed.

Lemma consumes_lift_ret {A B : Type} (r : result A) (f : A -> B) :
  consumes (brine.lbind (brine.lift r) (fun a => brine.ret (f a))) []
           (a <- r ;; Ok (f a)).
Proof. intros rest. destruct r; reflexivity. Qed.

(** The fixed-arity tuple handlers are the counted loop run [k] times. *)
Lemma load_items_step (L : brine.loader value) (fuel : nat) (l : Z) (s : bytes) :
  0 < l ->
  brine.load_items L (S fuel) l s =
  brine.lbind L (fun item =>
    brine.lbind (brine.load_items L fuel (l - 1)) (fun items =>
      brine.ret (item :: items))) s.
Proof.
  intros H. cbn [brine.load_items].
  destruct (Z.leb_spec l 0); [lia | reflexivity].
Qed.

Lemma load_items_zero (L : brine.loader value) (fuel : nat) (s : bytes) :
  brine.load_items L fuel 0 s = Some (Ok ([], s)).
Proof. destruct fuel; reflexivity. Qed.

Lemma _load_tup1_loop (L : brine.loader value) (s : bytes) :
  brine._load_tup1 L s = tuple_of L 1 1 s.
Proof.
  unfold brine._load_tup1, tuple_of, brine.lbind.
  rewrite load_items_step by lia. unfold brine.lbind.
  destruct (L s) as [[[a s1]|e]|]; [|reflexivity|reflexivity].
  rewrite load_items_zero. reflexivity.
Qed.

Lemma _load_tup2_loop (L : brine.loader value) (s : bytes) :
  brine._load_tup2 L s = tuple_of L 2 2 s.
Proof.
  unfold brine._load_tup2, tuple_of, brine.lbind.
  rewrite load_items_step by lia. unfold brine.lbind.
  destruct (L s) as [[[a s1]|e]|]; [|reflexivity|reflexivity].
  rewrite load_items_step by lia. unfold brine.lbind.
  destruct (L s1) as [[[b s2]|e]|]; [|reflexivity|reflexivity].
  rewrite load_items_zero. reflexivity.
Qed.

Lemma _load_tup3_loop (L : brine.loader value) (s : bytes) :
  brine._load_tup3 L s = tuple_of L 3 3 s.
Proof.
  unfold brine._load_tup3, tuple_of, brine.lbind.
  rewrite load_items_step by lia. unfold brine.lbind.
  destruct (L s) as [[[a s1]|e]|]; [|reflexivity|reflexivity].
  rewrite load_items_step by lia. unfold brine.lbind.
  destruct (L s1) as [[[b s2]|e]|]; [|reflexivity|reflexivity].
  rewrite load_items_step by lia. unfold brine.lbind.
  destruct (L s2) as [[[c s3]|e]|]; [|reflexivity|reflexivity].
  rewrite load_items_zero. reflexivity.
Qed.

Lemma _load_tup4_loop (L : brine.loader value) (s : bytes) :
  brine._load_tup4 L s = tuple_of L 4 4 s.
Proof.
  unfold brine._load_tup4, tuple_of, brine.lbind.
  rewrite load_items_step by lia. unfold brine.lbind.
  destruct (L s) as [[[a s1]|e]|]; [|reflexivity|reflexivity].
  rewrite load_items_step by lia. unfold brine.lbind.
  destruct (L s1) as [[[b s2]|e]|]; [|reflexivity|reflexivity].
  rewrite load_items_step by lia. unfold brine.lbind.
  destruct (L s2) as [[[c s3]|e]|]; [|reflexivity|reflexivity].
  rewrite load_items_step by lia. unfold brine.lbind.
  destruct (L s3) as [[[d s4]|e]|]; [|reflexivity|reflexivity].
  rewrite load_items_zero. reflexivity.
Qed.

Lemma dump_items_loads_back (py : bool) (items : list value) :
  Forall (loads_back py) items ->
  forall s0 s1,
    brine.dump_items (brine._dump py) items s0 = Ok s1 ->
    exists chunk : bytes,
      brine.join s1 = brine.join s0 ++ chunk /\
      (length items <= length chunk)%nat /\
      forall fuelL fuelI,
        (length chunk <= fuelL)%nat -> (length items <= fuelI)%nat ->
        consumes (brine.load_items (brine._load py fuelL) fuelI (len items))
                 chunk (map_result (reload py) items).
Proof.
  induction 1 as [|v items Hv _ IH]; intros s0 s1 Hd.
  - injection Hd as <-. exists []. split; [symmetry; apply app_nil_r|].
    split; [simpl; lia|]. intros fuelL fuelI _ _ rest.
    simpl app. apply load_items_zero.
  - cbn [brine.dump_items] in Hd.
    destruct (brine._dump py v s0) as [s'|e] eqn:Ev; [|discriminate].
    cbn [rbind] in Hd.
    destruct (Hv _ _ Ev) as (c1 & J1 & L1 & C1).
    destruct (IH _ _ Hd) as (c2 & J2 & L2 & C2).
    exists (c1 ++ c2). split; [rewrite J2, J1, app_assoc; reflexivity|].
    split; [rewrite length_app; simpl; lia|].
    intros fuelL fuelI HL HI. rewrite length_app in HL.
    destruct fuelI as [|fuelI]; [simpl in HI; lia|]. simpl in HI.
    eapply consumes_ext.
    { intros s. apply load_items_step. rewrite len_cons.
      pose proof (len_nonneg items). lia. }
    cbn [map_result]. apply consumes_bind; [apply C1; lia|].
    intros a _. replace (len (v :: items) - 1) with (len items)
      by (rewrite len_cons; lia).
    rewrite <- (app_nil_r c2).
    apply consumes_bind; [apply C2; lia|].
    intros items' _. apply consumes_ret.
Qed.

Lemma consumes_tuple_of (L : brine.loader value) (fuel : nat) (l : Z)
      (c : bytes) (r : result (list value)) :
  consumes (brine.load_items L fuel l) c r ->
  consumes (tuple_of L fuel l) c (vs <- r ;; Ok (VTuple vs)).
Proof.
  intros H. unfold tuple_of. rewrite <- (app_nil_r c).
  apply consumes_bind; [exact H|]. intros vs _. apply consumes_ret.
Qed.

(** A tuple header [t :: hdr] followed by the items. *)
Lemma encodes_tuple_with (py : bool) (items : list value)
      (s0 s1 : brine.stream_t) (t : byte) (hdr : bytes)
      (h : brine.loader value -> nat -> brine.loader value) :
  immediate t = false ->
  (forall L f, dict_get bytes_eqb (brine._load_registry py L f) [t]
               = Some (h L f)) ->
  Forall (loads_back py) items ->
  brine.dump_items (brine._dump py) items (brine.append s0 (t :: hdr)) = Ok s1 ->
  (forall L f c r,
      (forall fuelI, (length items <= fuelI)%nat ->
                     consumes (brine.load_items L fuelI (len items)) c r) ->
      (length items <= f)%nat ->
      consumes (h L f) (hdr ++ c) (vs <- r ;; Ok (VTuple vs))) ->
  encodes py s0 s1 (reload_tuple (reload py) items).
Proof.
  intros Hi Hh Hall Hd Hbody.
  destruct (dump_items_loads_back py items Hall _ _ Hd) as (c & J & Hlen & C).
  exists (t :: hdr ++ c). split.
  { rewrite J, join_append, <- app_assoc. reflexivity. }
  split; [simpl; lia|].
  intros [|f] Hf; [simpl in Hf; lia|].
  simpl in Hf. rewrite length_app in Hf.
  eapply consumes_tag; [exact Hi | apply Hh |].
  unfold reload_tuple. apply Hbody; [|lia].
  intros fuelI HI. apply C; lia.
Qed.

Lemma encodes_tuple (py : bool) (items : list value) (s0 s1 : brine.stream_t) :
  Forall (loads_back py) items ->
  brine._dump_tuple (brine._dump py) items s0 = Ok s1 ->
  encodes py s0 s1 (reload_tuple (reload py) items).
Proof.
  intros Hall. unfold brine._dump_tuple, brine.tuple_header.
  destruct (len items =? 0) eqn:E0.
  { apply Z.eqb_eq in E0. destruct items; [|rewrite len_cons in E0;
      pose proof (len_nonneg items); lia].
    cbn. intros [= <-]. singleton_tag. }
  destruct (len items =? 1) eqn:E1.
  { apply Z.eqb_eq in E1. cbn [rbind]. intros Hd.
    apply (encodes_tuple_with py items s0 s1 x10 [] (fun L _ => brine._load_tup1 L));
      [reflexivity | intros; reflexivity | assumption | assumption |].
    intros L f c r Hc _. simpl app.
    eapply consumes_ext; [apply _load_tup1_loop|].
    apply consumes_tuple_of. rewrite <- E1. apply Hc. unfold len in E1. lia. }
  destruct (len items =? 2) eqn:E2.
  { apply Z.eqb_eq in E2. cbn [rbind]. intros Hd.
    apply (encodes_tuple_with py items s0 s1 x11 [] (fun L _ => brine._load_tup2 L));
      [reflexivity | intros; reflexivity | assumption | assumption |].
    intros L f c r Hc _. simpl app.
    eapply consumes_ext; [apply _load_tup2_loop|].
    apply consumes_tuple_of. rewrite <- E2. apply Hc. unfold len in E2. lia. }
  destruct (len items =? 3) eqn:E3.
  { apply Z.eqb_eq in E3. cbn [rbind]. intros Hd.
    apply (encodes_tuple_with py items s0 s1 x12 [] (fun L _ => brine._load_tup3 L));
      [reflexivity | intros; reflexivity | assumption | assumption |].
    intros L f c r Hc _. simpl app.
    eapply consumes_ext; [apply _load_tup3_loop|].
    apply consumes_tuple_of. rewrite <- E3. apply Hc. unfold len in E3. lia. }
  destruct (len items =? 4) eqn:E4.
  { apply Z.eqb_eq in E4. cbn [rbind]. intros Hd.
    apply (encodes_tuple_with py items s0 s1 x13 [] (fun L _ => brine._load_tup4 L));
      [reflexivity | intros; reflexivity | assumption | assumption |].
    intros L f c r Hc _. simpl app.
    eapply consumes_ext; [apply _load_tup4_loop|].
    apply consumes_tuple_of. rewrite <- E4. apply Hc. unfold len in E4. lia. }
  destruct (len items <? 256).
  - destruct (brine.I1_pack (len items)) as [p|e] eqn:Hp; [|discriminate].
    cbn [rbind]. intros Hd.
    apply (encodes_tuple_with py items s0 s1 x14 p brine._load_tup_l1);
      [reflexivity | intros; reflexivity | assumption | assumption |].
    intros L f c r Hc Hf.
    apply (consumes_length_field 1 (len items)); [exact Hp|].
    apply (consumes_tuple_of L f). apply Hc. assumption.
  - destruct (brine.I4_pack (len items)) as [p|e] eqn:Hp; [|discriminate].
    cbn [rbind]. intros Hd.
    apply (encodes_tuple_with py items s0 s1 x15 p brine._load_tup_l4);
      [reflexivity | intros; reflexivity | assumption | assumption |].
    intros L f c r Hc Hf.
    apply (consumes_length_field 4 (len items)); [exact Hp|].
    apply (consumes_tuple_of L f). apply Hc. assumption.
Qed.

Lemma float_pack_length (f : Float.t) : length (Float.pack f) = 8%nat.
Proof. apply be_bytes_length. Qed.

Lemma consumes_float (f : Float.t) :
  consumes brine._load_float (Float.pack f)
           (Ok (VFloat (Float.unpack (Float.pack f)))).
Proof.
  unfold brine._load_float. rewrite <- (app_nil_r (Float.pack f)) at 1.
  change (Ok (VFloat (Float.unpack (Float.pack f))))
    with (rbind (Ok (Float.pack f))
                (fun b => Ok (VFloat (Float.unpack b)))).
  apply consumes_bind.
  - apply consumes_read_n. unfold len. rewrite float_pack_length. reflexivity.
  - intros b [= <-]. unfold brine.F8_unpack.
    rewrite float_pack_length. cbn [Nat.eqb].
    intros rest. reflexivity.
Qed.

Lemma consumes_complex (re im : Float.t) :
  consumes brine._load_complex (brine.C16_pack re im)
           (Ok (VComplex (Float.unpack (Float.pack re))
                         (Float.unpack (Float.pack im)))).
Proof.
  unfold brine._load_complex, brine.C16_pack.
  set (b := Float.pack re ++ Float.pack im).
  assert (length b = 16%nat) as Hb
      by (subst b; rewrite length_app, !float_pack_length; reflexivity).
  rewrite <- (app_nil_r b) at 1.
  change (Ok (VComplex (Float.unpack (Float.pack re))
                       (Float.unpack (Float.pack im))))
    with (rbind (Ok b) (fun _ : bytes =>
            Ok (VComplex (Float.unpack (Float.pack re))
                         (Float.unpack (Float.pack im))))).
  apply consumes_bind.
  - apply consumes_read_n. unfold len. rewrite Hb. reflexivity.
  - intros b' [= <-]. unfold brine.C16_unpack. rewrite Hb. cbn [Nat.eqb].
    assert (firstn 8 b = Float.pack re) as ->.
    { subst b. rewrite firstn_app, float_pack_length, Nat.sub_diag.
      rewrite firstn_all2 by (rewrite float_pack_length; lia).
      apply app_nil_r. }
    assert (skipn 8 b = Float.pack im) as ->.
    { subst b. rewrite skipn_app, float_pack_length, Nat.sub_diag.
      rewrite skipn_all2 by (rewrite float_pack_length; lia).
      reflexivity. }
    intros rest. reflexivity.
Qed.

(** Everything [_dump] writes for a value is read back by [_load] as
    [reload] says, consuming exactly what was written. *)
Lemma dump_loads_back (py : bool) (v : value) : loads_back py v.
Proof.
  induction v using value_ind_nested; intros s0 s1 Hd; cbn [brine._dump] in Hd.
  - injection Hd as <-. singleton_tag.
  - injection Hd as <-. singleton_tag.
  - injection Hd as <-. singleton_tag.
  - destruct b; injection Hd as <-; singleton_tag.
  - apply encodes_int. assumption.
  - destruct py; [discriminate|]. unfold brine._dump_long in Hd.
    apply (encodes_int false) in Hd. cbn [reload].
    apply (encodes_wrapped false s0 s1 x09
             (fun obj => brine.lbind (brine.lift (Builtins.to_int false obj))
                           (fun n => brine.ret (VLong n)))
             (fun obj => m <- Builtins.to_int false obj ;; Ok (VLong m)));
      [reflexivity | intros; reflexivity | | exact Hd].
    intros obj. apply consumes_lift_ret.
  - injection Hd as <-. cbn [reload].
    apply (encodes_tagged py s0 x18 (Float.pack f) brine._load_float);
      [reflexivity | intros; reflexivity | apply consumes_float].
  - injection Hd as <-. cbn [reload].
    apply (encodes_tagged py s0 x1b (brine.C16_pack re im) brine._load_complex);
      [reflexivity | intros; reflexivity | apply consumes_complex].
  - apply encodes_bytes. assumption.
  - unfold brine._dump_str in Hd. cbn [reload].
    destruct (Text.utf8_encode py s) as [b|e]; [|discriminate].
    cbn [rbind] in Hd |- *. apply (encodes_bytes py) in Hd.
    apply (encodes_wrapped py s0 s1 x08
             (fun obj => brine.lift (Builtins.decode_utf8 py obj))
             (Builtins.decode_utf8 py));
      [reflexivity | intros; reflexivity | | exact Hd].
    intros obj. apply consumes_lift.
  - apply (encodes_tuple py [v1; v2; v3]) in Hd;
      [|repeat constructor; assumption].
    cbn [reload].
    apply (encodes_wrapped py s0 s1 x19
             (fun obj =>
                brine.lbind (brine.lift (Builtins.unpack3 py obj))
                  (fun x => match x with
                            | (start, stop, step) => brine.ret (VSlice start stop step)
                            end))
             (fun obj => rbind (Builtins.unpack3 py obj)
                           (fun x => match x with
                                     | (a, b, c) => Ok (VSlice a b c)
                                     end)));
      [reflexivity | intros; reflexivity | | exact Hd].
    intros obj rest. simpl app. unfold brine.lbind, brine.lift.
    destruct (Builtins.unpack3 py obj) as [[[a b] c]|e]; reflexivity.
  - apply encodes_tuple; assumption.
  - apply (encodes_tuple py items) in Hd; [|assumption].
    cbn [reload].
    apply (encodes_wrapped py s0 s1 x1a
             (fun obj => brine.lift (Builtins.frozenset py obj))
             (Builtins.frozenset py));
      [reflexivity | intros; reflexivity | | exact Hd].
    intros obj. apply consumes_lift.
  - discriminate.
Qed.

(** [load (dump v)] is [reload v], and bytes after the encoding are left
    in the buffer unread. *)
Lemma load_dump_rest (py : bool) (v : value) (data : bytes) :
  brine.dump py v = Ok data ->
  forall (fuel : nat) (rest : bytes),
    (length data <= fuel)%nat ->
    brine._load py fuel (data ++ rest) = answer (reload py v) rest.
Proof.
  unfold brine.dump. intros Hd fuel rest Hf.
  destruct (brine._dump py v []) as [s1|e] eqn:E; [|discriminate].
  injection Hd as <-.
  destruct (dump_loads_back py v _ _ E) as (chunk & J & _ & C).
  simpl in J. rewrite J in *. apply C. assumption.
Qed.

Lemma load_dump (py : bool) (v : value) (data : bytes) :
  brine.dump py v = Ok data ->
  forall rest, brine.load py (data ++ rest) = Some (reload py v).
Proof.
  intros Hd rest. unfold brine.load.
  rewrite (load_dump_rest py v data Hd) by (rewrite length_app; lia).
  unfold answer. destruct (reload py v); reflexivity.
Qed.

(** ** [load] is total and stays inside its buffer *)

Section within_facts.
Context {A B : Type}.

Lemma within_ret (n : nat) (a : A) : within n false (brine.ret a).
Proof.
  intros s _. eexists. split; [reflexivity|].
  intros a' s' [= <- <-]. exists []. split; [reflexivity | discriminate].
Qed.

Lemma within_lift (n : nat) (r : result A) : within n false (brine.lift r).
Proof.
  intros s _. destruct r as [a|e]; (eexists; split; [reflexivity|]).
  - intros a' s' [= <- <-]. exists []. split; [reflexivity | discriminate].
  - discriminate.
Qed.

Lemma within_weaken (n : nat) (b : bool) (m : brine.loader A) :
  within n b m -> within n false m.
Proof.
  intros H s Hs. destruct (H s Hs) as (r & E & Hr). exists r.
  split; [exact E|]. intros a s' Ha.
  destruct (Hr a s' Ha) as (used & -> & _).
  exists used. split; [reflexivity | discriminate].
Qed.

Lemma within_bind (n : nat) (b : bool) (m : brine.loader A)
      (k : A -> brine.loader B) :
  within n b m -> (forall a, within n false (k a)) ->
  within n b (brine.lbind m k).
Proof.
  intros Hm Hk s Hs. unfold brine.lbind.
  destruct (Hm s Hs) as (r & E & Hr). rewrite E.
  destruct r as [[a s1]|e].
  - destruct (Hr a s1 eq_refl) as (u1 & -> & Hu1).
    rewrite length_app in Hs.
    destruct (Hk a s1 ltac:(lia)) as (r2 & E2 & Hr2).
    exists r2. split; [exact E2|]. intros a2 s2 Ha2.
    destruct (Hr2 a2 s2 Ha2) as (u2 & -> & _).
    exists (u1 ++ u2). split; [apply app_assoc|].
    intros Hb Hnil. apply app_eq_nil in Hnil. destruct Hnil as [Hnil _].
    exact (Hu1 Hb Hnil).
  - eexists. split; [reflexivity | discriminate].
Qed.
End within_facts.

Lemma within_read (n : nat) (l : Z) : within n false (brine.read l).
Proof.
  intros s _. eexists. split; [reflexivity|].
  intros a s' [= <- <-]. exists (slice_to l s).
  split; [apply slice_split | discriminate].
Qed.

Lemma within_load_items (n : nat) (L : brine.loader value) :
  within n true L ->
  forall (fuel : nat) (l : Z) (s : bytes),
    (length s < fuel)%nat -> (length s <= n)%nat ->
    exists r, brine.load_items L fuel l s = Some r /\
      forall a s', r = Ok (a, s') -> exists used, s = used ++ s'.
Proof.
  intros HL. induction fuel as [|fuel IH]; intros l s Hf Hn; [lia|].
  cbn [brine.load_items]. destruct (l <=? 0).
  { eexists. split; [reflexivity|]. intros a s' [= <- <-].
    exists []. reflexivity. }
  unfold brine.lbind at 1. destruct (HL s Hn) as (r & E & Hr). rewrite E.
  destruct r as [[item s1]|e]; [|eexists; split; [reflexivity | discriminate]].
  destruct (Hr item s1 eq_refl) as (u1 & -> & Hu1).
  specialize (Hu1 eq_refl). rewrite length_app in Hf, Hn.
  assert (0 < length u1)%nat by (destruct u1; [congruence | simpl; lia]).
  destruct (IH (l - 1) s1 ltac:(lia) ltac:(lia)) as (r2 & E2 & Hr2).
  unfold brine.lbind. rewrite E2.
  destruct r2 as [[items s2]|e]; [|eexists; split; [reflexivity | discriminate]].
  destruct (Hr2 items s2 eq_refl) as (u2 & ->).
  eexists. split; [reflexivity|]. intros a s' [= <- <-].
  exists (u1 ++ u2). apply app_assoc.
Qed.

Lemma within_items (n : nat) (L : brine.loader value) (fuel : nat) (l : Z) :
  within n true L -> (n < fuel)%nat ->
  within n false (brine.load_items L fuel l).
Proof.
  intros HL Hf s Hs.
  destruct (within_load_items n L HL fuel l s ltac:(lia) Hs) as (r & E & Hr).
  exists r. split; [exact E|]. intros a s' Ha.
  destruct (Hr a s' Ha) as (used & ->). exists used.
  split; [reflexivity | discriminate].
Qed.

Ltac within_step :=
  first [ apply within_ret | apply within_lift | apply within_read
        | assumption
        | apply within_weaken with (b := true); assumption
        | apply within_items; assumption
        | apply within_bind; [|intros ?] ].

Ltac within_auto :=
  repeat (within_step || match goal with
                         | |- within _ _ (match ?x with _ => _ end) => destruct x
                         | |- within _ _ (if ?x then _ else _) => destruct x
                         end).

Lemma within_read_str (py : bool) (n : nat) (l : Z) :
  within n false (brine.read_str py l).
Proof. unfold brine.read_str. within_auto. Qed.

(** Every registered handler answers and stays inside the buffer,
    provided the callback does and the fuel exceeds the buffer. *)
Lemma within_registry (py : bool) (n : nat) (L : brine.loader value)
      (fuel : nat) (tag : bytes) (h : brine.loader value) :
  within n true L -> (n < fuel)%nat ->
  dict_get bytes_eqb (brine._load_registry py L fuel) tag = Some h ->
  within n false h.
Proof.
  intros HL Hf. unfold dict_get, brine._load_registry.
  cbn [find fst snd].
  repeat match goal with
         | |- context [if bytes_eqb ?a tag then _ else _] =>
             destruct (bytes_eqb a tag);
             [ intros [= <-];
               unfold brine._load_none, brine._load_nonimp, brine._load_elipsis,
                 brine._load_true, brine._load_false, brine._load_empty_tuple,
                 brine._load_empty_str, brine._load_long, brine._load_float,
                 brine._load_complex, brine._load_str1, brine._load_str2,
                 brine._load_str3, brine._load_str4, brine._load_str_l1,
                 brine._load_str_l4, brine._load_unicode, brine._load_tup1,
                 brine._load_tup2, brine._load_tup3, brine._load_tup4,
                 brine._load_tup_l1, brine._load_tup_l4, brine._load_slice,
                 brine._load_frozenset, brine._load_int_l1, brine._load_int_l4;
               pose proof (within_read_str py n) as Hstr;
               repeat first [ apply Hstr | within_step
                            | match goal with
                              | |- within _ _ (match ?x with _ => _ end) =>
                                  destruct x
                              end ]
             | ]
         end.
  discriminate.
Qed.

Lemma within_load (py : bool) (f : nat) : within f true (brine._load py (S f)).
Proof.
  induction f as [|f IH]; intros s Hs.
  - destruct s; [|simpl in Hs; lia]. rewrite _load_nil.
    eexists. split; [reflexivity | discriminate].
  - destruct s as [|t rest].
    { rewrite _load_nil. eexists. split; [reflexivity | discriminate]. }
    simpl in Hs. rewrite _load_cons.
    destruct (dict_get bytes_eqb brine.IMM_INTS_LOADER [t]) as [n|].
    { eexists. split; [reflexivity|]. intros a s' [= <- <-].
      exists [t]. split; [reflexivity | discriminate]. }
    destruct (dict_get bytes_eqb _ [t]) as [h|] eqn:Eh;
      [|eexists; split; [reflexivity | discriminate]].
    apply (within_registry py f) in Eh; [|exact IH | lia].
    destruct (Eh rest ltac:(lia)) as (r & E & Hr).
    exists r. split; [exact E|]. intros a s' Ha.
    destruct (Hr a s' Ha) as (used & -> & _).
    exists (t :: used). split; [reflexivity | discriminate].
Qed.

(** [load] always answers: the fuel it gives [_load] is enough. *)
Lemma load_total (py : bool) (data : bytes) :
  exists r, brine.load py data = Some r.
Proof.
  unfold brine.load.
  destruct (within_load py (length data) data (le_n _)) as (r & E & _).
  rewrite E. destruct r as [[obj rest]|e]; eexists; reflexivity.
Qed.

(** What [load] has not consumed is a proper suffix of the buffer: nothing
    is read beyond its end. *)
Lemma load_within_buffer (py : bool) (data : bytes) (obj : value) (rest : bytes) :
  brine._load py (S (length data)) data = Some (Ok (obj, rest)) ->
  exists used, data = used ++ rest /\ used <> [].
Proof.
  intros E.
  destruct (within_load py (length data) data (le_n _)) as (r & E' & Hr).
  rewrite E in E'. injection E' as <-.
  destruct (Hr obj rest eq_refl) as (used & Hu & Hn).
  exists used. split; [exact Hu | exact (Hn eq_refl)].
Qed.

(** ** Trailing bytes *)

(** C10.  Decoding consumes exactly one value's encoding and ignores what
    follows: for every dumpable value [v] that [dump] encodes as [data] and
    every suffix [s], [load (data ++ s)] answers, and answers what
    [load data] answers; when the answer is a value, the bytes left in the
    buffer are exactly [s] - the trailing bytes are not read and cause no
    error. *)
Theorem load_ignores_trailing_bytes (is_py3k : bool) (v : value) (data : bytes) :
  brine.dumpable is_py3k v = true ->
  brine.dump is_py3k v = Ok data ->
  forall s : bytes,
    brine.load is_py3k (data ++ s) = brine.load is_py3k data /\
    (exists r, brine.load is_py3k data = Some r) /\
    (forall obj rest,
        brine._load is_py3k (S (length (data ++ s))) (data ++ s)
        = Some (Ok (obj, rest)) -> rest = s).
Proof.
  intros _ Hd s. split; [|split].
  - rewrite (load_dump is_py3k v data Hd s).
    rewrite <- (app_nil_r data) at 1. symmetry.
    apply (load_dump is_py3k v data Hd []).
  - apply load_total.
  - intros obj rest E.
    rewrite (load_dump_rest is_py3k v data Hd) in E
      by (rewrite length_app; lia).
    unfold answer in E. destruct (reload is_py3k v); congruence.
Qed.

Lemma load_ignores_trailing_bytes_witness :
  brine.load true ([x12; x51; x52; x53] ++ [xff; x07])
  = brine.load true [x12; x51; x52; x53] /\
  brine.load true [x12; x51; x52; x53]
  = Some (Ok (VTuple [VInt 1; VInt 2; VInt 3])).
Proof.
  split.
  - exact (proj1 (load_ignores_trailing_bytes true
                    (VTuple [VInt 1; VInt 2; VInt 3]) [x12; x51; x52; x53]
                    eq_refl eq_refl [xff; x07])).
  - reflexivity.
Defined.

(** ** Malformed input *)

Lemma load_cons_registered (py : bool) (t : byte) (rest : bytes)
      (h : brine.loader value) :
  immediate t = false ->
  (forall L f, dict_get bytes_eqb (brine._load_registry py L f) [t] = Some h) ->
  brine._load py (S (length (t :: rest))) (t :: rest) = h rest.
Proof.
  intros Hi Hh. rewrite _load_cons, IMM_INTS_LOADER_miss, Hh; [reflexivity|].
  unfold immediate in Hi. apply andb_false_iff in Hi.
  destruct Hi as [Hi|Hi]; apply Z.leb_gt in Hi; lia.
Qed.

Lemma load_of (py : bool) (data : bytes) (r : result (value * bytes)) :
  brine._load py (S (length data)) data = Some r ->
  brine.load py data = Some (match r with
                             | Ok (obj, _) => Ok obj
                             | Raise e => Raise e
                             end).
Proof.
  intros E. unfold brine.load. rewrite E. destruct r as [[obj rest]|e]; reflexivity.
Qed.

(** C2, as the code has it.  [load] raises [TypeError] on an empty buffer
    and on a first byte that is neither a registered tag nor an immediate
    integer; it raises [struct.error] when the buffer ends inside the
    fixed-size payload of a float or a complex, or inside a length field;
    it always answers, and what it leaves unread is a proper suffix of the
    buffer, so nothing is read past the end.  A length prefix that exceeds
    what is left is not detected: for a byte string [load] returns the
    bytes that are there (as ASCII text when [is_py3k]). *)
Theorem load_malformed (is_py3k : bool) :
  brine.load is_py3k [] = Some (raise TypeError) /\
  (forall t rest, unrecognized t = true ->
     brine.load is_py3k (t :: rest) = Some (raise TypeError)) /\
  (forall p, (length p < 8)%nat ->
     brine.load is_py3k (brine.TAG_FLOAT ++ p) = Some (raise struct_error)) /\
  (forall p, (length p < 16)%nat ->
     brine.load is_py3k (brine.TAG_COMPLEX ++ p) = Some (raise struct_error)) /\
  (forall tag, In tag [brine.TAG_STR_L1; brine.TAG_TUP_L1; brine.TAG_INT_L1] ->
     brine.load is_py3k tag = Some (raise struct_error)) /\
  (forall tag p, In tag [brine.TAG_STR_L4; brine.TAG_TUP_L4; brine.TAG_INT_L4] ->
     (length p < 4)%nat ->
     brine.load is_py3k (tag ++ p) = Some (raise struct_error)) /\
  (forall data, exists r, brine.load is_py3k data = Some r) /\
  (forall data obj rest,
     brine._load is_py3k (S (length data)) data = Some (Ok (obj, rest)) ->
     exists used, data = used ++ rest /\ used <> []) /\
  (forall l payload, 0 <= l < 256 -> len payload <= l ->
     brine.load is_py3k (brine.TAG_STR_L1 ++ [chr l] ++ payload)
     = Some (str_of_bytes is_py3k payload)).
Proof.
  split; [reflexivity|].
  split.
  { intros t rest Hu. unfold unrecognized in Hu.
    apply andb_true_iff in Hu. destruct Hu as [Hi Hr].
    apply negb_true_iff in Hi, Hr.
    apply (load_of is_py3k (t :: rest) (Raise (Exn TypeError None))).
    rewrite _load_cons, IMM_INTS_LOADER_miss, registry_miss; try assumption;
      [reflexivity|].
    unfold immediate in Hi. apply andb_false_iff in Hi.
    destruct Hi as [Hi|Hi]; apply Z.leb_gt in Hi; lia. }
  split.
  { intros p Hp.
    apply (load_of is_py3k (brine.TAG_FLOAT ++ p) (Raise (Exn struct_error None))).
    simpl app.
    rewrite (load_cons_registered is_py3k x18 p brine._load_float)
      by (reflexivity || (intros; reflexivity)).
    unfold brine._load_float, brine.lbind, brine.read.
    destruct (slice_to_short 8 p ltac:(unfold len; lia)) as [-> ->].
    unfold brine.lift, brine.F8_unpack.
    destruct (Nat.eqb_spec (length p) 8); [lia | reflexivity]. }
  split.
  { intros p Hp.
    apply (load_of is_py3k (brine.TAG_COMPLEX ++ p) (Raise (Exn struct_error None))).
    simpl app.
    rewrite (load_cons_registered is_py3k x1b p brine._load_complex)
      by (reflexivity || (intros; reflexivity)).
    unfold brine._load_complex, brine.lbind, brine.read.
    destruct (slice_to_short 16 p ltac:(unfold len; lia)) as [-> ->].
    unfold brine.lift, brine.C16_unpack.
    destruct (Nat.eqb_spec (length p) 16); [lia | reflexivity]. }
  split.
  { intros tag [<-|[<-|[<-|[]]]]; destruct is_py3k; reflexivity. }
  split.
  { intros tag p [<-|[<-|[<-|[]]]] Hp;
      destruct p as [|a [|b [|c [|d p]]]]; try (simpl in Hp; lia);
      destruct is_py3k; reflexivity. }
  split; [apply load_total|].
  split; [apply load_within_buffer|].
  intros l payload Hl Hp. unfold brine.load. simpl app.
  rewrite (load_cons_registered is_py3k x0e (chr l :: payload)
             (brine._load_str_l1 is_py3k))
    by (reflexivity || (intros; reflexivity)).
  unfold brine._load_str_l1, brine.lbind at 1. unfold brine.read at 1.
  destruct (slice_1_cons (chr l) payload) as [-> ->].
  unfold brine.lbind at 1. unfold brine.lift at 1.
  unfold brine.I1_unpack, Struct.unpack_uint, Struct.be_int.
  cbn [length Nat.eqb fold_left]. rewrite ord_chr by lia.
  replace (0 * 256 + l) with l by lia.
  unfold brine.read_str, brine.lbind, brine.read.
  destruct (slice_to_short l payload Hp) as [-> ->].
  unfold str_of_bytes. destruct is_py3k; [|reflexivity].
  destruct (Text.ascii_decode payload); reflexivity.
Qed.

Lemma load_malformed_witness :
  brine.load false [xff; x00] = Some (raise TypeError) /\
  brine.load false [x18; x40; x32] = Some (raise struct_error) /\
  brine.load false [x1b] = Some (raise struct_error) /\
  brine.load false [x14] = Some (raise struct_error) /\
  brine.load false [x15; x00; x00] = Some (raise struct_error) /\
  (exists used, [x0e; x05; x61] = used ++ [] /\ used <> []) /\
  brine.load false [x0e; x05; x61] = Some (Ok (VBytes [x61])).
Proof.
  destruct (load_malformed false)
    as (_ & Htag & Hfloat & Hcomplex & Hl1 & Hl4 & _ & Hbuf & Hshort).
  split; [exact (Htag xff [x00] eq_refl)|].
  split; [exact (Hfloat [x40; x32] ltac:(simpl; lia))|].
  split; [exact (Hcomplex [] ltac:(simpl; lia))|].
  split; [exact (Hl1 brine.TAG_TUP_L1 ltac:(simpl; tauto))|].
  split; [exact (Hl4 brine.TAG_TUP_L4 [x00; x00] ltac:(simpl; tauto)
                     ltac:(simpl; lia))|].
  split; [exact (Hbuf [x0e; x05; x61] (VBytes [x61]) [] eq_refl)|].
  exact (Hshort 5 [x61] ltac:(lia) ltac:(vm_compute; discriminate)).
Defined.

(** C2, as stated, fails: a buffer whose length prefix (5, then 3)
    exceeds the bytes that remain is loaded without any error, as the
    shorter byte string, and as the integer 9 where [dump 900] was cut. *)
Lemma load_accepts_truncated_payload :
  brine.load true [x0e; x05; x61] = Some (Ok (VUnicode [0x61])) /\
  brine.load false [x0e; x05; x61] = Some (Ok (VBytes [x61])) /\
  brine.dump true (VInt 900) = Ok [x16; x03; x39; x30; x30] /\
  brine.load true [x16; x03; x39] = Some (Ok (VInt 9)).
Proof. repeat split; vm_compute; reflexivity. Qed.

(** ** Decimal literals: [int(str(n))] is [n] *)

Lemma ord_digit_byte (d : Z) : 0 <= d < 10 -> ord (IntLit.digit_byte d) = 0x30 + d.
Proof. intros H. unfold IntLit.digit_byte. apply ord_chr. lia. Qed.

Lemma pos_digits_value (fuel : nat) :
  forall (n : Z) (acc : bytes),
    0 <= n < 10 ^ Z.of_nat fuel ->
    fold_left digit_step (map ord (IntLit.pos_digits fuel n acc)) 0
    = fold_left digit_step (map ord acc) n.
Proof.
  induction fuel as [|fuel IH]; intros n acc Hn.
  - simpl in Hn. assert (n = 0) as -> by lia. reflexivity.
  - cbn [IntLit.pos_digits]. destruct (Z.ltb_spec n 10) as [H|H].
    + cbn [map fold_left]. rewrite ord_digit_byte by lia.
      unfold digit_step at 2. f_equal. lia.
    + rewrite Nat2Z.inj_succ, Z.pow_succ_r in Hn by lia.
      rewrite IH by (split; [apply Z.div_pos; lia
                            | apply Z.div_lt_upper_bound; lia]).
      cbn [map fold_left]. rewrite ord_digit_byte by (apply Z.mod_pos_bound; lia).
      unfold digit_step at 2. f_equal.
      pose proof (Z.div_mod n 10 ltac:(lia)). lia.
Qed.

Lemma pos_digits_digits (fuel : nat) :
  forall (n : Z) (acc : bytes),
    0 <= n ->
    Forall (fun c => IntLit.is_digit c = true) (map ord acc) ->
    Forall (fun c => IntLit.is_digit c = true)
           (map ord (IntLit.pos_digits fuel n acc)).
Proof.
  assert (forall d, 0 <= d < 10 ->
                    IntLit.is_digit (ord (IntLit.digit_byte d)) = true) as D.
  { intros d Hd. rewrite ord_digit_byte by lia. unfold IntLit.is_digit.
    apply andb_true_iff. split; apply Z.leb_le; lia. }
  induction fuel as [|fuel IH]; intros n acc Hn Hacc; [exact Hacc|].
  cbn [IntLit.pos_digits]. destruct (Z.ltb_spec n 10) as [H|H].
  - cbn [map]. constructor; [apply D; lia | exact Hacc].
  - apply IH; [apply Z.div_pos; lia|].
    cbn [map]. constructor; [apply D; apply Z.mod_pos_bound; lia | exact Hacc].
Qed.

Lemma pos_digits_nonempty (fuel : nat) (n : Z) (acc : bytes) :
  IntLit.pos_digits (S fuel) n acc <> [].
Proof.
  revert n acc. induction fuel as [|fuel IH]; intros n acc.
  - cbn. destruct (n <? 10); discriminate.
  - cbn [IntLit.pos_digits]. destruct (n <? 10); [discriminate|].
    apply IH.
Qed.

Lemma digits_value_all (underscores : bool) (s : list Z) :
  Forall (fun c => IntLit.is_digit c = true) s ->
  forall (after : bool) (acc : Z),
    s <> [] \/ after = true ->
    IntLit.digits_value underscores after acc s = Some (fold_left digit_step s acc).
Proof.
  induction 1 as [|c s Hc _ IH]; intros after acc Hne.
  - destruct Hne as [Hne| ->]; [congruence | reflexivity].
  - cbn [IntLit.digits_value fold_left]. rewrite Hc.
    apply IH. right. reflexivity.
Qed.

Lemma lstrip_no_space (s : list Z) :
  match s with
  | c :: _ => IntLit.is_space c = false
  | [] => True
  end -> IntLit.lstrip s = s.
Proof. destruct s as [|c s]; [reflexivity|]. cbn. intros ->. reflexivity. Qed.

Lemma digit_not_space (c : Z) : IntLit.is_digit c = true -> IntLit.is_space c = false.
Proof.
  unfold IntLit.is_digit, IntLit.is_space. intros H.
  apply andb_true_iff in H. destruct H as [H1 H2].
  apply Z.leb_le in H1, H2.
  apply orb_false_iff. split; [apply Z.eqb_neq; lia|].
  apply andb_false_iff. right. apply Z.leb_gt. lia.
Qed.

Lemma strip_literal (sign : list Z) (ds : list Z) :
  Forall (fun c => IntLit.is_digit c = true) ds -> ds <> [] ->
  sign = [] \/ sign = [0x2d] ->
  IntLit.strip (sign ++ ds) = sign ++ ds.
Proof.
  intros Hds Hne Hsign. unfold IntLit.strip.
  assert (IntLit.lstrip (sign ++ ds) = sign ++ ds) as ->.
  { apply lstrip_no_space. destruct Hsign as [-> | ->].
    - destruct Hds; [congruence|]. simpl. apply digit_not_space. assumption.
    - reflexivity. }
  assert (IntLit.lstrip (rev (sign ++ ds)) = rev (sign ++ ds)) as ->.
  { apply lstrip_no_space. rewrite rev_app_distr.
    destruct ds as [|d ds] using rev_ind; [congruence|].
    rewrite rev_app_distr. cbn.
    apply Forall_app in Hds. destruct Hds as [_ Hd].
    apply Forall_cons_iff in Hd. apply digit_not_space. tauto. }
  apply rev_involutive.
Qed.

Lemma log2_fuel (n : Z) : 0 <= n -> n < 10 ^ Z.of_nat (S (Z.to_nat (Z.log2 n))).
Proof.
  intros Hn. destruct (Z.eq_dec n 0) as [-> | Hz]; [reflexivity|].
  pose proof (Z.log2_spec n ltac:(lia)) as [_ H].
  pose proof (Z.log2_nonneg n).
  rewrite Nat2Z.inj_succ, Z2Nat.id by lia.
  eapply Z.lt_le_trans; [exact H|].
  apply Z.pow_le_mono_l. lia.
Qed.

(** Reading back the decimal text of an integer gives the integer. *)
Lemma parse_str (underscores : bool) (n : Z) :
  IntLit.parse underscores (map ord (IntLit.str n)) = Ok n.
Proof.
  unfold IntLit.str.
  set (fuel := Z.to_nat (Z.log2 (Z.abs n))).
  set (ds := IntLit.pos_digits (S fuel) (Z.abs n) []).
  assert (Forall (fun c => IntLit.is_digit c = true) (map ord ds)) as Hds
      by (apply pos_digits_digits; [lia | constructor]).
  assert (map ord ds <> []) as Hne.
  { intros E. apply map_eq_nil in E. exact (pos_digits_nonempty _ _ _ E). }
  assert (fold_left digit_step (map ord ds) 0 = Z.abs n) as Hval.
  { unfold ds. rewrite pos_digits_value; [reflexivity|].
    split; [lia | apply log2_fuel; lia]. }
  unfold IntLit.parse. destruct (Z.ltb_spec n 0) as [Hneg|Hpos].
  - change (map ord (x2d :: ds)) with ([0x2d] ++ map ord ds).
    rewrite strip_literal by (auto; right; reflexivity).
    cbn [app]. rewrite Z.eqb_refl.
    rewrite digits_value_all by (auto; left; assumption).
    rewrite Hval. f_equal. lia.
  - change (map ord ds) with ([] ++ map ord ds).
    rewrite strip_literal by (auto; left; reflexivity).
    cbn [app]. destruct (map ord ds) as [|c r] eqn:E; [congruence|].
    apply Forall_cons_iff in Hds. destruct Hds as [Hc Hr].
    assert (IntLit.is_digit c = true) as Hc' by exact Hc.
    unfold IntLit.is_digit in Hc. apply andb_true_iff in Hc.
    destruct Hc as [Hc1 Hc2]. apply Z.leb_le in Hc1, Hc2.
    destruct (Z.eqb_spec c 0x2d); [lia|].
    destruct (Z.eqb_spec c 0x2b); [lia|].
    rewrite digits_value_all
      by (try (constructor; assumption); left; discriminate).
    rewrite Hval. f_equal. lia.
Qed.

(** ** UTF-8: decoding what was encoded *)

Ltac dlia := Z.to_euclidean_division_equations; lia.

Lemma utf8_decode_encode_cp (strict : bool) (cp : Z) (rest : bytes) :
  code_point cp = true ->
  strict && Text.is_surrogate cp = false ->
  Text.utf8_decode strict (Text.encode_cp cp ++ rest)
  = (s <- Text.utf8_decode strict rest ;; Ok (cp :: s)).
Proof.
  unfold code_point. intros Hcp Hs.
  apply andb_true_iff in Hcp. destruct Hcp as [H0 H1].
  apply Z.leb_le in H0. apply Z.ltb_lt in H1.
  unfold Text.encode_cp.
  destruct (Z.ltb_spec cp 0x80) as [A|A].
  { cbn [app Text.utf8_decode]. rewrite ord_chr by dlia.
    destruct (Z.ltb_spec cp 0x80); [reflexivity | dlia]. }
  destruct (Z.ltb_spec cp 0x800) as [B|B].
  { cbn [app Text.utf8_decode]. unfold Text.is_cont, Text.low6.
    rewrite !ord_chr by dlia.
    destruct (Z.ltb_spec (0xC0 + cp / 64) 0x80); [dlia|].
    destruct (Z.leb_spec 0xC2 (0xC0 + cp / 64)); [|dlia].
    destruct (Z.ltb_spec (0xC0 + cp / 64) 0xE0); [|dlia].
    destruct (Z.leb_spec 0x80 (0x80 + cp mod 64)); [|dlia].
    destruct (Z.ltb_spec (0x80 + cp mod 64) 0xC0); [|dlia].
    cbn [andb].
    replace ((0xC0 + cp / 64 - 0xC0) * 64 + (0x80 + cp mod 64 - 0x80)) with cp
      by dlia.
    reflexivity. }
  destruct (Z.ltb_spec cp 0x10000) as [C|C].
  { cbn [app Text.utf8_decode]. unfold Text.is_cont, Text.low6.
    rewrite !ord_chr by dlia.
    destruct (Z.ltb_spec (0xE0 + cp / 4096) 0x80); [dlia|].
    destruct (Z.leb_spec 0xC2 (0xE0 + cp / 4096)); [|dlia].
    destruct (Z.ltb_spec (0xE0 + cp / 4096) 0xE0); [dlia|].
    destruct (Z.leb_spec 0xE0 (0xE0 + cp / 4096)); [|dlia].
    destruct (Z.ltb_spec (0xE0 + cp / 4096) 0xF0); [|dlia].
    destruct (Z.leb_spec 0x80 (0x80 + (cp / 64) mod 64)); [|dlia].
    destruct (Z.ltb_spec (0x80 + (cp / 64) mod 64) 0xC0); [|dlia].
    destruct (Z.leb_spec 0x80 (0x80 + cp mod 64)); [|dlia].
    destruct (Z.ltb_spec (0x80 + cp mod 64) 0xC0); [|dlia].
    cbn [andb].
    replace ((0xE0 + cp / 4096 - 0xE0) * 4096
             + (0x80 + (cp / 64) mod 64 - 0x80) * 64
             + (0x80 + cp mod 64 - 0x80)) with cp by dlia.
    destruct (Z.leb_spec 0x800 cp); [|dlia].
    rewrite Hs. reflexivity. }
  cbn [app Text.utf8_decode]. unfold Text.is_cont, Text.low6.
  rewrite !ord_chr by dlia.
  destruct (Z.ltb_spec (0xF0 + cp / 262144) 0x80); [dlia|].
  destruct (Z.leb_spec 0xC2 (0xF0 + cp / 262144)); [|dlia].
  destruct (Z.ltb_spec (0xF0 + cp / 262144) 0xE0); [dlia|].
  destruct (Z.leb_spec 0xE0 (0xF0 + cp / 262144)); [|dlia].
  destruct (Z.ltb_spec (0xF0 + cp / 262144) 0xF0); [dlia|].
  destruct (Z.leb_spec 0xF0 (0xF0 + cp / 262144)); [|dlia].
  destruct (Z.ltb_spec (0xF0 + cp / 262144) 0xF5); [|dlia].
  destruct (Z.leb_spec 0x80 (0x80 + (cp / 4096) mod 64)); [|dlia].
  destruct (Z.ltb_spec (0x80 + (cp / 4096) mod 64) 0xC0); [|dlia].
  destruct (Z.leb_spec 0x80 (0x80 + (cp / 64) mod 64)); [|dlia].
  destruct (Z.ltb_spec (0x80 + (cp / 64) mod 64) 0xC0); [|dlia].
  destruct (Z.leb_spec 0x80 (0x80 + cp mod 64)); [|dlia].
  destruct (Z.ltb_spec (0x80 + cp mod 64) 0xC0); [|dlia].
  cbn [andb].
  replace ((0xF0 + cp / 262144 - 0xF0) * 262144
           + (0x80 + (cp / 4096) mod 64 - 0x80) * 4096
           + (0x80 + (cp / 64) mod 64 - 0x80) * 64
           + (0x80 + cp mod 64 - 0x80)) with cp by dlia.
  destruct (Z.leb_spec 0x10000 cp); [|dlia].
  destruct (Z.ltb_spec cp 0x110000); [|dlia].
  reflexivity.
Qed.

Lemma utf8_decode_encode (strict : bool) (s : Text.t) :
  forallb code_point s = true ->
  forall b, Text.utf8_encode strict s = Ok b ->
            Text.utf8_decode strict b = Ok s.
Proof.
  induction s as [|cp s IH]; intros Hs b.
  - intros [= <-]. reflexivity.
  - cbn [forallb] in Hs. apply andb_true_iff in Hs. destruct Hs as [Hcp Hs].
    cbn [Text.utf8_encode].
    destruct (strict && Text.is_surrogate cp) eqn:E; [discriminate|].
    destruct (Text.utf8_encode strict s) as [r|e]; [|discriminate].
    cbn [rbind]. intros [= <-].
    rewrite utf8_decode_encode_cp by assumption.
    rewrite (IH Hs r eq_refl). reflexivity.
Qed.

(** ** Round trip *)

Lemma utf8_encode_nonempty (strict : bool) (s : Text.t) (b : bytes) :
  s <> [] -> Text.utf8_encode strict s = Ok b -> b <> [].
Proof.
  destruct s as [|cp s]; [congruence|]. intros _. cbn [Text.utf8_encode].
  destruct (strict && Text.is_surrogate cp); [discriminate|].
  destruct (Text.utf8_encode strict s) as [r|e]; [|discriminate].
  cbn [rbind]. intros [= <-]. unfold Text.encode_cp.
  destruct (cp <? 0x80); [discriminate|].
  destruct (cp <? 0x800); [discriminate|].
  destruct (cp <? 0x10000); discriminate.
Qed.

Lemma len_zero_iff {A : Type} (l : list A) : (len l =? 0) = true <-> l = [].
Proof.
  rewrite Z.eqb_eq. destruct l; [tauto|]. rewrite len_cons.
  pose proof (len_nonneg l). split; [lia | discriminate].
Qed.

Lemma reload_bytes_nonempty (py : bool) (b : bytes) :
  b <> [] -> reload_bytes py b = str_of_bytes py b.
Proof.
  intros H. unfold reload_bytes.
  destruct (len b =? 0) eqn:E; [|reflexivity].
  apply len_zero_iff in E. contradiction.
Qed.

Lemma set_of_distinct (py : bool) (items : list value) :
  forall seen, distinct py seen items = true ->
               Builtins.set_of py seen items = seen ++ items.
Proof.
  induction items as [|x items IH]; intros seen H.
  - symmetry. apply app_nil_r.
  - cbn [distinct] in H. apply andb_true_iff in H. destruct H as [H1 H2].
    apply negb_true_iff in H1. cbn [Builtins.set_of]. rewrite H1.
    rewrite (IH _ H2), <- app_assoc. reflexivity.
Qed.

Lemma float_unpack_pack (f : Float.t) :
  (0 <=? f) && (f <? 2 ^ 64) = true -> Float.unpack (Float.pack f) = f.
Proof.
  intros H. apply andb_true_iff in H. destruct H as [H0 H1].
  apply Z.leb_le in H0. apply Z.ltb_lt in H1.
  unfold Float.unpack, Float.pack. apply be_int_be_bytes.
  change (256 ^ Z.of_nat 8) with (2 ^ 64). lia.
Qed.

Lemma reload_int_exact (py : bool) (n : Z) : reload_int py n = Ok (VInt n).
Proof.
  unfold reload_int. destruct (dict_get Z.eqb brine.IMM_INTS n); [reflexivity|].
  cbn [Builtins.to_int]. rewrite parse_str. reflexivity.
Qed.

Lemma reload_items_exact (py : bool) (items : list value) :
  Forall (round_trips py) items ->
  forallb (well_formed py) items = true ->
  (py = true -> forallb stringless items = true) ->
  forall s0 s1, brine._dump_tuple (brine._dump py) items s0 = Ok s1 ->
                reload_tuple (reload py) items = Ok (VTuple items).
Proof.
  intros Hall Hwf Hsl s0 s1. unfold brine._dump_tuple, reload_tuple.
  destruct (brine.tuple_header (len items)) as [h|e]; [|discriminate].
  cbn [rbind]. generalize (brine.append s0 h). intros s Hd.
  enough (map_result (reload py) items = Ok items) as -> by reflexivity.
  revert s Hd. induction Hall as [|v items Hv _ IH]; intros s Hd; [reflexivity|].
  cbn [forallb] in Hwf. apply andb_true_iff in Hwf. destruct Hwf as [Hw1 Hw2].
  assert (py = true -> stringless v = true /\ forallb stringless items = true)
    as Hsl'.
  { intros E. specialize (Hsl E). cbn [forallb] in Hsl.
    apply andb_true_iff in Hsl. exact Hsl. }
  cbn [brine.dump_items] in Hd.
  destruct (brine._dump py v s) as [s'|e] eqn:Ev; [|discriminate].
  cbn [rbind] in Hd. cbn [map_result].
  rewrite (Hv Hw1 (fun E => proj1 (Hsl' E)) _ _ Ev). cbn [rbind].
  rewrite (IH Hw2 (fun E => proj2 (Hsl' E)) _ Hd). reflexivity.
Qed.

Lemma reload_exact (py : bool) (v : value) : round_trips py v.
Proof.
  induction v using value_ind_nested; intros Hwf Hsl s0 s1 Hd;
    cbn [reload]; try reflexivity.
  - apply reload_int_exact.
  - cbn [brine._dump] in Hd. destruct py; [discriminate|].
    rewrite reload_int_exact. reflexivity.
  - cbn [well_formed] in Hwf. rewrite float_unpack_pack by assumption.
    reflexivity.
  - cbn [well_formed] in Hwf. apply andb_true_iff in Hwf.
    destruct Hwf as [Hre Him].
    rewrite !float_unpack_pack by assumption. reflexivity.
  - unfold reload_bytes, str_of_bytes. destruct b as [|x b]; [reflexivity|].
    destruct py; [specialize (Hsl eq_refl); discriminate|].
    rewrite len_cons. destruct (Z.eqb_spec (1 + len b) 0); [|reflexivity].
    pose proof (len_nonneg b). lia.
  - cbn [brine._dump] in Hd. unfold brine._dump_str in Hd.
    destruct (Text.utf8_encode py s) as [b|e] eqn:Eb; [|discriminate].
    cbn [rbind]. cbn [well_formed] in Hwf.
    pose proof (utf8_decode_encode py s Hwf b Eb) as Hdec.
    unfold reload_bytes, str_of_bytes.
    destruct (len b =? 0) eqn:E0.
    + apply len_zero_iff in E0. subst b. cbn [rbind Builtins.decode_utf8].
      rewrite Hdec. reflexivity.
    + destruct py.
      * specialize (Hsl eq_refl). cbn [stringless] in Hsl.
        destruct s; [|discriminate]. injection Eb as <-. discriminate.
      * cbn [rbind Builtins.decode_utf8]. rewrite Hdec. reflexivity.
  - cbn [brine._dump] in Hd. cbn [well_formed] in Hwf.
    rewrite (reload_items_exact py [v1; v2; v3]) with (s0 := brine.append s0 brine.TAG_SLICE) (s1 := s1).
    + reflexivity.
    + repeat constructor; assumption.
    + cbn [forallb]. rewrite andb_true_r, andb_assoc. exact Hwf.
    + intros E. specialize (Hsl E). cbn [stringless] in Hsl.
      cbn [forallb]. rewrite andb_true_r, andb_assoc. exact Hsl.
    + exact Hd.
  - cbn [brine._dump] in Hd. cbn [well_formed] in Hwf.
    eapply reload_items_exact; eauto.
  - cbn [brine._dump] in Hd. cbn [well_formed] in Hwf.
    apply andb_true_iff in Hwf. destruct Hwf as [Hwf Hdist].
    apply andb_true_iff in Hwf. destruct Hwf as [Hwf Hhash].
    rewrite (reload_items_exact py items) with (s0 := brine.append s0 brine.TAG_FSET) (s1 := s1);
      try assumption.
    cbn [rbind]. unfold Builtins.frozenset. cbn [Builtins.iterate rbind].
    rewrite Hhash, set_of_distinct by assumption. reflexivity.
  - discriminate.
Qed.

(** X1.  Where the round trip does hold: under Python 2 for every value that
    [dump] encodes, under Python 3 for those that hold no byte string and
    no text but empty ones.  There [load (dump v)] is [v] itself, a
    [frozenset] coming back with the very elements that were dumped. *)
Lemma round_trip (py : bool) (v : value) (data : bytes) :
  well_formed py v = true ->
  (py = true -> stringless v = true) ->
  brine.dump py v = Ok data ->
  brine.load py data = Some (Ok v).
Proof.
  intros Hwf Hsl Hd.
  pose proof (load_dump py v data Hd []) as E. rewrite app_nil_r in E.
  rewrite E. f_equal. unfold brine.dump in Hd.
  destruct (brine._dump py v []) as [s1|e] eqn:Ed; [|discriminate].
  exact (reload_exact py v Hwf Hsl _ _ Ed).
Qed.

(** C1 at the inputs where it fails: the interpreter is Python 3
    ([is_py3k] is [True]).  [read_str] decodes what it read as ASCII, so a
    non-empty byte string comes back as text - or as [UnicodeDecodeError]
    when a byte is above 0x7f - and never as the byte string that was
    dumped (a text is not equal to a byte string); [_load_unicode] then
    calls [decode] on that text, so loading the dump of any non-empty text
    raises.  The strings of the module's own docstring example, ["he"] and
    [u"llo"], are instances.  ([round_trip] above shows where the round
    trip does hold.) *)
Theorem py3k_round_trip_fails :
  (forall (b : bytes) (data : bytes),
      b <> [] -> brine.dump true (VBytes b) = Ok data ->
      brine.dumpable true (VBytes b) = true /\
      brine.load true data
      = Some (s <- Text.ascii_decode b ;; Ok (VUnicode s)) /\
      brine.load true data <> Some (Ok (VBytes b))) /\
  (forall (s : Text.t) (data : bytes),
      s <> [] -> brine.dump true (VUnicode s) = Ok data ->
      brine.dumpable true (VUnicode s) = true /\
      exists e, brine.load true data = Some (Raise e)) /\
  (forall (s : Text.t) (b : bytes),
      Builtins.eq true (VUnicode s) (VBytes b) = false) /\
  brine.load true [x0b; x68; x65] = Some (Ok (VUnicode [0x68; 0x65])) /\
  brine.load true [x08; x0b; x68; x65] = Some (raise AttributeError).
Proof.
  split; [|split; [|split; [|split]]].
  - intros b data Hb Hd.
    pose proof (load_dump true _ _ Hd []) as E. rewrite app_nil_r in E.
    cbn [reload] in E. rewrite reload_bytes_nonempty in E by assumption.
    unfold str_of_bytes in E. split; [reflexivity|]. split; [exact E|].
    rewrite E. destruct (Text.ascii_decode b); discriminate.
  - intros s data Hs Hd. split; [reflexivity|].
    pose proof (load_dump true _ _ Hd []) as E. rewrite app_nil_r in E.
    rewrite E. cbn [reload].
    unfold brine.dump in Hd. cbn [brine._dump] in Hd.
    unfold brine._dump_str in Hd.
    destruct (Text.utf8_encode true s) as [b|e] eqn:Eb; [|discriminate].
    cbn [rbind]. rewrite reload_bytes_nonempty
      by (eapply utf8_encode_nonempty; eassumption).
    unfold str_of_bytes. destruct (Text.ascii_decode b) as [t|e];
      eexists; reflexivity.
  - intros s b. reflexivity.
  - reflexivity.
  - reflexivity.
Qed.

Lemma py3k_round_trip_fails_witness :
  brine.dump true (VBytes [x68; x65]) = Ok [x0b; x68; x65] /\
  brine.load true [x0b; x68; x65] <> Some (Ok (VBytes [x68; x65])) /\
  brine.dump true (VUnicode [0x68; 0x65]) = Ok [x08; x0b; x68; x65] /\
  exists e, brine.load true [x08; x0b; x68; x65] = Some (Raise e).
Proof.
  destruct py3k_round_trip_fails as (Hb & Hs & _).
  split; [reflexivity|].
  split; [exact (proj2 (proj2 (Hb [x68; x65] [x0b; x68; x65]
                         ltac:(discriminate) eq_refl)))|].
  split; [reflexivity|].
  exact (proj2 (Hs [0x68; 0x65] [x08; x0b; x68; x65]
                   ltac:(discriminate) eq_refl)).
Defined.

(** ** [dumpable] against [dump] *)

Lemma dump_items_ok_inv (py : bool) (items : list value) :
  Forall (fun v => forall s0 s1, brine._dump py v s0 = Ok s1 ->
                                 brine.dumpable py v = true) items ->
  forall s0 s1, brine.dump_items (brine._dump py) items s0 = Ok s1 ->
                forallb (brine.dumpable py) items = true.
Proof.
  induction 1 as [|v items Hv _ IH]; intros s0 s1 Hd; [reflexivity|].
  cbn [brine.dump_items] in Hd.
  destruct (brine._dump py v s0) as [s'|e] eqn:E; [|discriminate].
  cbn [rbind] in Hd. cbn [forallb].
  rewrite (Hv _ _ E), (IH _ _ Hd). reflexivity.
Qed.

Lemma dump_tuple_ok_inv (py : bool) (items : list value) :
  Forall (fun v => forall s0 s1, brine._dump py v s0 = Ok s1 ->
                                 brine.dumpable py v = true) items ->
  forall s0 s1, brine._dump_tuple (brine._dump py) items s0 = Ok s1 ->
                forallb (brine.dumpable py) items = true.
Proof.
  intros Hall s0 s1. unfold brine._dump_tuple.
  destruct (brine.tuple_header (len items)); [|discriminate].
  cbn [rbind]. apply dump_items_ok_inv. assumption.
Qed.

(** Whatever [dump] accepts, [dumpable] accepts. *)
Lemma dump_ok_dumpable (py : bool) (v : value) :
  forall s0 s1, brine._dump py v s0 = Ok s1 -> brine.dumpable py v = true.
Proof.
  induction v using value_ind_nested; intros s0 s1 Hd;
    cbn [brine._dump] in Hd;
    try (destruct py; reflexivity); try discriminate.
  - destruct py; [discriminate | reflexivity].
  - apply (dump_tuple_ok_inv py [v1; v2; v3]) in Hd;
      [|repeat constructor; assumption].
    cbn [forallb] in Hd. rewrite andb_true_r in Hd.
    destruct py; cbn; rewrite <- andb_assoc; exact Hd.
  - apply dump_tuple_ok_inv in Hd; [|assumption].
    destruct py; cbn; exact Hd.
  - apply dump_tuple_ok_inv in Hd; [|assumption].
    destruct py; cbn; exact Hd.
Qed.

Lemma pack_uint_raises (k : nat) (n : Z) (e : exn) :
  Struct.pack_uint k n = Raise e -> exn_class e = struct_error.
Proof.
  unfold Struct.pack_uint. destruct (_ && _); [discriminate|].
  intros [= <-]. reflexivity.
Qed.

Lemma utf8_encode_raises (strict : bool) (s : Text.t) (e : exn) :
  Text.utf8_encode strict s = Raise e -> exn_class e = UnicodeEncodeError.
Proof.
  induction s as [|cp s IH]; [discriminate|]. cbn [Text.utf8_encode].
  destruct (strict && Text.is_surrogate cp); [intros [= <-]; reflexivity|].
  destruct (Text.utf8_encode strict s); [discriminate|].
  cbn [rbind]. intros [= <-]. apply IH. reflexivity.
Qed.

Lemma dump_int_raises (n : Z) (s0 : brine.stream_t) (e : exn) :
  brine._dump_int n s0 = Raise e -> exn_class e = struct_error.
Proof.
  unfold brine._dump_int. destruct (dict_get Z.eqb brine.IMM_INTS n); [discriminate|].
  destruct (_ <? 256);
    match goal with
    | |- context [rbind ?p _] => destruct p eqn:Hp; [discriminate|]
    end; cbn [rbind]; intros [= <-]; eapply pack_uint_raises; exact Hp.
Qed.

Lemma dump_bytes_raises (b : bytes) (s0 : brine.stream_t) (e : exn) :
  brine._dump_bytes b s0 = Raise e -> exn_class e = struct_error.
Proof.
  unfold brine._dump_bytes.
  repeat match goal with
         | |- context [if len b =? ?k then _ else _] =>
             destruct (len b =? k); [discriminate|]
         end.
  destruct (_ <? 256);
    match goal with
    | |- context [rbind ?p _] => destruct p eqn:Hp; [discriminate|]
    end; cbn [rbind]; intros [= <-]; eapply pack_uint_raises; exact Hp.
Qed.

Lemma tuple_header_raises (l : Z) (e : exn) :
  brine.tuple_header l = Raise e -> exn_class e = struct_error.
Proof.
  unfold brine.tuple_header.
  repeat match goal with
         | |- context [if l =? ?k then _ else _] =>
             destruct (l =? k); [discriminate|]
         end.
  destruct (_ <? 256);
    match goal with
    | |- context [rbind ?p _] => destruct p eqn:Hp; [discriminate|]
    end; cbn [rbind]; intros [= <-]; eapply pack_uint_raises; exact Hp.
Qed.

Lemma dump_tuple_raises (py : bool) (items : list value) :
  Forall (fun v => brine.dumpable py v = true ->
                   forall s0 e, brine._dump py v s0 = Raise e ->
                                exn_class e <> TypeError) items ->
  forallb (brine.dumpable py) items = true ->
  forall s0 e, brine._dump_tuple (brine._dump py) items s0 = Raise e ->
               exn_class e <> TypeError.
Proof.
  intros Hall Hd s0 e. unfold brine._dump_tuple.
  destruct (brine.tuple_header (len items)) as [h|e'] eqn:Hh.
  - cbn [rbind]. generalize (brine.append s0 h). clear Hh.
    induction Hall as [|v items Hv _ IH]; intros s; [discriminate|].
    cbn [forallb] in Hd. apply andb_true_iff in Hd. destruct Hd as [Hd1 Hd2].
    cbn [brine.dump_items].
    destruct (brine._dump py v s) as [s'|e'] eqn:Ev; cbn [rbind].
    + apply IH. assumption.
    + intros [= <-]. exact (Hv Hd1 _ _ Ev).
  - cbn [rbind]. intros [= <-]. apply tuple_header_raises in Hh.
    rewrite Hh. discriminate.
Qed.

(** On a dumpable value [dump] never raises [TypeError]: what it may
    still raise is [struct.error] or [UnicodeEncodeError]. *)
Lemma dumpable_no_TypeError (py : bool) (v : value) :
  brine.dumpable py v = true ->
  forall s0 e, brine._dump py v s0 = Raise e -> exn_class e <> TypeError.
Proof.
  induction v using value_ind_nested; intros Hd s0 e He;
    cbn [brine._dump] in He; try discriminate.
  - destruct b; discriminate.
  - apply dump_int_raises in He. rewrite He. discriminate.
  - destruct py; [discriminate Hd|].
    apply dump_int_raises in He. rewrite He. discriminate.
  - apply dump_bytes_raises in He. rewrite He. discriminate.
  - unfold brine._dump_str in He.
    destruct (Text.utf8_encode py s) as [b|e'] eqn:Eb; cbn [rbind] in He.
    + apply dump_bytes_raises in He. rewrite He. discriminate.
    + injection He as <-. apply utf8_encode_raises in Eb. rewrite Eb. discriminate.
  - revert He. apply (dump_tuple_raises py [v1; v2; v3]).
    + repeat constructor; assumption.
    + cbn [forallb]. rewrite andb_true_r, andb_assoc.
      destruct py; exact Hd.
  - revert He. apply dump_tuple_raises; [assumption|].
    destruct py; exact Hd.
  - revert He. apply dump_tuple_raises; [assumption|].
    destruct py; exact Hd.
  - destruct py; discriminate Hd.
Qed.

(** Whatever the interpreter, a byte string whose length does not fit the
    32-bit length field is dumpable while [dump] raises [struct.error]. *)
Lemma dump_bytes_too_long (py : bool) (b : bytes) :
  2 ^ 32 <= len b ->
  brine.dumpable py (VBytes b) = true /\
  brine.dump py (VBytes b) = raise struct_error.
Proof.
  intros Hb. split; [destruct py; reflexivity|].
  unfold brine.dump. cbn [brine._dump]. unfold brine._dump_bytes.
  repeat match goal with
         | |- context [len b =? ?k] =>
             destruct (Z.eqb_spec (len b) k); [lia|]
         end.
  destruct (Z.ltb_spec (len b) 256); [lia|].
  unfold brine.I4_pack, Struct.pack_uint.
  destruct (Z.ltb_spec (len b) (256 ^ Z.of_nat 4)) as [H4|H4].
  - change (256 ^ Z.of_nat 4) with (2 ^ 32) in H4. lia.
  - rewrite andb_false_r. reflexivity.
Qed.

(** C6 at an input where it fails.  Under Python 3 a text holding a lone
    surrogate (U+DC80, as [os.fsdecode] makes of an undecodable byte) is
    dumpable, its type being in [simple_types], yet [dump] raises
    [UnicodeEncodeError], which is not a [TypeError]; the same holds of a
    tuple that contains such a text. *)
Theorem dumpable_but_dump_raises :
  brine.dumpable true (VUnicode [0xDC80]) = true /\
  brine.dump true (VUnicode [0xDC80]) = raise UnicodeEncodeError /\
  issubclass UnicodeEncodeError TypeError = false /\
  brine.dumpable true (VTuple [VInt 1; VUnicode [0x61; 0xDC80]]) = true /\
  brine.dump true (VTuple [VInt 1; VUnicode [0x61; 0xDC80]])
  = raise UnicodeEncodeError.
Proof. repeat split; reflexivity. Qed.

(** ** Backoff *)

Lemma rounding_nonneg (rnd : Q -> Q) (x : Q) :
  rounding rnd -> (0 <= x)%Q -> (0 <= rnd x)%Q.
Proof.
  intros [Hmono Hint] Hx.
  eapply Qle_trans; [|apply Hmono; exact Hx].
  apply Qle_lteq. right. symmetry. apply (Hint 0). lia.
Qed.

Lemma rounding_below (rnd : Q -> Q) (x : Q) (B : Z) :
  rounding rnd -> 0 <= B <= 1024 -> (x <= inject_Z B)%Q ->
  (rnd x <= inject_Z B)%Q.
Proof.
  intros [Hmono Hint] HB Hx.
  eapply Qle_trans; [apply Hmono; exact Hx|].
  apply Qle_lteq. right. apply Hint. exact HB.
Qed.

Lemma backoff_range (rnd : Q -> Q) (B : Z) (b u : Q) :
  rounding rnd -> 0 <= B <= 1024 -> (b == inject_Z B)%Q ->
  (0 <= u)%Q -> (u < 1)%Q ->
  (0 <= rnd (lib.uniform rnd 0 b u * rnd (512 # 10000000)))%Q /\
  (rnd (lib.uniform rnd 0 b u * rnd (512 # 10000000))
   <= rnd (inject_Z B * rnd (512 # 10000000)))%Q.
Proof.
  intros Hr HB Hb Hu0 Hu1. unfold lib.uniform.
  assert (0 <= inject_Z B)%Q as HB0
      by (change 0%Q with (inject_Z 0); rewrite <- Zle_Qle; lia).
  assert (0 <= (b - 0) * u)%Q as Hx0.
  { setoid_replace ((b - 0) * u)%Q with (inject_Z B * u)%Q by (rewrite Hb; ring).
    apply Qmult_le_0_compat; assumption. }
  assert ((b - 0) * u <= inject_Z B)%Q as Hx1.
  { setoid_replace ((b - 0) * u)%Q with (u * inject_Z B)%Q by (rewrite Hb; ring).
    setoid_replace (inject_Z B) with (1 * inject_Z B)%Q at 2 by ring.
    apply Qmult_le_compat_r; [apply Qlt_le_weak; assumption | assumption]. }
  pose proof (rounding_nonneg rnd _ Hr Hx0) as Hy0.
  pose proof (rounding_below rnd _ B Hr HB Hx1) as Hy1.
  set (y := rnd ((b - 0) * u)%Q) in *.
  assert (0 <= 0 + y)%Q as Hz0 by (rewrite Qplus_0_l; exact Hy0).
  assert (0 + y <= inject_Z B)%Q as Hz1 by (rewrite Qplus_0_l; exact Hy1).
  pose proof (rounding_nonneg rnd _ Hr Hz0) as Hk0.
  pose proof (rounding_below rnd _ B Hr HB Hz1) as Hk1.
  set (k := rnd (0 + y)%Q) in *.
  assert (0 <= rnd (512 # 10000000))%Q as Hc
      by (apply rounding_nonneg; [exact Hr | discriminate]).
  split.
  - apply rounding_nonneg; [exact Hr|]. apply Qmult_le_0_compat; assumption.
  - destruct Hr as [Hmono _]. apply Hmono.
    apply Qmult_le_compat_r; assumption.
Qed.

Lemma rounding_identity : rounding (fun x => x).
Proof. split; [intros x y H; exact H | intros z _; reflexivity]. Qed.

(** C7.  For every attempt number [n >= 1] and every draw [u] of
    [random()] (so [0 <= u < 1]), the delay [exp_backoff n u] lies between
    [0] and [(2^min(n,10) - (1 if n > 3 else 0)) * 0.0000512], both
    included: in exact arithmetic, and also in floating-point arithmetic,
    with the product that gives the upper bound rounded like the others,
    whatever the rounding as long as it is monotone and keeps the integers
    up to 1024. *)
Theorem exp_backoff_bound (n : Z) (u : Q) :
  1 <= n -> (0 <= u)%Q -> (u < 1)%Q ->
  ((0 <= lib.exp_backoff (fun x => x) n u)%Q /\
   (lib.exp_backoff (fun x => x) n u
    <= inject_Z (2 ^ Z.min n 10 - (if n >? 3 then 1 else 0))
       * (512 # 10000000))%Q) /\
  (forall rnd : Q -> Q, rounding rnd ->
     (0 <= lib.exp_backoff rnd n u)%Q /\
     (lib.exp_backoff rnd n u
      <= rnd (inject_Z (2 ^ Z.min n 10 - (if n >? 3 then 1 else 0))
              * rnd (512 # 10000000)))%Q).
Proof.
  intros Hn Hu0 Hu1.
  assert (forall rnd : Q -> Q, rounding rnd ->
     (0 <= lib.exp_backoff rnd n u)%Q /\
     (lib.exp_backoff rnd n u
      <= rnd (inject_Z (2 ^ Z.min n 10 - (if n >? 3 then 1 else 0))
              * rnd (512 # 10000000)))%Q) as General.
  { intros rnd Hr. unfold lib.exp_backoff.
    assert (Z.min n 10 = 1 \/ Z.min n 10 = 2 \/ Z.min n 10 = 3 \/
            Z.min n 10 = 4 \/ Z.min n 10 = 5 \/ Z.min n 10 = 6 \/
            Z.min n 10 = 7 \/ Z.min n 10 = 8 \/ Z.min n 10 = 9 \/
            Z.min n 10 = 10) as C by lia.
    assert ((n >? 3) = (Z.min n 10 >? 3)) as -> by
        (destruct (Z.gtb_spec n 3), (Z.gtb_spec (Z.min n 10) 3);
         lia || reflexivity).
    repeat (destruct C as [C|C]); rewrite C;
      cbn [Z.gtb Z.compare Pos.compare Pos.compare_cont];
      apply backoff_range;
      solve [ exact Hr | vm_compute; split; discriminate
            | vm_compute; reflexivity | assumption ]. }
  split; [|exact General].
  exact (General (fun x => x) rounding_identity).
Qed.

Lemma exp_backoff_bound_witness :
  (0 <= lib.exp_backoff (fun x => x) 4 (1 # 2))%Q /\
  (lib.exp_backoff (fun x => x) 4 (1 # 2) <= inject_Z 15 * (512 # 10000000))%Q /\
  (lib.exp_backoff (fun x => x) 25 (999 # 1000)
   <= inject_Z 1023 * (512 # 10000000))%Q.
Proof.
  split; [|split].
  - exact (proj1 (proj1 (exp_backoff_bound 4 (1 # 2) ltac:(lia)
                           ltac:(vm_compute; discriminate) ltac:(reflexivity)))).
  - exact (proj2 (proj1 (exp_backoff_bound 4 (1 # 2) ltac:(lia)
                           ltac:(vm_compute; discriminate) ltac:(reflexivity)))).
  - exact (proj2 (proj1 (exp_backoff_bound 25 (999 # 1000) ltac:(lia)
                           ltac:(vm_compute; discriminate) ltac:(reflexivity)))).
Defined.

(** ** Connecting *)

Lemma connect_loop_total (rnd : Q -> Q) (attempt : Z -> option exn) (draw : Z -> Q)
      (attempts : Z) (fuel : nat) :
  forall (collision : Z) (tr : lib.trace),
    (attempts < 1 /\ (1 <= fuel)%nat) \/
    (0 <= collision < attempts /\ attempts - collision <= Z.of_nat fuel) ->
    exists r, lib.connect_loop rnd attempt draw fuel attempts collision tr = Some r.
Proof.
  induction fuel as [|fuel IH]; intros collision tr H; [lia|].
  cbn [lib.connect_loop].
  destruct (attempt (collision + 1)) as [e|]; [|eexists; reflexivity].
  destruct (isinstance e socket.timeout); [|eexists; reflexivity].
  destruct (Z.eqb_spec (collision + 1) attempts) as [E|E];
    [eexists; reflexivity|].
  destruct (Z.ltb_spec attempts 1) as [L|L]; [eexists; reflexivity|].
  cbn [orb]. apply IH. right. lia.
Qed.

(** [socket_backoff_connect] always ends: the rounds it is given are
    enough. *)
Lemma socket_backoff_connect_total (rnd : Q -> Q) (attempt : Z -> option exn)
      (draw : Z -> Q)
      (attempts : Z) :
  exists r, lib.socket_backoff_connect rnd attempt draw attempts = Some r.
Proof.
  unfold lib.socket_backoff_connect. apply connect_loop_total.
  destruct (Z_lt_dec attempts 1); [left | right]; lia.
Qed.

(** C5, as the code has it.  When [attempts < 1] the first connect-timeout
    is surfaced at once: the exception of the first attempt leaves
    [socket_backoff_connect], no socket has been closed and reopened, and
    no backoff delay has been slept. *)
Theorem connect_nonpositive_attempts_no_retry
        (rnd : Q -> Q) (attempt : Z -> option exn) (draw : Z -> Q)
        (attempts : Z) (e : exn) :
  attempts < 1 ->
  attempt 1 = Some e ->
  isinstance e socket.timeout = true ->
  lib.socket_backoff_connect rnd attempt draw attempts
  = Some (Raise e, {| lib.slept := []; lib.closed_sockets := 0 |}).
Proof.
  intros Ha He Ht. unfold lib.socket_backoff_connect.
  replace (Z.to_nat (Z.max attempts 1)) with 1%nat by lia.
  cbn [lib.connect_loop]. change (0 + 1) with 1. rewrite He, Ht.
  destruct (Z.ltb_spec attempts 1); [|lia].
  rewrite orb_true_r. reflexivity.
Qed.

Lemma connect_nonpositive_attempts_no_retry_witness :
  lib.socket_backoff_connect (fun x => x)
    (fun c => if c <? 3 then Some (Exn TimeoutError None) else None)
    (fun _ => 1 # 2) (-1)
  = Some (Raise (Exn TimeoutError None),
          {| lib.slept := []; lib.closed_sockets := 0 |}).
Proof.
  exact (connect_nonpositive_attempts_no_retry (fun x => x)
           (fun c => if c <? 3 then Some (Exn TimeoutError None) else None)
           (fun _ => 1 # 2) (-1) (Exn TimeoutError None)
           ltac:(lia) eq_refl eq_refl).
Defined.

(** C5, as stated, fails: with [attempts = 0] and a network whose first
    two attempts time out and whose third would succeed, the call raises
    the first timeout without sleeping or retrying - whereas with
    [attempts = 6] it sleeps twice and returns the third socket. *)
Lemma connect_zero_attempts_raises_first_timeout :
  lib.socket_backoff_connect (fun x => x)
    (fun c => if c <? 3 then Some (Exn TimeoutError None) else None)
    (fun _ => 1 # 2) 0
  = Some (Raise (Exn TimeoutError None),
          {| lib.slept := []; lib.closed_sockets := 0 |}) /\
  lib.socket_backoff_connect (fun x => x)
    (fun c => if c <? 3 then Some (Exn TimeoutError None) else None)
    (fun _ => 1 # 2) 6
  = Some (Ok 3, {| lib.slept := [lib.exp_backoff (fun x => x) 1 (1 # 2);
                                 lib.exp_backoff (fun x => x) 2 (1 # 2)];
                   lib.closed_sockets := 2 |}).
Proof. split; reflexivity. Qed.

(** ** The socket stream *)

Lemma slice_to_zero {A : Type} (l : list A) : slice_to 0 l = [].
Proof.
  unfold slice_to. destruct (Z.leb_spec (len l) 0) as [H|H]; [|reflexivity].
  destruct l; [reflexivity|]. rewrite len_cons in H.
  pose proof (len_nonneg l). lia.
Qed.

Lemma len_slice_to {A : Type} (n : Z) (l : list A) :
  0 <= n -> len (slice_to n l) = Z.min n (len l).
Proof.
  intros Hn. unfold slice_to. destruct (Z.leb_spec (len l) n) as [H|H]; [lia|].
  unfold len in *. rewrite length_firstn. lia.
Qed.

Lemma slice_to_prefix {A : Type} (n : Z) (buf p : list A) :
  0 <= n ->
  slice_to (len buf + n) (buf ++ p) = buf ++ slice_to n p.
Proof.
  intros Hn. unfold slice_to. rewrite len_app.
  destruct (Z.leb_spec (len buf + len p) (len buf + n)) as [H|H];
    destruct (Z.leb_spec (len p) n) as [H'|H']; try lia; [reflexivity|].
  unfold len. rewrite Z2Nat.inj_add, Nat2Z.id by lia.
  rewrite firstn_app_2. reflexivity.
Qed.

Lemma issubclass_Exception (c : pyclass) :
  issubclass c OSError = true \/ issubclass c TimeoutError = true ->
  issubclass c Exception = true.
Proof. destruct c; cbn; intros [H|H]; congruence. Qed.

Lemma close_quiet (self : stream.SocketStream) :
  quiet_shutdown self -> stream.close self = (Ok tt, closed_stream).
Proof.
  unfold quiet_shutdown, stream.close, stream.closed.
  destruct self as [[ep|]]; cbn; [|reflexivity].
  destruct (stream.on_shutdown ep) as [e|]; [|reflexivity].
  intros [H|H]; [discriminate|]. rewrite H. reflexivity.
Qed.

Section read_exact.
Variable get_exc_errno : exn -> option Z.
Variables EAGAIN EWOULDBLOCK : Z.

Let read_loop := stream.read_loop get_exc_errno EAGAIN EWOULDBLOCK.

(** One round of the loop when bytes arrive. *)
Lemma read_loop_arrives (fuel : nat) (ep : stream.endpoint) (count : Z)
      (acc : list bytes) (chunk : bytes) (rest : list stream.recv_event) :
  stream.rx ep = stream.Arrives chunk :: rest ->
  0 < count -> chunk <> [] ->
  let k := Z.min stream.MAX_IO_CHUNK count in
  read_loop (S fuel) {| stream.sock := stream.Socket ep |} count acc
  = read_loop fuel
      {| stream.sock :=
           stream.Socket
             (stream.set_rx ep (match slice_from k chunk with
                                | [] => rest
                                | remaining => stream.Arrives remaining :: rest
                                end)) |}
      (count - len (slice_to k chunk)) (acc ++ [slice_to k chunk]).
Proof.
  intros Erx Hc Hchunk k. subst read_loop. cbn [stream.read_loop].
  destruct (Z.gtb_spec count 0); [|lia].
  cbn [stream.sock stream.sock_recv]. unfold stream.ep_recv. rewrite Erx.
  fold k. destruct (slice_to k chunk) as [|b0 buf0] eqn:Ebuf; [|reflexivity].
  exfalso. assert (len (slice_to k chunk) = 0) as L by (rewrite Ebuf; reflexivity).
  rewrite len_slice_to in L by (unfold k, stream.MAX_IO_CHUNK; lia).
  destruct chunk; [congruence|]. rewrite len_cons in L.
  pose proof (len_nonneg chunk). unfold k, stream.MAX_IO_CHUNK in L. lia.
Qed.

(** One round of the loop when [recv] raises an instance of
    [socket.timeout]: nothing changes but the script. *)
Lemma read_loop_retries (fuel : nat) (ep : stream.endpoint) (count : Z)
      (acc : list bytes) (e : exn) (rest : list stream.recv_event) :
  stream.rx ep = stream.RecvRaises e :: rest ->
  0 < count -> isinstance e socket.timeout = true ->
  read_loop (S fuel) {| stream.sock := stream.Socket ep |} count acc
  = read_loop fuel {| stream.sock := stream.Socket (stream.set_rx ep rest) |}
              count acc.
Proof.
  intros Erx Hc He. subst read_loop. cbn [stream.read_loop].
  destruct (Z.gtb_spec count 0); [|lia].
  cbn [stream.sock stream.sock_recv]. unfold stream.ep_recv. rewrite Erx, He.
  reflexivity.
Qed.

(** However the transport fragments the bytes, and whatever exceptions
    it raises in between, the loop of [read] gathers exactly the first
    [count] bytes delivered and leaves the stream open. *)
Lemma read_loop_exact (N : nat) :
  forall (ep : stream.endpoint) (count : Z) (acc : list bytes),
    (length (stream.rx ep) + length (delivered (stream.rx ep)) <= N)%nat ->
    Forall flowing (stream.rx ep) ->
    0 <= count <= len (delivered (stream.rx ep)) ->
    exists (fuel : nat) (ep' : stream.endpoint),
      read_loop fuel {| stream.sock := stream.Socket ep |} count acc
      = Some (Ok (concat acc ++ slice_to count (delivered (stream.rx ep))),
              {| stream.sock := stream.Socket ep' |}).
Proof.
  induction N as [|N IH]; intros ep count acc HN Hflow Hcount.
  - destruct (stream.rx ep) as [|ev rest] eqn:Erx; [|simpl in HN; lia].
    simpl in Hcount. assert (count = 0) as -> by (unfold len in *; simpl in *; lia).
    exists O, ep. subst read_loop. cbn. rewrite app_nil_r. destruct ep; reflexivity.
  - destruct (Z.gtb_spec count 0) as [Hpos|Hzero].
    2: { assert (count = 0) as -> by lia. exists O, ep. subst read_loop.
         cbn. rewrite slice_to_zero, app_nil_r. destruct ep; reflexivity. }
    destruct (stream.rx ep) as [|ev rest] eqn:Erx.
    { simpl in Hcount. unfold len in Hcount. simpl in Hcount. lia. }
    apply Forall_cons_iff in Hflow. destruct Hflow as [Hev Hrest].
    destruct ev as [chunk|e]; simpl in Hev.
    + set (k := Z.min stream.MAX_IO_CHUNK count).
      assert (0 < k <= count) as Hk by (unfold k, stream.MAX_IO_CHUNK; lia).
      set (buf := slice_to k chunk).
      set (rx' := match slice_from k chunk with
                  | [] => rest
                  | remaining => stream.Arrives remaining :: rest
                  end).
      assert (chunk = buf ++ slice_from k chunk) as Hsplit
          by apply slice_split.
      assert (delivered rx' = slice_from k chunk ++ delivered rest) as Hd'.
      { unfold rx'. destruct (slice_from k chunk); reflexivity. }
      assert (0 < len buf <= k) as Hbuf.
      { unfold buf. rewrite len_slice_to by lia.
        destruct chunk; [congruence|]. rewrite len_cons.
        pose proof (len_nonneg chunk). lia. }
      assert (delivered (stream.Arrives chunk :: rest) = buf ++ delivered rx')
        as Hdel.
      { cbn [delivered]. rewrite Hd', app_assoc, <- Hsplit. reflexivity. }
      destruct (IH (stream.set_rx ep rx') (count - len buf) (acc ++ [buf]))
        as (fuel & ep' & E).
      { cbn [stream.set_rx stream.rx].
        rewrite Hdel, length_app in HN. cbn [length] in HN.
        assert (length rx' <= S (length rest))%nat
          by (unfold rx'; destruct (slice_from k chunk); simpl; lia).
        unfold len in Hbuf. lia. }
      { cbn [stream.set_rx stream.rx]. unfold rx'.
        destruct (slice_from k chunk) as [|x l] eqn:Es; [assumption|].
        constructor; [simpl; discriminate | assumption]. }
      { cbn [stream.set_rx stream.rx]. rewrite Hdel, len_app in Hcount. lia. }
      exists (S fuel), ep'.
      rewrite (read_loop_arrives fuel ep count acc chunk rest Erx)
        by (lia || assumption).
      fold k. fold buf. fold rx'. rewrite E.
      cbn [stream.set_rx stream.rx]. rewrite Hdel.
      rewrite concat_app. cbn [concat]. rewrite app_nil_r.
      replace count with (len buf + (count - len buf)) at 2 by lia.
      rewrite slice_to_prefix by lia. rewrite <- app_assoc. reflexivity.
    + destruct (IH (stream.set_rx ep rest) count acc) as (fuel & ep' & E).
      { cbn [stream.set_rx stream.rx]. simpl in HN. lia. }
      { exact Hrest. }
      { exact Hcount. }
      exists (S fuel), ep'.
      rewrite (read_loop_retries fuel ep count acc e rest Erx)
        by (lia || assumption).
      exact E.
Qed.
(** When the peer closes before [count] bytes have been delivered,
    [read] closes the stream and raises [EOFError]: the bytes gathered
    so far are not returned. *)
Lemma read_loop_peer_closed (N : nat) :
  forall (ep : stream.endpoint) (count : Z) (acc : list bytes),
    (length (stream.rx ep) + length (delivered (stream.rx ep)) <= N)%nat ->
    Forall flowing (stream.rx ep) ->
    len (delivered (stream.rx ep)) < count ->
    quiet_shutdown {| stream.sock := stream.Socket ep |} ->
    exists fuel : nat,
      read_loop fuel {| stream.sock := stream.Socket ep |} count acc
      = Some (raise EOFError, closed_stream).
Proof.
  induction N as [|N IH]; intros ep count acc HN Hflow Hcount Hq.
  - destruct (stream.rx ep) as [|ev rest] eqn:Erx; [|simpl in HN; lia].
    exists 1%nat. subst read_loop. cbn [stream.read_loop].
    cbn [delivered] in Hcount. change (len (@nil byte)) with 0 in Hcount.
    destruct (Z.gtb_spec count 0); [|lia].
    cbn [stream.sock stream.sock_recv]. unfold stream.ep_recv. rewrite Erx.
    unfold stream.close_and_raise_EOFError. rewrite (close_quiet _ Hq).
    reflexivity.
  - assert (0 < count) as Hpos by (pose proof (len_nonneg (delivered (stream.rx ep))); lia).
    destruct (stream.rx ep) as [|ev rest] eqn:Erx.
    { exists 1%nat. subst read_loop. cbn [stream.read_loop].
      destruct (Z.gtb_spec count 0); [|lia].
      cbn [stream.sock stream.sock_recv]. unfold stream.ep_recv. rewrite Erx.
      unfold stream.close_and_raise_EOFError. rewrite (close_quiet _ Hq).
      reflexivity. }
    apply Forall_cons_iff in Hflow. destruct Hflow as [Hev Hrest].
    destruct ev as [chunk|e]; simpl in Hev.
    + set (k := Z.min stream.MAX_IO_CHUNK count).
      assert (0 < k <= count) as Hk by (unfold k, stream.MAX_IO_CHUNK; lia).
      set (buf := slice_to k chunk).
      set (rx' := match slice_from k chunk with
                  | [] => rest
                  | remaining => stream.Arrives remaining :: rest
                  end).
      assert (chunk = buf ++ slice_from k chunk) as Hsplit by apply slice_split.
      assert (delivered rx' = slice_from k chunk ++ delivered rest) as Hd'.
      { unfold rx'. destruct (slice_from k chunk); reflexivity. }
      assert (0 < len buf <= k) as Hbuf.
      { unfold buf. rewrite len_slice_to by lia.
        destruct chunk; [congruence|]. rewrite len_cons.
        pose proof (len_nonneg chunk). lia. }
      assert (delivered (stream.Arrives chunk :: rest) = buf ++ delivered rx')
        as Hdel.
      { cbn [delivered]. rewrite Hd', app_assoc, <- Hsplit. reflexivity. }
      destruct (IH (stream.set_rx ep rx') (count - len buf) (acc ++ [buf]))
        as (fuel & E).
      { cbn [stream.set_rx stream.rx].
        rewrite Hdel, length_app in HN. cbn [length] in HN.
        assert (length rx' <= S (length rest))%nat
          by (unfold rx'; destruct (slice_from k chunk); simpl; lia).
        unfold len in Hbuf. lia. }
      { cbn [stream.set_rx stream.rx]. unfold rx'.
        destruct (slice_from k chunk) as [|x l] eqn:Es; [assumption|].
        constructor; [simpl; discriminate | assumption]. }
      { cbn [stream.set_rx stream.rx]. rewrite Hdel, len_app in Hcount. lia. }
      { exact Hq. }
      exists (S fuel).
      rewrite (read_loop_arrives fuel ep count acc chunk rest Erx)
        by (lia || assumption).
      exact E.
    + destruct (IH (stream.set_rx ep rest) count acc) as (fuel & E).
      { cbn [stream.set_rx stream.rx]. simpl in HN. lia. }
      { exact Hrest. }
      { exact Hcount. }
      { exact Hq. }
      exists (S fuel).
      rewrite (read_loop_retries fuel ep count acc e rest Erx)
        by (lia || assumption).
      exact E.
Qed.

(** On an open stream [read] ends, whatever the transport does: every
    round consumes an event of the script or some of its bytes. *)
Lemma read_loop_total (N : nat) :
  forall (ep : stream.endpoint) (count : Z) (acc : list bytes),
    (length (stream.rx ep) + length (delivered (stream.rx ep)) <= N)%nat ->
    exists r, read_loop (S N) {| stream.sock := stream.Socket ep |} count acc
              = Some r.
Proof.
  induction N as [|N IH]; intros ep count acc HN.
  - destruct (stream.rx ep) as [|ev rest] eqn:Erx; [|simpl in HN; lia].
    subst read_loop. cbn [stream.read_loop].
    destruct (count >? 0); [|eexists; reflexivity].
    cbn [stream.sock stream.sock_recv]. unfold stream.ep_recv. rewrite Erx.
    eexists; reflexivity.
  - set (f := S N) in *. subst read_loop. cbn [stream.read_loop].
    destruct (Z.gtb_spec count 0) as [Hpos|Hzero]; [|eexists; reflexivity].
    cbn [stream.sock stream.sock_recv]. unfold stream.ep_recv.
    destruct (stream.rx ep) as [|ev rest] eqn:Erx; [eexists; reflexivity|].
    destruct ev as [chunk|e].
    + destruct (slice_to (Z.min stream.MAX_IO_CHUNK count) chunk)
        as [|b0 buf0] eqn:Ebuf; [eexists; reflexivity|].
      rewrite <- Ebuf.
      set (k := Z.min stream.MAX_IO_CHUNK count) in *.
      pose proof (slice_split k chunk) as Hsplit.
      assert (0 < length (slice_to k chunk))%nat as Hlen
          by (rewrite Ebuf; simpl; lia).
      apply IH. cbn [stream.set_rx stream.rx].
      cbn [delivered length] in HN. rewrite Hsplit, !length_app in HN.
      destruct (slice_from k chunk) as [|x l]; cbn [delivered length];
        rewrite ?length_app; cbn [length] in *; lia.
    + destruct (isinstance e socket.timeout).
      * apply IH. cbn [stream.set_rx stream.rx]. simpl in HN. lia.
      * destruct (isinstance e socket.error); [|eexists; reflexivity].
        destruct (stream.errno_in _ _); [|eexists; reflexivity].
        apply IH. cbn [stream.set_rx stream.rx]. simpl in HN. lia.
Qed.

End read_exact.

Section read_stuck.
Variable get_exc_errno : exn -> option Z.
Variables EAGAIN EWOULDBLOCK : Z.

(** While [recv] keeps raising instances of [socket.timeout] the loop
    neither returns nor raises: [k] such rounds use up [k] units of
    fuel. *)
Lemma read_loop_spins (e : exn) (k : nat) :
  isinstance e socket.timeout = true ->
  forall (ep : stream.endpoint) (rest : list stream.recv_event)
         (count : Z) (acc : list bytes),
    stream.rx ep = repeat (stream.RecvRaises e) k ++ rest ->
    0 < count ->
    stream.read_loop get_exc_errno EAGAIN EWOULDBLOCK k
                     {| stream.sock := stream.Socket ep |} count acc = None.
Proof.
  intros He. induction k as [|k IH]; intros ep rest count acc Erx Hc.
  - cbn [stream.read_loop]. destruct (Z.gtb_spec count 0); [reflexivity | lia].
  - rewrite (read_loop_retries _ _ _ k ep count acc e (repeat (stream.RecvRaises e) k ++ rest))
      by assumption.
    apply (IH _ rest). reflexivity. assumption.
Qed.

(** On a closed stream, a [read] of at least one byte never returns:
    [ClosedFile] raises [EOFError] at [recv], [EOFError] is an instance
    of [socket.timeout] (which is [Exception]), and the loop goes on. *)
Lemma read_after_close_never_returns (fuel : nat) (count : Z) (acc : list bytes) :
  0 < count ->
  stream.read_loop get_exc_errno EAGAIN EWOULDBLOCK fuel closed_stream count acc
  = None.
Proof.
  intros Hc. induction fuel as [|fuel IH]; cbn [stream.read_loop];
    destruct (Z.gtb_spec count 0); try lia; [reflexivity|].
  cbn. exact IH.
Qed.
End read_stuck.

(** C3 at an input where it fails.  A connection reset ([ECONNRESET],
    an [OSError] that is neither a timeout nor in [retry_errnos]) raised by
    [recv] is caught by the first handler, [except socket.timeout], since
    [socket.timeout] is [Exception]: [read] goes round again.  If bytes
    arrive afterwards [read] returns them and the stream stays open; and
    as long as [recv] keeps raising, [read] has neither raised [EOFError]
    nor closed the stream. *)
Theorem read_retries_fatal_error :
  let reset := Exn OSError (Some linux.ECONNRESET) in
  stream.errno_in (linux.get_exc_errno reset)
                  (stream.retry_errnos linux.EAGAIN linux.EWOULDBLOCK) = false /\
  isinstance reset TimeoutError = false /\
  isinstance reset socket.timeout = true /\
  stream.read linux.get_exc_errno linux.EAGAIN linux.EWOULDBLOCK 2
              (stream_over [stream.RecvRaises reset; stream.Arrives [x61]] []) 1
  = Some (Ok [x61], stream_over [] []) /\
  (forall (k : nat) (rest : list stream.recv_event),
      stream.read linux.get_exc_errno linux.EAGAIN linux.EWOULDBLOCK k
                  (stream_over (repeat (stream.RecvRaises reset) k ++ rest) []) 1
      = None).
Proof.
  cbv zeta. repeat split; try reflexivity.
  intros k rest. unfold stream.read, stream_over.
  apply (read_loop_spins _ _ _ (Exn OSError (Some linux.ECONNRESET)) k
           eq_refl _ rest); [reflexivity | lia].
Qed.

Lemma len_slice_from_le {A : Type} (n : Z) (l : list A) :
  (length (slice_from n l) <= length l)%nat.
Proof.
  unfold slice_from. destruct (len l <=? n); [simpl; lia|].
  rewrite length_skipn. lia.
Qed.

Lemma slice_from_shorter {A : Type} (l : list A) :
  l <> [] ->
  (length (slice_from (len (slice_to stream.MAX_IO_CHUNK l)) l) < length l)%nat.
Proof.
  intros Hl. unfold slice_to.
  destruct (Z.leb_spec (len l) stream.MAX_IO_CHUNK) as [H|H].
  - unfold slice_from. rewrite Z.leb_refl. destruct l; [congruence | simpl; lia].
  - unfold slice_from, len in *. rewrite length_firstn.
    unfold stream.MAX_IO_CHUNK in *.
    destruct (Z.leb_spec (Z.of_nat (length l))
                (Z.of_nat (Nat.min (Z.to_nat 64000) (length l)))); [lia|].
    rewrite length_skipn. lia.
Qed.

(** [write] ends as well: every round consumes an event of the send
    script or, once the script is over, at least one byte of the data. *)
Lemma write_loop_total (N : nat) :
  forall (self : stream.SocketStream) (data : bytes),
    (match stream.sock self with
     | stream.Socket ep => length (stream.tx ep)
     | stream.ClosedFile => O
     end + length data <= N)%nat ->
    exists r, stream.write_loop N self data = Some r.
Proof.
  induction N as [|N IH]; intros self data HN.
  - destruct data; [eexists; reflexivity | simpl in HN; lia].
  - cbn [stream.write_loop]. destruct data as [|b data]; [eexists; reflexivity|].
    set (d := b :: data) in *. assert (d <> []) as Hd by discriminate.
    destruct self as [[ep|]]; cbn [stream.sock stream.sock_send] in *;
      [|eexists; reflexivity].
    unfold stream.ep_send. destruct (stream.tx ep) as [|ev rest] eqn:Etx.
    + apply IH. cbn [stream.sock stream.set_tx stream.tx length].
      pose proof (slice_from_shorter d Hd). cbn [length] in HN |- *. lia.
    + destruct ev as [n|e]; [|eexists; reflexivity].
      apply IH. cbn [stream.sock stream.set_tx stream.tx].
      pose proof (len_slice_from_le
                    (Z.max 0 (Z.min n (len (slice_to stream.MAX_IO_CHUNK d)))) d).
      cbn [length] in HN. lia.
Qed.

Lemma write_total (self : stream.SocketStream) (data : bytes) :
  exists (fuel : nat) r, stream.write fuel self data = Some r.
Proof.
  destruct (write_loop_total _ self data (le_n _)) as (r & E).
  eexists. unfold stream.write. rewrite E.
  destruct r as [[u|ex] self']; [eexists; reflexivity|].
  destruct (isinstance ex socket.error); eexists; reflexivity.
Qed.

(** C4, as the code has it.  In [read], a transient error raised by
    [recv] is retried in place: the round leaves the count and the bytes
    gathered so far untouched, the stream open, and nothing reaches the
    caller.  In [write] nothing is retried: whenever [send] raises an
    instance of [socket.error] - a transient one included - the stream is
    closed and [EOFError] is raised. *)
Theorem transient_errors_read_write
        (get_exc_errno : exn -> option Z) (EAGAIN EWOULDBLOCK : Z) :
  (forall (fuel : nat) (ep : stream.endpoint) (e : exn)
          (rest : list stream.recv_event) (count : Z) (acc : list bytes),
      stream.rx ep = stream.RecvRaises e :: rest ->
      transient get_exc_errno EAGAIN EWOULDBLOCK e ->
      0 < count ->
      stream.read_loop get_exc_errno EAGAIN EWOULDBLOCK (S fuel)
                       {| stream.sock := stream.Socket ep |} count acc
      = stream.read_loop get_exc_errno EAGAIN EWOULDBLOCK fuel
                         {| stream.sock := stream.Socket (stream.set_rx ep rest) |}
                         count acc) /\
  (forall (fuel : nat) (self self' : stream.SocketStream) (data : bytes) (ex : exn),
      stream.write_loop fuel self data = Some (Raise ex, self') ->
      isinstance ex socket.error = true ->
      quiet_shutdown self' ->
      stream.write fuel self data = Some (raise EOFError, closed_stream)) /\
  (forall (fuel : nat) (ep : stream.endpoint) (e : exn)
          (rest : list stream.send_event) (data : bytes),
      stream.tx ep = stream.SendRaises e :: rest ->
      transient get_exc_errno EAGAIN EWOULDBLOCK e ->
      stream.on_shutdown ep = None ->
      data <> [] ->
      stream.write (S fuel) {| stream.sock := stream.Socket ep |} data
      = Some (raise EOFError, closed_stream)).
Proof.
  assert (forall e, transient get_exc_errno EAGAIN EWOULDBLOCK e ->
                    isinstance e Exception = true) as HT.
  { intros e [H|[H _]]; apply (issubclass_Exception (exn_class e));
      [right | left]; exact H. }
  split; [|split].
  - intros fuel ep e rest count acc Erx Ht Hc.
    apply (read_loop_retries _ _ _ fuel ep count acc e rest);
      [assumption | assumption | apply HT; assumption].
  - intros fuel self self' data ex Hw Hex Hq. unfold stream.write.
    rewrite Hw, Hex. unfold stream.close_and_raise_EOFError.
    rewrite (close_quiet self' Hq). reflexivity.
  - intros fuel ep e rest data Etx Ht Hs Hd. unfold stream.write.
    destruct data as [|b data]; [congruence|].
    cbn [stream.write_loop stream.sock stream.sock_send].
    unfold stream.ep_send. rewrite Etx.
    change socket.error with Exception. rewrite (HT e Ht).
    unfold stream.close_and_raise_EOFError, stream.close, stream.closed.
    cbn. rewrite Hs. reflexivity.
Qed.

Lemma transient_errors_read_write_witness :
  let again := Exn OSError (Some linux.EAGAIN) in
  stream.read linux.get_exc_errno linux.EAGAIN linux.EWOULDBLOCK 3
              (stream_over [stream.RecvRaises again; stream.Arrives [x61]] []) 1
  = stream.read linux.get_exc_errno linux.EAGAIN linux.EWOULDBLOCK 2
                (stream_over [stream.Arrives [x61]] []) 1 /\
  stream.write 3 (stream_over [] [stream.Accepts 1; stream.SendRaises again])
               [x61; x62]
  = Some (raise EOFError, closed_stream) /\
  stream.write 3 (stream_over [] [stream.SendRaises again]) [x61; x62]
  = Some (raise EOFError, closed_stream).
Proof.
  cbv zeta.
  destruct (transient_errors_read_write linux.get_exc_errno linux.EAGAIN
              linux.EWOULDBLOCK) as (Hread & Hwrite & Hsend).
  split; [|split].
  - exact (Hread 2%nat
                 (endpoint_over [stream.RecvRaises (Exn OSError (Some linux.EAGAIN));
                                 stream.Arrives [x61]] [])
                 (Exn OSError (Some linux.EAGAIN)) [stream.Arrives [x61]]
                 1 [] eq_refl (or_intror (conj eq_refl eq_refl)) ltac:(lia)).
  - refine (Hwrite 3%nat
                   (stream_over [] [stream.Accepts 1;
                                    stream.SendRaises (Exn OSError (Some linux.EAGAIN))])
                   _ [x61; x62] (Exn OSError (Some linux.EAGAIN))
                   _ eq_refl _); [reflexivity | exact I].
  - exact (Hsend 2%nat
                 (endpoint_over [] [stream.SendRaises (Exn OSError (Some linux.EAGAIN))])
                 (Exn OSError (Some linux.EAGAIN)) [] [x61; x62]
                 eq_refl (or_intror (conj eq_refl eq_refl)) eq_refl
                 ltac:(discriminate)).
Defined.

(** C4, as stated, fails: [send] raising [EAGAIN] is not retried by
    [write]; the stream is closed and [EOFError] raised, one byte of the
    two having been sent. *)
Lemma write_does_not_retry_EAGAIN :
  let again := Exn OSError (Some linux.EAGAIN) in
  stream.errno_in (linux.get_exc_errno again)
                  (stream.retry_errnos linux.EAGAIN linux.EWOULDBLOCK) = true /\
  stream.write 3 (stream_over [] [stream.Accepts 1; stream.SendRaises again;
                                  stream.Accepts 1])
               [x61; x62]
  = Some (raise EOFError, closed_stream).
Proof. split; reflexivity. Qed.

(** ** Closing *)

Lemma closed_is_closed_stream (self : stream.SocketStream) :
  stream.closed self = true -> self = closed_stream.
Proof. destruct self as [[ep|]]; [discriminate | reflexivity]. Qed.

(** C9, as the code has it.  [close] on a closed stream succeeds and
    changes nothing, and a stream that [close] has closed answers [True]
    to [closed]; on a closed stream [fileno] raises [EOFError] and so does
    every [write] of at least one byte, the stream staying closed; a
    [write] of no bytes and a [read] of no bytes return normally without
    touching the endpoint. *)
Theorem close_idempotent_then_operations_fail
        (get_exc_errno : exn -> option Z) (EAGAIN EWOULDBLOCK EBADF : Z) :
  (forall self, stream.closed self = true ->
                stream.close self = (Ok tt, self)) /\
  (forall self self', stream.close self = (Ok tt, self') ->
                      stream.closed self' = true /\
                      stream.close self' = (Ok tt, self')) /\
  (forall self, stream.closed self = true ->
                stream.fileno get_exc_errno EBADF self = (raise EOFError, self)) /\
  (forall self fuel data, stream.closed self = true -> data <> [] ->
                          stream.write (S fuel) self data
                          = Some (raise EOFError, self)) /\
  (forall self fuel, stream.closed self = true ->
                     stream.write fuel self [] = Some (Ok tt, self)) /\
  (forall self fuel count, stream.closed self = true -> count <= 0 ->
                           stream.read get_exc_errno EAGAIN EWOULDBLOCK fuel self count
                           = Some (Ok [], self)).
Proof.
  split; [|split; [|split; [|split; [|split]]]].
  - intros self H. apply closed_is_closed_stream in H. subst. reflexivity.
  - intros self self' H. unfold stream.close in H.
    destruct (negb (stream.closed self)).
    + destruct (stream.sock_shutdown (stream.sock self)) as [u|e].
      * injection H as <-. split; reflexivity.
      * destruct (isinstance e Exception); [|discriminate].
        injection H as <-. split; reflexivity.
    + injection H as <-. split; reflexivity.
  - intros self H. apply closed_is_closed_stream in H. subst.
    unfold stream.fileno. cbn.
    destruct (stream.errno_in (get_exc_errno stream.stream_closed) [EBADF]);
      reflexivity.
  - intros self fuel data H Hd. apply closed_is_closed_stream in H. subst.
    destruct data; [congruence | reflexivity].
  - intros self fuel H. destruct fuel; reflexivity.
  - intros self fuel count H Hc. unfold stream.read.
    destruct fuel; cbn [stream.read_loop];
      destruct (Z.gtb_spec count 0); try lia; reflexivity.
Qed.

Lemma close_idempotent_then_operations_fail_witness :
  let once := snd (stream.close (stream_over [stream.Arrives [x61]] [])) in
  once = closed_stream /\
  stream.close once = (Ok tt, once) /\
  stream.closed once = true /\
  stream.fileno linux.get_exc_errno linux.EBADF once = (raise EOFError, once) /\
  stream.write 1 once [x61] = Some (raise EOFError, once) /\
  stream.write 0 once [] = Some (Ok tt, once) /\
  stream.read linux.get_exc_errno linux.EAGAIN linux.EWOULDBLOCK 0 once 0
  = Some (Ok [], once).
Proof.
  cbv zeta.
  destruct (close_idempotent_then_operations_fail linux.get_exc_errno
              linux.EAGAIN linux.EWOULDBLOCK linux.EBADF)
    as (Hidem & Hclose & Hfileno & Hwrite & Hwrite0 & Hread0).
  split; [reflexivity|].
  split; [exact (proj2 (Hclose (stream_over [stream.Arrives [x61]] [])
                               closed_stream eq_refl))|].
  split; [exact (proj1 (Hclose (stream_over [stream.Arrives [x61]] [])
                               closed_stream eq_refl))|].
  split; [exact (Hfileno closed_stream eq_refl)|].
  split; [exact (Hwrite closed_stream O [x61] eq_refl ltac:(discriminate))|].
  split; [exact (Hwrite0 closed_stream O eq_refl)|].
  exact (Hread0 closed_stream O 0 eq_refl ltac:(lia)).
Defined.

(** C9, as stated, fails: on a closed stream a [write] of the empty byte
    string and a [read] of zero bytes succeed silently. *)
Lemma empty_operations_succeed_after_close :
  stream.closed closed_stream = true /\
  stream.write 0 closed_stream [] = Some (Ok tt, closed_stream) /\
  stream.read linux.get_exc_errno linux.EAGAIN linux.EWOULDBLOCK 0 closed_stream 0
  = Some (Ok [], closed_stream).
Proof. repeat split; reflexivity. Qed.

Lemma round_trip_witness :
  brine.load false [x14; x05; x0b; x68; x65; x57; x00; x03; x19; x12; x51; x52; x53]
  = Some (Ok (VTuple [VBytes [x68; x65]; VInt 7; VNone; VBool true;
                      VSlice (VInt 1) (VInt 2) (VInt 3)])).
Proof.
  exact (round_trip false
           (VTuple [VBytes [x68; x65]; VInt 7; VNone; VBool true;
                    VSlice (VInt 1) (VInt 2) (VInt 3)])
           [x14; x05; x0b; x68; x65; x57; x00; x03; x19; x12; x51; x52; x53]
           eq_refl ltac:(discriminate) eq_refl).
Defined.
(** ** Encodings do not overlap *)

(** X4.  Among the values on which the round trip holds, no encoding is the
    beginning of another: if the encoding of [v2] starts with the whole
    encoding of [v1], the two encodings are the same, and so are the two
    values. *)
Theorem dump_prefix_free (is_py3k : bool) (v1 v2 : value) (d1 d2 rest : bytes) :
  well_formed is_py3k v1 = true -> well_formed is_py3k v2 = true ->
  (is_py3k = true -> stringless v1 = true /\ stringless v2 = true) ->
  brine.dump is_py3k v1 = Ok d1 ->
  brine.dump is_py3k v2 = Ok d2 ->
  d2 = d1 ++ rest ->
  rest = [] /\ v1 = v2.
Proof.
  intros W1 W2 Hs D1 D2 ->.
  assert (reload is_py3k v1 = Ok v1) as R1.
  { unfold brine.dump in D1.
    destruct (brine._dump is_py3k v1 []) as [s1|e] eqn:E; [|discriminate].
    apply (reload_exact is_py3k v1 W1 (fun H => proj1 (Hs H)) _ _ E). }
  assert (reload is_py3k v2 = Ok v2) as R2.
  { unfold brine.dump in D2.
    destruct (brine._dump is_py3k v2 []) as [s1|e] eqn:E; [|discriminate].
    apply (reload_exact is_py3k v2 W2 (fun H => proj2 (Hs H)) _ _ E). }
  pose proof (load_dump_rest is_py3k v1 d1 D1 (length (d1 ++ rest)) rest
                ltac:(rewrite length_app; lia)) as L1.
  pose proof (load_dump_rest is_py3k v2 (d1 ++ rest) D2 (length (d1 ++ rest)) []
                (le_n _)) as L2.
  rewrite app_nil_r in L2. rewrite L1, R1, R2 in L2. cbn [answer] in L2.
  injection L2 as -> ->. split; reflexivity.
Qed.

Lemma dump_prefix_free_witness :
  ([] : bytes) = [] /\ VTuple [VInt 1; VInt 300] = VTuple [VInt 1; VInt 300].
Proof.
  exact (dump_prefix_free true (VTuple [VInt 1; VInt 300])
           (VTuple [VInt 1; VInt 300])
           [x11; x51; x16; x03; x33; x30; x30]
           [x11; x51; x16; x03; x33; x30; x30] []
           eq_refl eq_refl ltac:(intros _; split; reflexivity)
           eq_refl eq_refl eq_refl).
Defined.


(** ** Where [dump] succeeds *)

Lemma pack_uint_ok_iff (k : nat) (n : Z) :
  (exists b, Struct.pack_uint k n = Ok b) <-> 0 <= n < 256 ^ Z.of_nat k.
Proof.
  unfold Struct.pack_uint.
  destruct (Z.leb_spec 0 n), (Z.ltb_spec n (256 ^ Z.of_nat k)); cbn [andb];
    split; try lia; try (intros _; eexists; reflexivity);
    intros (b & Hb); discriminate.
Qed.

Lemma length_field_ok_iff {A : Type} (l : Z) (k1 k4 : bytes -> result A) :
  0 <= l ->
  (forall b, exists a, k1 b = Ok a) -> (forall b, exists a, k4 b = Ok a) ->
  (exists a, (if l <? 256 then b <- brine.I1_pack l ;; k1 b
              else b <- brine.I4_pack l ;; k4 b) = Ok a)
  <-> l < 2 ^ 32.
Proof.
  intros Hl H1 H4. unfold brine.I1_pack, brine.I4_pack.
  destruct (Z.ltb_spec l 256) as [H|H].
  - destruct (proj2 (pack_uint_ok_iff 1 l) ltac:(change (256 ^ Z.of_nat 1) with 256; lia))
      as (b & ->).
    cbn [rbind]. split; [lia | intros _; apply H1].
  - destruct (Struct.pack_uint 4 l) as [b|e] eqn:E; cbn [rbind].
    + split; [|intros _; apply H4]. intros _.
      pose proof (proj1 (pack_uint_ok_iff 4 l) (ex_intro _ b E)) as P.
      change (256 ^ Z.of_nat 4) with (2 ^ 32) in P. lia.
    + split; [intros (a & Ha); discriminate|]. intros Hlt. exfalso.
      destruct (proj2 (pack_uint_ok_iff 4 l)
                  ltac:(change (256 ^ Z.of_nat 4) with (2 ^ 32); lia)) as (b & Hb).
      congruence.
Qed.

Lemma dump_bytes_ok_iff (b : bytes) (s0 : brine.stream_t) :
  (exists s1, brine._dump_bytes b s0 = Ok s1) <-> len b < 2 ^ 32.
Proof.
  unfold brine._dump_bytes.
  repeat match goal with
         | |- context [if len b =? ?k then _ else _] =>
             destruct (Z.eqb_spec (len b) k);
             [split; [lia | intros _; eexists; reflexivity]|]
         end.
  apply (length_field_ok_iff (len b)
           (fun l => Ok (brine.append s0 (brine.TAG_STR_L1 ++ l ++ b)))
           (fun l => Ok (brine.append s0 (brine.TAG_STR_L4 ++ l ++ b))));
    [apply len_nonneg | intros; eexists; reflexivity ..].
Qed.

Lemma immediate_is_short (n : Z) :
  -0x30 <= n < 0xa0 -> len (IntLit.str n) < 2 ^ 32.
Proof.
  intros H.
  assert (forallb (fun k => len (IntLit.str k) <? 2 ^ 32) (range (-0x30) 0xa0)
          = true) as A by (vm_compute; reflexivity).
  rewrite forallb_forall in A. apply Z.ltb_lt. apply A. apply in_range. exact H.
Qed.

Lemma dump_int_ok_iff (n : Z) (s0 : brine.stream_t) :
  (exists s1, brine._dump_int n s0 = Ok s1) <-> len (IntLit.str n) < 2 ^ 32.
Proof.
  unfold brine._dump_int.
  destruct (dict_get Z.eqb brine.IMM_INTS n) as [b|] eqn:E.
  - split; [|intros _; eexists; reflexivity]. intros _.
    apply immediate_is_short.
    destruct (Z_lt_le_dec n (-0x30)) as [H|H];
      [rewrite IMM_INTS_miss in E by lia; discriminate|].
    destruct (Z_lt_le_dec n 0xa0) as [H'|H']; [lia|].
    rewrite IMM_INTS_miss in E by lia; discriminate.
  - unfold brine.BYTES_LITERAL.
    apply (length_field_ok_iff (len (IntLit.str n))
             (fun l => Ok (brine.append s0 (brine.TAG_INT_L1 ++ l ++ IntLit.str n)))
             (fun l => Ok (brine.append s0 (brine.TAG_INT_L4 ++ l ++ IntLit.str n))));
      [apply len_nonneg | intros; eexists; reflexivity ..].
Qed.

Lemma tuple_header_ok_iff (l : Z) :
  0 <= l -> (exists h, brine.tuple_header l = Ok h) <-> l < 2 ^ 32.
Proof.
  intros Hl. unfold brine.tuple_header.
  repeat match goal with
         | |- context [if l =? ?k then _ else _] =>
             destruct (Z.eqb_spec l k);
             [split; [lia | intros _; eexists; reflexivity]|]
         end.
  apply (length_field_ok_iff l (fun b => Ok (brine.TAG_TUP_L1 ++ b))
                             (fun b => Ok (brine.TAG_TUP_L4 ++ b)));
    [exact Hl | intros; eexists; reflexivity ..].
Qed.

Lemma dump_items_ok_iff (py : bool) (items : list value) :
  Forall (fun v => forall s0, (exists s1, brine._dump py v s0 = Ok s1)
                              <-> brine.dumpable py v = true /\ fits py v = true)
         items ->
  forall s0,
    (exists s1, brine.dump_items (brine._dump py) items s0 = Ok s1)
    <-> forallb (brine.dumpable py) items = true /\ forallb (fits py) items = true.
Proof.
  induction 1 as [|v items Hv _ IH]; intros s0.
  - split; [intros _; split; reflexivity | intros _; eexists; reflexivity].
  - cbn [brine.dump_items forallb].
    destruct (brine._dump py v s0) as [s'|e] eqn:E; cbn [rbind].
    + destruct (proj1 (Hv s0) (ex_intro _ s' E)) as [-> ->]. cbn [andb].
      apply IH.
    + split; [intros (s1 & H1); discriminate|].
      intros [Hd Hf]. apply andb_true_iff in Hd, Hf.
      destruct (proj2 (Hv s0) (conj (proj1 Hd) (proj1 Hf))) as (s1 & H1).
      congruence.
Qed.

Lemma dump_tuple_ok_iff (py : bool) (items : list value) :
  Forall (fun v => forall s0, (exists s1, brine._dump py v s0 = Ok s1)
                              <-> brine.dumpable py v = true /\ fits py v = true)
         items ->
  forall s0,
    (exists s1, brine._dump_tuple (brine._dump py) items s0 = Ok s1)
    <-> forallb (brine.dumpable py) items = true
        /\ ((len items <? 2 ^ 32) && forallb (fits py) items) = true.
Proof.
  intros Hall s0. unfold brine._dump_tuple.
  pose proof (tuple_header_ok_iff (len items) (len_nonneg items)) as Hh.
  destruct (brine.tuple_header (len items)) as [h|e]; cbn [rbind].
  - assert ((len items <? 2 ^ 32) = true) as ->
        by (apply Z.ltb_lt, Hh; eexists; reflexivity).
    cbn [andb]. apply dump_items_ok_iff. exact Hall.
  - split; [intros (s1 & H1); discriminate|].
    intros [_ Hf]. apply andb_true_iff in Hf. destruct Hf as [Hl _].
    apply Z.ltb_lt in Hl. destruct (proj2 Hh Hl) as (h & Eh). discriminate.
Qed.

Lemma _dump_ok_iff (py : bool) (v : value) :
  forall s0, (exists s1, brine._dump py v s0 = Ok s1)
             <-> brine.dumpable py v = true /\ fits py v = true.
Proof.
  induction v using value_ind_nested; intros s0; cbn [brine._dump fits].
  - split; [intros _; destruct py; split; reflexivity | intros _; eexists; reflexivity].
  - split; [intros _; destruct py; split; reflexivity | intros _; eexists; reflexivity].
  - split; [intros _; destruct py; split; reflexivity | intros _; eexists; reflexivity].
  - split; [intros _; destruct py; split; reflexivity
           | intros _; destruct b; eexists; reflexivity].
  - rewrite dump_int_ok_iff, Z.ltb_lt.
    split; [intros H; split; [destruct py; reflexivity | exact H] | intros [_ H]; exact H].
  - destruct py.
    + split; [intros (s1 & H); discriminate | intros [H _]; discriminate].
    + unfold brine._dump_long. rewrite dump_int_ok_iff, Z.ltb_lt.
      split; [intros H; split; [reflexivity | exact H] | intros [_ H]; exact H].
  - split; [intros _; destruct py; split; reflexivity | intros _; eexists; reflexivity].
  - split; [intros _; destruct py; split; reflexivity | intros _; eexists; reflexivity].
  - rewrite dump_bytes_ok_iff, Z.ltb_lt.
    split; [intros H; split; [destruct py; reflexivity | exact H] | intros [_ H]; exact H].
  - unfold brine._dump_str.
    destruct (Text.utf8_encode py s) as [b|e]; cbn [rbind].
    + rewrite dump_bytes_ok_iff, Z.ltb_lt.
      split; [intros H; split; [destruct py; reflexivity | exact H]
             | intros [_ H]; exact H].
    + split; [intros (s1 & H); discriminate | intros [_ H]; discriminate].
  - rewrite (dump_tuple_ok_iff py [v1; v2; v3])
      by (constructor; [assumption|constructor; [assumption|
          constructor; [assumption|constructor]]]).
    change (len [v1; v2; v3] <? 2 ^ 32) with true.
    cbn [forallb andb]. rewrite !andb_true_r.
    assert (brine.dumpable py (VSlice v1 v2 v3)
            = brine.dumpable py v1 && brine.dumpable py v2 && brine.dumpable py v3)
      as -> by (destruct py; reflexivity).
    rewrite !andb_assoc. reflexivity.
  - rewrite dump_tuple_ok_iff by assumption.
    assert (brine.dumpable py (VTuple items) = forallb (brine.dumpable py) items)
      as -> by (destruct py; reflexivity).
    reflexivity.
  - rewrite dump_tuple_ok_iff by assumption.
    assert (brine.dumpable py (VFrozenset items) = forallb (brine.dumpable py) items)
      as -> by (destruct py; reflexivity).
    reflexivity.
  - split; [intros (s1 & H); discriminate | intros [H _]; destruct py; discriminate].
Qed.

(** X2.  [dump] encodes a value exactly when the value is dumpable and every
    length to be written fits its field; otherwise it raises. *)
Theorem dump_succeeds_iff (is_py3k : bool) (v : value) :
  (exists data, brine.dump is_py3k v = Ok data)
  <-> brine.dumpable is_py3k v = true /\ fits is_py3k v = true.
Proof.
  rewrite <- (_dump_ok_iff is_py3k v []). unfold brine.dump.
  destruct (brine._dump is_py3k v []) as [s1|e]; cbn [rbind].
  - split; intros _; eexists; reflexivity.
  - split; intros (x & H); discriminate.
Qed.

(** ** The layout of what [dump] writes *)

Lemma rbind_ok {A : Type} (r : result A) : (x <- r ;; Ok x) = r.
Proof. destruct r; reflexivity. Qed.

(** What a dumper appends does not depend on what the stream holds. *)
Lemma dump_items_shift (py : bool) (items : list value) :
  Forall (fun v => forall s0, brine._dump py v s0
                              = (s <- brine._dump py v [] ;; Ok (s0 ++ s))) items ->
  forall s0, brine.dump_items (brine._dump py) items s0
             = (s <- brine.dump_items (brine._dump py) items [] ;; Ok (s0 ++ s)).
Proof.
  induction 1 as [|v items Hv _ IH]; intros s0.
  - cbn. rewrite app_nil_r. reflexivity.
  - cbn [brine.dump_items]. rewrite (Hv s0).
    destruct (brine._dump py v []) as [s|e]; [|reflexivity]. cbn [rbind].
    rewrite (IH (s0 ++ s)), (IH s).
    destruct (brine.dump_items (brine._dump py) items []) as [s'|e];
      [|reflexivity].
    cbn [rbind]. rewrite app_assoc. reflexivity.
Qed.

Lemma dump_tuple_shift (py : bool) (items : list value) :
  Forall (fun v => forall s0, brine._dump py v s0
                              = (s <- brine._dump py v [] ;; Ok (s0 ++ s))) items ->
  forall s0, brine._dump_tuple (brine._dump py) items s0
             = (s <- brine._dump_tuple (brine._dump py) items [] ;; Ok (s0 ++ s)).
Proof.
  intros Hall s0. unfold brine._dump_tuple.
  destruct (brine.tuple_header (len items)) as [h|e]; [|reflexivity].
  cbn [rbind]. unfold brine.append.
  rewrite (dump_items_shift py items Hall (s0 ++ [h])).
  rewrite (dump_items_shift py items Hall ([] ++ [h])).
  destruct (brine.dump_items (brine._dump py) items []) as [s'|e]; [|reflexivity].
  cbn [rbind app]. rewrite <- app_assoc. reflexivity.
Qed.

Lemma dump_bytes_shift (b : bytes) (s0 : brine.stream_t) :
  brine._dump_bytes b s0 = (s <- brine._dump_bytes b [] ;; Ok (s0 ++ s)).
Proof.
  unfold brine._dump_bytes, brine.append.
  repeat match goal with
         | |- context [if len b =? ?k then _ else _] =>
             destruct (len b =? k); [reflexivity|]
         end.
  destruct (_ <? 256);
    match goal with
    | |- context [rbind ?p _] => destruct p; reflexivity
    end.
Qed.

Lemma dump_int_shift (n : Z) (s0 : brine.stream_t) :
  brine._dump_int n s0 = (s <- brine._dump_int n [] ;; Ok (s0 ++ s)).
Proof.
  unfold brine._dump_int, brine.append.
  destruct (dict_get Z.eqb brine.IMM_INTS n); [reflexivity|].
  destruct (_ <? 256);
    match goal with
    | |- context [rbind ?p _] => destruct p; reflexivity
    end.
Qed.

Lemma dump_shift (py : bool) (v : value) :
  forall s0, brine._dump py v s0 = (s <- brine._dump py v [] ;; Ok (s0 ++ s)).
Proof.
  induction v using value_ind_nested; intros s0; cbn [brine._dump];
    try reflexivity.
  - destruct b; reflexivity.
  - apply dump_int_shift.
  - destruct py; [reflexivity|]. unfold brine._dump_long, brine.append.
    rewrite (dump_int_shift n (s0 ++ _)), (dump_int_shift n ([] ++ _)).
    destruct (brine._dump_int n []); [|reflexivity].
    cbn [rbind app]. rewrite <- app_assoc. reflexivity.
  - apply dump_bytes_shift.
  - unfold brine._dump_str, brine.append.
    destruct (Text.utf8_encode py s) as [b|e]; [|reflexivity]. cbn [rbind].
    rewrite (dump_bytes_shift b (s0 ++ _)), (dump_bytes_shift b ([] ++ _)).
    destruct (brine._dump_bytes b []); [|reflexivity].
    cbn [rbind app]. rewrite <- app_assoc. reflexivity.
  - unfold brine.append.
    assert (Forall (fun v => forall s0, brine._dump py v s0
                       = (s <- brine._dump py v [] ;; Ok (s0 ++ s))) [v1; v2; v3])
      as Hall by (constructor; [assumption|constructor; [assumption|
                  constructor; [assumption|constructor]]]).
    rewrite (dump_tuple_shift py _ Hall (s0 ++ _)),
            (dump_tuple_shift py _ Hall ([] ++ _)).
    destruct (brine._dump_tuple (brine._dump py) [v1; v2; v3] []); [|reflexivity].
    cbn [rbind app]. rewrite <- app_assoc. reflexivity.
  - apply dump_tuple_shift. assumption.
  - unfold brine.append.
    rewrite (dump_tuple_shift py _ H (s0 ++ _)),
            (dump_tuple_shift py _ H ([] ++ _)).
    destruct (brine._dump_tuple (brine._dump py) items []); [|reflexivity].
    cbn [rbind app]. rewrite <- app_assoc. reflexivity.
Qed.

Lemma dump_at (py : bool) (v : value) (s0 : brine.stream_t) :
  (s <- brine._dump py v s0 ;; Ok (brine.join s))
  = (d <- brine.dump py v ;; Ok (brine.join s0 ++ d)).
Proof.
  rewrite dump_shift. unfold brine.dump, brine.join.
  destruct (brine._dump py v []); [|reflexivity].
  cbn [rbind]. rewrite concat_app. reflexivity.
Qed.

Lemma dump_items_at (py : bool) (items : list value) :
  forall s0 : brine.stream_t,
    (s <- brine.dump_items (brine._dump py) items s0 ;; Ok (brine.join s))
    = (ds <- map_result (brine.dump py) items ;; Ok (brine.join s0 ++ concat ds)).
Proof.
  induction items as [|v items IH]; intros s0.
  - cbn. rewrite app_nil_r. reflexivity.
  - cbn [brine.dump_items map_result].
    pose proof (dump_at py v s0) as Hv.
    destruct (brine._dump py v s0) as [s|e]; cbn [rbind] in Hv |- *.
    + destruct (brine.dump py v) as [d|e']; [|discriminate].
      cbn [rbind] in Hv |- *. injection Hv as Hv. rewrite IH, Hv.
      destruct (map_result (brine.dump py) items); [|reflexivity].
      cbn [rbind concat]. rewrite app_assoc. reflexivity.
    + destruct (brine.dump py v) as [d|e']; [discriminate|].
      injection Hv as ->. reflexivity.
Qed.

(** X5.  What [dump] writes for a value with parts is made of what it writes
    for the parts.  A tuple is its header - which tells the number of
    items - followed by the encodings of the items, in order; a
    [frozenset] and a [slice] are a tag followed by the encoding of the
    tuple of their elements; a text is a tag followed by the encoding of
    its UTF-8 bytes; and whatever part fails to encode first makes the
    whole fail with the same error. *)
Theorem dump_layout (is_py3k : bool) :
  let dump := brine.dump is_py3k in
  (forall items,
      dump (VTuple items)
      = (h <- brine.tuple_header (len items) ;;
         ds <- map_result dump items ;;
         Ok (h ++ concat ds))) /\
  (forall items,
      dump (VFrozenset items)
      = (d <- dump (VTuple items) ;; Ok (brine.TAG_FSET ++ d))) /\
  (forall start stop step,
      dump (VSlice start stop step)
      = (d <- dump (VTuple [start; stop; step]) ;; Ok (brine.TAG_SLICE ++ d))) /\
  (forall s,
      dump (VUnicode s)
      = (b <- Text.utf8_encode is_py3k s ;;
         d <- dump (VBytes b) ;; Ok (brine.TAG_UNICODE ++ d))).
Proof.
  cbv zeta.
  assert (forall items s0,
             (s <- brine._dump_tuple (brine._dump is_py3k) items s0 ;;
              Ok (brine.join s))
             = (h <- brine.tuple_header (len items) ;;
                ds <- map_result (brine.dump is_py3k) items ;;
                Ok (brine.join s0 ++ h ++ concat ds))) as Htuple.
  { intros items s0. unfold brine._dump_tuple.
    destruct (brine.tuple_header (len items)) as [h|e]; [|reflexivity].
    cbn [rbind]. rewrite dump_items_at, join_append.
    destruct (map_result (brine.dump is_py3k) items); [|reflexivity].
    cbn [rbind]. rewrite app_assoc. reflexivity. }
  assert (forall items,
             brine.dump is_py3k (VTuple items)
             = (h <- brine.tuple_header (len items) ;;
                ds <- map_result (brine.dump is_py3k) items ;;
                Ok (h ++ concat ds))) as Hdump.
  { intros items. unfold brine.dump at 1. cbn [brine._dump].
    rewrite (Htuple items []). reflexivity. }
  assert (forall items tag,
             (s <- brine._dump_tuple (brine._dump is_py3k) items
                     (brine.append [] tag) ;; Ok (brine.join s))
             = (d <- brine.dump is_py3k (VTuple items) ;; Ok (tag ++ d))) as Htagged.
  { intros items tag. rewrite Htuple, Hdump.
    destruct (brine.tuple_header (len items)) as [h|e]; [|reflexivity].
    cbn [rbind]. destruct (map_result (brine.dump is_py3k) items); [|reflexivity].
    cbn [rbind]. unfold brine.append, brine.join. cbn. rewrite app_nil_r.
    reflexivity. }
  split; [exact Hdump|]. split; [|split].
  - intros items. unfold brine.dump at 1. cbn [brine._dump]. apply Htagged.
  - intros start stop step. unfold brine.dump at 1. cbn [brine._dump].
    apply Htagged.
  - intros s. unfold brine.dump. cbn [brine._dump]. unfold brine._dump_str.
    destruct (Text.utf8_encode is_py3k s) as [b|e]; [|reflexivity].
    cbn [rbind]. rewrite (dump_bytes_shift b (brine.append [] _)).
    destruct (brine._dump_bytes b []); [|reflexivity].
    cbn [rbind]. unfold brine.append, brine.join. cbn [app concat].
    reflexivity.
Qed.

(** ** What [dump] raises *)

Lemma utf8_encode_lenient (s : Text.t) :
  exists b, Text.utf8_encode false s = Ok b.
Proof.
  induction s as [|cp s (b & IH)]; [eexists; reflexivity|].
  cbn [Text.utf8_encode andb]. rewrite IH. eexists; reflexivity.
Qed.

Lemma dump_tuple_errors (py : bool) (P : exn -> Prop) (items : list value) :
  (forall e, exn_class e = struct_error -> P e) ->
  Forall (fun v => forall s0 e, brine._dump py v s0 = Raise e -> P e) items ->
  forall s0 e, brine._dump_tuple (brine._dump py) items s0 = Raise e -> P e.
Proof.
  intros Hs Hall s0 e. unfold brine._dump_tuple.
  destruct (brine.tuple_header (len items)) as [h|e'] eqn:Hh; cbn [rbind].
  - generalize (brine.append s0 h). clear Hh.
    induction Hall as [|v items Hv _ IH]; intros s; [discriminate|].
    cbn [brine.dump_items].
    destruct (brine._dump py v s) as [s'|e'] eqn:Ev; cbn [rbind].
    + apply IH.
    + intros [= <-]. exact (Hv _ _ Ev).
  - intros [= <-]. apply Hs. eapply tuple_header_raises. exact Hh.
Qed.

Lemma _dump_errors (py : bool) (v : value) :
  forall s0 e, brine._dump py v s0 = Raise e ->
    exn_class e = TypeError \/ exn_class e = struct_error \/
    (exn_class e = UnicodeEncodeError /\ py = true).
Proof.
  induction v using value_ind_nested; intros s0 e He;
    cbn [brine._dump] in He; try discriminate.
  - destruct b; discriminate.
  - right; left. eapply dump_int_raises. exact He.
  - destruct py; [injection He as <-; left; reflexivity|].
    right; left. eapply dump_int_raises. exact He.
  - right; left. eapply dump_bytes_raises. exact He.
  - unfold brine._dump_str in He.
    destruct (Text.utf8_encode py s) as [b|e'] eqn:Eb; cbn [rbind] in He.
    + right; left. eapply dump_bytes_raises. exact He.
    + injection He as <-. right; right.
      split; [eapply utf8_encode_raises; exact Eb|].
      destruct py; [reflexivity|].
      destruct (utf8_encode_lenient s) as (b & Hb). congruence.
  - revert He.
    apply (dump_tuple_errors py
             (fun e => exn_class e = TypeError \/ exn_class e = struct_error \/
                       (exn_class e = UnicodeEncodeError /\ py = true))
             [v1; v2; v3]).
    + intros e' He'. right; left. exact He'.
    + constructor; [assumption|constructor; [assumption|
        constructor; [assumption|constructor]]].
  - revert He.
    apply (dump_tuple_errors py
             (fun e => exn_class e = TypeError \/ exn_class e = struct_error \/
                       (exn_class e = UnicodeEncodeError /\ py = true)));
      [|assumption].
    intros e' He'. right; left. exact He'.
  - revert He.
    apply (dump_tuple_errors py
             (fun e => exn_class e = TypeError \/ exn_class e = struct_error \/
                       (exn_class e = UnicodeEncodeError /\ py = true)));
      [|assumption].
    intros e' He'. right; left. exact He'.
  - injection He as <-. left. reflexivity.
Qed.

(** X3.  What [dump] raises is a [TypeError], a [struct.error] or, under
    Python 3 only, a [UnicodeEncodeError]; and it is a [TypeError] only
    for a value that is not dumpable. *)
Theorem dump_errors (is_py3k : bool) (v : value) (e : exn) :
  brine.dump is_py3k v = Raise e ->
  (exn_class e = TypeError /\ brine.dumpable is_py3k v = false) \/
  exn_class e = struct_error \/
  (exn_class e = UnicodeEncodeError /\ is_py3k = true).
Proof.
  unfold brine.dump.
  destruct (brine._dump is_py3k v []) as [s1|e'] eqn:E; [discriminate|].
  cbn [rbind]. intros [= <-].
  destruct (_dump_errors is_py3k v _ _ E) as [H|H]; [left | right; exact H].
  split; [exact H|].
  destruct (brine.dumpable is_py3k v) eqn:Hd; [|reflexivity].
  exfalso. exact (dumpable_no_TypeError is_py3k v Hd _ _ E H).
Qed.

Lemma dump_errors_witness :
  (exn_class (Exn TypeError None) = TypeError /\
   brine.dumpable true (VTuple [VInt 1; VObject]) = false) \/
  exn_class (Exn TypeError None) = struct_error \/
  (exn_class (Exn TypeError None) = UnicodeEncodeError /\ true = true).
Proof.
  exact (dump_errors true (VTuple [VInt 1; VObject]) (Exn TypeError None) eq_refl).
Defined.

(** ** What [load] returns *)

Section yields_facts.
Context {A B : Type}.

Lemma yields_ret (P : A -> Prop) (a : A) : P a -> yields P (brine.ret a).
Proof. intros H s a' s' [= <- <-]. exact H. Qed.

Lemma yields_lift (P : A -> Prop) (r : result A) :
  (forall a, r = Ok a -> P a) -> yields P (brine.lift r).
Proof.
  intros H s a s'. unfold brine.lift. destruct r as [a0|e]; [|discriminate].
  intros [= <- <-]. apply H. reflexivity.
Qed.

Lemma yields_any (m : brine.loader A) : yields (fun _ => True) m.
Proof. intros s a s' _. exact I. Qed.

Lemma yields_bind (Q : A -> Prop) (P : B -> Prop) (m : brine.loader A)
      (k : A -> brine.loader B) :
  yields Q m -> (forall a, Q a -> yields P (k a)) ->
  yields P (brine.lbind m k).
Proof.
  intros Hm Hk s b s'. unfold brine.lbind.
  destruct (m s) as [[[a s1]|e]|] eqn:E; [|discriminate ..].
  intros H. exact (Hk a (Hm _ _ _ E) _ _ _ H).
Qed.

End yields_facts.

Lemma yields_load_items (P : value -> Prop) (L : brine.loader value) :
  yields P L ->
  forall (fuel : nat) (l : Z), yields (Forall P) (brine.load_items L fuel l).
Proof.
  intros HL. induction fuel as [|fuel IH]; intros l; cbn [brine.load_items];
    destruct (l <=? 0); try (apply yields_ret; constructor).
  - intros s a s' H. discriminate.
  - apply (yields_bind P); [exact HL|]. intros item Hitem.
    apply (yields_bind (Forall P)); [apply IH|]. intros items Hitems.
    apply yields_ret. constructor; assumption.
Qed.

Lemma dumpable_tuple (py : bool) (items : list value) :
  brine.dumpable py (VTuple items) = forallb (brine.dumpable py) items.
Proof. destruct py; reflexivity. Qed.

Lemma dumpable_frozenset (py : bool) (items : list value) :
  brine.dumpable py (VFrozenset items) = forallb (brine.dumpable py) items.
Proof. destruct py; reflexivity. Qed.

Lemma dumpable_slice (py : bool) (a b c : value) :
  brine.dumpable py (VSlice a b c)
  = brine.dumpable py a && brine.dumpable py b && brine.dumpable py c.
Proof. destruct py; reflexivity. Qed.

Lemma dumpable_items (py : bool) (items : list value) :
  Forall (fun v => brine.dumpable py v = true) items ->
  forallb (brine.dumpable py) items = true.
Proof. intros H. apply forallb_forall. apply Forall_forall. exact H. Qed.

(** The elements of a dumpable object, when it can be iterated over,
    are dumpable. *)
Lemma iterate_dumpable (py : bool) (obj : value) (items : list value) :
  brine.dumpable py obj = true ->
  Builtins.iterate py obj = Ok items ->
  Forall (fun v => brine.dumpable py v = true) items.
Proof.
  intros Hd. destruct obj; cbn [Builtins.iterate]; try discriminate;
    intros [= <-].
  - apply Forall_forall. intros v Hv. apply in_map_iff in Hv.
    destruct Hv as (x & <- & _). destruct py; reflexivity.
  - apply Forall_forall. intros v Hv. apply in_map_iff in Hv.
    destruct Hv as (x & <- & _). destruct py; reflexivity.
  - rewrite dumpable_tuple in Hd. apply Forall_forall.
    apply forallb_forall. exact Hd.
  - rewrite dumpable_frozenset in Hd. apply Forall_forall.
    apply forallb_forall. exact Hd.
Qed.

Lemma set_of_Forall (P : value -> Prop) (py : bool) (items : list value) :
  forall seen, Forall P seen -> Forall P items ->
               Forall P (Builtins.set_of py seen items).
Proof.
  induction items as [|x items IH]; intros seen Hs Hi; [exact Hs|].
  cbn [Builtins.set_of]. inversion Hi as [|? ? Hx Hrest]; subst.
  destruct (existsb _ seen); apply IH; try assumption.
  apply Forall_app. split; [assumption | constructor; [assumption | constructor]].
Qed.

Lemma unpack3_dumpable (py : bool) (obj a b c : value) :
  brine.dumpable py obj = true ->
  Builtins.unpack3 py obj = Ok (a, b, c) ->
  brine.dumpable py (VSlice a b c) = true.
Proof.
  intros Hd. unfold Builtins.unpack3.
  destruct (Builtins.iterate py obj) as [items|e] eqn:E; [|discriminate].
  cbn [rbind]. pose proof (iterate_dumpable py obj items Hd E) as F.
  destruct items as [|x [|y [|z [|w items]]]]; try discriminate.
  intros [= <- <- <-]. rewrite dumpable_slice.
  inversion F as [|? ? Hx F1]; subst. inversion F1 as [|? ? Hy F2]; subst.
  inversion F2 as [|? ? Hz _]; subst. rewrite Hx, Hy, Hz. reflexivity.
Qed.

Lemma frozenset_dumpable (py : bool) (obj v : value) :
  brine.dumpable py obj = true ->
  Builtins.frozenset py obj = Ok v ->
  brine.dumpable py v = true.
Proof.
  intros Hd. unfold Builtins.frozenset.
  destruct (Builtins.iterate py obj) as [items|e] eqn:E; [|discriminate].
  cbn [rbind]. pose proof (iterate_dumpable py obj items Hd E) as F.
  destruct (forallb Builtins.hashable items); [|discriminate].
  intros [= <-]. rewrite dumpable_frozenset. apply dumpable_items.
  apply set_of_Forall; [constructor | exact F].
Qed.

Lemma decode_utf8_dumpable (py : bool) (obj v : value) :
  Builtins.decode_utf8 py obj = Ok v -> brine.dumpable py v = true.
Proof.
  unfold Builtins.decode_utf8. destruct obj; try discriminate.
  - destruct (Text.utf8_decode py b); [|discriminate].
    intros [= <-]. destruct py; reflexivity.
  - destruct py; [discriminate|].
    destruct (Text.ascii_encode s) as [b|e]; [|discriminate]. cbn [rbind].
    destruct (Text.utf8_decode false b); [|discriminate].
    intros [= <-]. reflexivity.
Qed.

Lemma read_str_dumpable (py : bool) (l : Z) :
  yields (fun v => brine.dumpable py v = true) (brine.read_str py l).
Proof.
  unfold brine.read_str. apply (yields_bind (fun _ => True));
    [apply yields_any|]. intros b _. destruct py.
  - apply (yields_bind (fun _ => True)); [apply yields_any|].
    intros s _. apply yields_ret. reflexivity.
  - apply yields_ret. reflexivity.
Qed.

Ltac dumpable_now :=
  match goal with
  | |- brine.dumpable ?py (VTuple _) = true =>
      rewrite dumpable_tuple; first
        [ apply dumpable_items; assumption
        | cbn [forallb];
          repeat match goal with
                 | H : brine.dumpable py _ = true |- _ => rewrite H; clear H
                 end; reflexivity ]
  | |- brine.dumpable ?py _ = true => destruct py; reflexivity
  end.

Ltac yields_step L :=
  first
    [ apply read_str_dumpable
    | apply yields_ret; dumpable_now
    | eapply yields_bind;
      [ first [ exact L
              | apply yields_load_items; exact L
              | apply yields_any ]
      | intros ? ?; cbv beta in * ] ].

(** Every registered handler returns dumpable values, provided the
    callback does. *)
Lemma registry_dumpable (py : bool) (L : brine.loader value) (fuel : nat)
      (tag : bytes) (h : brine.loader value) :
  yields (fun v => brine.dumpable py v = true) L ->
  dict_get bytes_eqb (brine._load_registry py L fuel) tag = Some h ->
  yields (fun v => brine.dumpable py v = true) h.
Proof.
  intros HL. unfold dict_get, brine._load_registry.
  cbn [find fst snd].
  repeat match goal with
         | |- context [if bytes_eqb ?a tag then _ else _] =>
             destruct (bytes_eqb a tag);
             [ intros [= <-];
               unfold brine._load_none, brine._load_nonimp, brine._load_elipsis,
                 brine._load_true, brine._load_false, brine._load_empty_tuple,
                 brine._load_empty_str, brine._load_long, brine._load_float,
                 brine._load_complex, brine._load_str1, brine._load_str2,
                 brine._load_str3, brine._load_str4, brine._load_str_l1,
                 brine._load_str_l4, brine._load_unicode, brine._load_tup1,
                 brine._load_tup2, brine._load_tup3, brine._load_tup4,
                 brine._load_tup_l1, brine._load_tup_l4, brine._load_slice,
                 brine._load_frozenset, brine._load_int_l1, brine._load_int_l4;
               try (solve [repeat yields_step HL])
             | ]
         end.
  all: try discriminate.
  - (* _load_complex *)
    apply (yields_bind (fun _ => True)); [apply yields_any|]. intros b _.
    apply (yields_bind (fun _ => True)); [apply yields_any|]. intros [re im] _.
    apply yields_ret. destruct py; reflexivity.
  - (* _load_unicode *)
    apply (yields_bind (fun v => brine.dumpable py v = true)); [exact HL|].
    intros obj _. apply yields_lift. intros v. apply decode_utf8_dumpable.
  - (* _load_slice *)
    apply (yields_bind (fun v => brine.dumpable py v = true)); [exact HL|].
    intros obj Hobj.
    apply (yields_bind (fun t => match t with
                                 | (a, b, c) =>
                                     brine.dumpable py (VSlice a b c) = true
                                 end)).
    + apply yields_lift. intros [[a b] c]. apply unpack3_dumpable. exact Hobj.
    + intros [[a b] c] Habc. apply yields_ret. exact Habc.
  - (* _load_frozenset *)
    apply (yields_bind (fun v => brine.dumpable py v = true)); [exact HL|].
    intros obj Hobj. apply yields_lift. intros v.
    apply frozenset_dumpable. exact Hobj.
Qed.

Lemma _load_dumpable (py : bool) (fuel : nat) :
  yields (fun v => brine.dumpable py v = true) (brine._load py fuel).
Proof.
  induction fuel as [|fuel IH]; [intros s a s' H; discriminate|].
  cbn [brine._load].
  apply (yields_bind (fun _ => True)); [apply yields_any|]. intros tag _.
  destruct (dict_get bytes_eqb brine.IMM_INTS_LOADER tag) as [n|].
  { apply yields_ret. destruct py; reflexivity. }
  destruct (dict_get bytes_eqb _ tag) as [h|] eqn:Eh.
  - exact (registry_dumpable py _ _ _ _ IH Eh).
  - intros s a s' H. discriminate.
Qed.

(** X6.  Whatever bytes it is given, what [load] returns is dumpable: [load]
    makes nothing that [dump] would refuse for its type. *)
Theorem load_returns_dumpable (is_py3k : bool) (data : bytes) (obj : value) :
  brine.load is_py3k data = Some (Ok obj) ->
  brine.dumpable is_py3k obj = true.
Proof.
  unfold brine.load.
  destruct (brine._load is_py3k (S (length data)) data)
    as [[[obj' rest]|e]|] eqn:E; [|discriminate ..].
  intros [= <-]. exact (_load_dumpable is_py3k _ _ _ _ E).
Qed.

Lemma load_returns_dumpable_witness :
  brine.dumpable true
    (VTuple [VUnicode [0x61]; VSlice (VInt 1) VNone (VInt 2)]) = true.
Proof.
  exact (load_returns_dumpable true
           [x11; x0a; x61; x19; x12; x51; x00; x52]
           (VTuple [VUnicode [0x61]; VSlice (VInt 1) VNone (VInt 2)])
           eq_refl).
Defined.

(** ** Encoding again what was loaded *)

Lemma be_int_bound_acc (b : bytes) :
  forall acc, 0 <= acc ->
    0 <= fold_left (fun acc x => acc * 256 + ord x) b acc
    < (acc + 1) * 256 ^ Z.of_nat (length b).
Proof.
  induction b as [|x b IH]; intros acc Hacc.
  - cbn. lia.
  - cbn [fold_left length]. pose proof (ord_range x) as Hx.
    specialize (IH (acc * 256 + ord x) ltac:(lia)).
    rewrite Nat2Z.inj_succ, Z.pow_succ_r by lia.
    set (p := 256 ^ Z.of_nat (length b)) in *.
    assert (0 < p) by (subst p; lia). nia.
Qed.

Lemma float_unpack_bound (b : bytes) :
  length b = 8%nat ->
  (0 <=? Float.unpack b) && (Float.unpack b <? 2 ^ 64) = true.
Proof.
  intros Hb. unfold Float.unpack, Struct.be_int.
  pose proof (be_int_bound_acc b 0 ltac:(lia)) as H. rewrite Hb in H.
  change ((0 + 1) * 256 ^ Z.of_nat 8) with (2 ^ 64) in H.
  apply andb_true_iff. split; [apply Z.leb_le | apply Z.ltb_lt]; lia.
Qed.

Lemma is_cont_low6 (b : byte) : Text.is_cont b = true -> 0 <= Text.low6 b < 64.
Proof.
  unfold Text.is_cont, Text.low6. intros H. apply andb_true_iff in H.
  destruct H as [H1 H2]. apply Z.leb_le in H1. apply Z.ltb_lt in H2. lia.
Qed.

Lemma utf8_decode_code_points (strict : bool) (n : nat) :
  forall (b : bytes) (s : Text.t),
    (length b <= n)%nat ->
    Text.utf8_decode strict b = Ok s -> forallb code_point s = true.
Proof.
  induction n as [|n IH]; intros b s Hn.
  - destruct b; [|simpl in Hn; lia]. intros [= <-]. reflexivity.
  - destruct b as [|b0 r0]; [intros [= <-]; reflexivity|].
    cbn [Text.utf8_decode]. cbn [length] in Hn.
    pose proof (ord_range b0) as H0.
    destruct (Z.ltb_spec (ord b0) 0x80).
    { destruct (Text.utf8_decode strict r0) as [s0|] eqn:E; [|discriminate].
      cbn [rbind]. intros [= <-]. cbn [forallb].
      rewrite (IH r0 s0 ltac:(lia) E), andb_true_r.
      unfold code_point. apply andb_true_iff.
      split; [apply Z.leb_le | apply Z.ltb_lt]; lia. }
    destruct ((0xC2 <=? ord b0) && (ord b0 <? 0xE0)) eqn:C2.
    { apply andb_true_iff in C2. destruct C2 as [Ca Cb].
      apply Z.leb_le in Ca. apply Z.ltb_lt in Cb.
      destruct r0 as [|b1 r1]; [discriminate|].
      destruct (Text.is_cont b1) eqn:K1; [|discriminate].
      destruct (Text.utf8_decode strict r1) as [s0|] eqn:E; [|discriminate].
      cbn [rbind]. intros [= <-]. cbn [forallb].
      rewrite (IH r1 s0 ltac:(simpl in Hn; lia) E), andb_true_r.
      pose proof (is_cont_low6 b1 K1).
      unfold code_point. apply andb_true_iff.
      split; [apply Z.leb_le | apply Z.ltb_lt]; lia. }
    destruct ((0xE0 <=? ord b0) && (ord b0 <? 0xF0)) eqn:C3.
    { apply andb_true_iff in C3. destruct C3 as [Ca Cb].
      apply Z.leb_le in Ca. apply Z.ltb_lt in Cb.
      destruct r0 as [|b1 [|b2 r2]]; [discriminate ..|].
      match goal with
      | |- (if ?c then _ else _) = _ -> _ => destruct c eqn:K; [|discriminate]
      end.
      apply andb_true_iff in K. destruct K as [K _].
      apply andb_true_iff in K. destruct K as [K _].
      apply andb_true_iff in K. destruct K as [K1 K2].
      destruct (Text.utf8_decode strict r2) as [s0|] eqn:E; [|discriminate].
      cbn [rbind]. intros [= <-]. cbn [forallb].
      rewrite (IH r2 s0 ltac:(simpl in Hn; lia) E), andb_true_r.
      pose proof (is_cont_low6 b1 K1).
      pose proof (is_cont_low6 b2 K2).
      unfold code_point. apply andb_true_iff.
      split; [apply Z.leb_le | apply Z.ltb_lt]; lia. }
    destruct ((0xF0 <=? ord b0) && (ord b0 <? 0xF5)) eqn:C4; [|discriminate].
    destruct r0 as [|b1 [|b2 [|b3 r3]]]; [discriminate ..|].
    match goal with
    | |- (if ?c then _ else _) = _ -> _ => destruct c eqn:K; [|discriminate]
    end.
    apply andb_true_iff in K. destruct K as [K Khi].
    apply andb_true_iff in K. destruct K as [K Klo].
    destruct (Text.utf8_decode strict r3) as [s0|] eqn:E; [|discriminate].
    cbn [rbind]. intros [= <-]. cbn [forallb].
    rewrite (IH r3 s0 ltac:(simpl in Hn; lia) E), andb_true_r.
    unfold code_point. apply andb_true_iff. split; [|exact Khi].
    apply Z.leb_le. apply Z.leb_le in Klo. lia.
Qed.

Lemma ascii_decode_code_points (b : bytes) (s : Text.t) :
  Text.ascii_decode b = Ok s -> forallb code_point s = true.
Proof.
  unfold Text.ascii_decode.
  destruct (forallb (fun x => ord x <? 0x80) b) eqn:F; [|discriminate].
  intros [= <-]. apply forallb_forall. intros cp Hcp.
  apply in_map_iff in Hcp. destruct Hcp as (x & <- & Hx).
  rewrite forallb_forall in F. specialize (F x Hx). apply Z.ltb_lt in F.
  pose proof (ord_range x). unfold code_point. apply andb_true_iff.
  split; [apply Z.leb_le | apply Z.ltb_lt]; lia.
Qed.

Lemma decode_utf8_well_formed (py : bool) (obj v : value) :
  Builtins.decode_utf8 py obj = Ok v -> well_formed py v = true.
Proof.
  unfold Builtins.decode_utf8. destruct obj; try discriminate.
  - destruct (Text.utf8_decode py b) as [s|] eqn:E; [|discriminate].
    intros [= <-]. exact (utf8_decode_code_points py _ b s (le_n _) E).
  - destruct py; [discriminate|].
    destruct (Text.ascii_encode s) as [b|e]; [|discriminate]. cbn [rbind].
    destruct (Text.utf8_decode false b) as [s'|] eqn:E; [|discriminate].
    intros [= <-]. exact (utf8_decode_code_points false _ b s' (le_n _) E).
Qed.

Lemma forallb_Forall {A : Type} (f : A -> bool) (l : list A) :
  forallb f l = true <-> Forall (fun x => f x = true) l.
Proof. rewrite forallb_forall, Forall_forall. reflexivity. Qed.

Lemma iterate_well_formed (py : bool) (obj : value) (items : list value) :
  well_formed py obj = true ->
  Builtins.iterate py obj = Ok items ->
  Forall (fun v => well_formed py v = true) items.
Proof.
  intros Hw. destruct obj; cbn [Builtins.iterate]; try discriminate;
    intros [= <-]; cbn [well_formed] in Hw.
  - apply Forall_forall. intros v Hv. apply in_map_iff in Hv.
    destruct Hv as (x & <- & _). destruct py; reflexivity.
  - apply Forall_forall. intros v Hv. apply in_map_iff in Hv.
    destruct Hv as (cp & <- & Hcp). cbn [well_formed forallb].
    rewrite forallb_forall in Hw. rewrite (Hw cp Hcp). reflexivity.
  - apply forallb_Forall. exact Hw.
  - apply andb_true_iff in Hw. destruct Hw as [Hw _].
    apply andb_true_iff in Hw. destruct Hw as [Hw _].
    apply forallb_Forall. exact Hw.
Qed.

Lemma unpack3_well_formed (py : bool) (obj a b c : value) :
  well_formed py obj = true ->
  Builtins.unpack3 py obj = Ok (a, b, c) ->
  well_formed py (VSlice a b c) = true.
Proof.
  intros Hw. unfold Builtins.unpack3.
  destruct (Builtins.iterate py obj) as [items|e] eqn:E; [|discriminate].
  cbn [rbind]. pose proof (iterate_well_formed py obj items Hw E) as F.
  destruct items as [|x [|y [|z [|w items]]]]; try discriminate.
  intros [= <- <- <-]. cbn [well_formed].
  inversion F as [|? ? Hx F1]; subst. inversion F1 as [|? ? Hy F2]; subst.
  inversion F2 as [|? ? Hz _]; subst. rewrite Hx, Hy, Hz. reflexivity.
Qed.

Lemma distinct_snoc (py : bool) (l : list value) (x : value) :
  forall seen,
    distinct py seen (l ++ [x])
    = distinct py seen l
      && negb (existsb (fun y => Builtins.eq py y x) (seen ++ l)).
Proof.
  induction l as [|a l IH]; intros seen.
  - cbn [app distinct]. rewrite app_nil_r, andb_true_r. reflexivity.
  - cbn [app distinct]. rewrite IH, <- app_assoc. cbn [app].
    rewrite andb_assoc. reflexivity.
Qed.

Lemma set_of_is_distinct (py : bool) (items : list value) :
  forall seen, distinct py [] seen = true ->
               distinct py [] (Builtins.set_of py seen items) = true.
Proof.
  induction items as [|x items IH]; intros seen Hs; [exact Hs|].
  cbn [Builtins.set_of].
  destruct (existsb (fun y => Builtins.eq py y x) seen) eqn:E;
    [apply IH; exact Hs|].
  apply IH. rewrite distinct_snoc, Hs. cbn [app]. rewrite E. reflexivity.
Qed.

Lemma frozenset_well_formed (py : bool) (obj v : value) :
  well_formed py obj = true ->
  Builtins.frozenset py obj = Ok v ->
  well_formed py v = true.
Proof.
  intros Hw. unfold Builtins.frozenset.
  destruct (Builtins.iterate py obj) as [items|e] eqn:E; [|discriminate].
  cbn [rbind]. pose proof (iterate_well_formed py obj items Hw E) as F.
  destruct (forallb Builtins.hashable items) eqn:Hh; [|discriminate].
  intros [= <-]. cbn [well_formed].
  rewrite (proj2 (forallb_Forall _ _)
             (set_of_Forall _ py items [] (Forall_nil _) F)).
  rewrite (proj2 (forallb_Forall _ _)
             (set_of_Forall _ py items [] (Forall_nil _)
                (proj1 (forallb_Forall _ _) Hh))).
  rewrite set_of_is_distinct by reflexivity. reflexivity.
Qed.

Lemma read_str_well_formed (py : bool) (l : Z) :
  yields (fun v => well_formed py v = true) (brine.read_str py l).
Proof.
  unfold brine.read_str. apply (yields_bind (fun _ => True));
    [apply yields_any|]. intros b _. destruct py.
  - apply (yields_bind (fun s => forallb code_point s = true)).
    + apply yields_lift. intros s. apply ascii_decode_code_points.
    + intros s Hs. apply yields_ret. exact Hs.
  - apply yields_ret. reflexivity.
Qed.

Ltac well_formed_now :=
  match goal with
  | |- well_formed ?py (VTuple _) = true =>
      cbn [well_formed]; first
        [ apply forallb_Forall; assumption
        | cbn [forallb];
          repeat match goal with
                 | H : well_formed py _ = true |- _ => rewrite H; clear H
                 end; reflexivity ]
  | |- well_formed ?py _ = true => destruct py; reflexivity
  end.

Ltac yields_wf_step L :=
  first
    [ apply read_str_well_formed
    | apply yields_ret; well_formed_now
    | eapply yields_bind;
      [ first [ exact L
              | apply yields_load_items; exact L
              | apply yields_any ]
      | intros ? ?; cbv beta in * ] ].

(** Every registered handler returns well-formed values, provided the
    callback does. *)
Lemma registry_well_formed (py : bool) (L : brine.loader value) (fuel : nat)
      (tag : bytes) (h : brine.loader value) :
  yields (fun v => well_formed py v = true) L ->
  dict_get bytes_eqb (brine._load_registry py L fuel) tag = Some h ->
  yields (fun v => well_formed py v = true) h.
Proof.
  intros HL. unfold dict_get, brine._load_registry.
  cbn [find fst snd].
  repeat match goal with
         | |- context [if bytes_eqb ?a tag then _ else _] =>
             destruct (bytes_eqb a tag);
             [ intros [= <-];
               unfold brine._load_none, brine._load_nonimp, brine._load_elipsis,
                 brine._load_true, brine._load_false, brine._load_empty_tuple,
                 brine._load_empty_str, brine._load_long, brine._load_float,
                 brine._load_complex, brine._load_str1, brine._load_str2,
                 brine._load_str3, brine._load_str4, brine._load_str_l1,
                 brine._load_str_l4, brine._load_unicode, brine._load_tup1,
                 brine._load_tup2, brine._load_tup3, brine._load_tup4,
                 brine._load_tup_l1, brine._load_tup_l4, brine._load_slice,
                 brine._load_frozenset, brine._load_int_l1, brine._load_int_l4;
               try (solve [repeat yields_wf_step HL])
             | ]
         end.
  all: try discriminate.
  - (* _load_float *)
    apply (yields_bind (fun _ => True)); [apply yields_any|]. intros b _.
    apply (yields_bind (fun f => (0 <=? f) && (f <? 2 ^ 64) = true)).
    + apply yields_lift. intros f. unfold brine.F8_unpack.
      destruct (Nat.eqb_spec (length b) 8); [|discriminate].
      intros [= <-]. apply float_unpack_bound. assumption.
    + intros f Hf. apply yields_ret. exact Hf.
  - (* _load_complex *)
    apply (yields_bind (fun _ => True)); [apply yields_any|]. intros b _.
    apply (yields_bind (fun c => well_formed py (VComplex (fst c) (snd c)) = true)).
    + apply yields_lift. intros [re im]. unfold brine.C16_unpack.
      destruct (Nat.eqb_spec (length b) 16) as [Hb|]; [|discriminate].
      intros E.
      assert (re = Float.unpack (firstn 8 b) /\ im = Float.unpack (skipn 8 b))
        as [-> ->] by (split; congruence).
      cbn [well_formed fst snd].
      rewrite (float_unpack_bound (firstn 8 b)) by (rewrite length_firstn; lia).
      rewrite (float_unpack_bound (skipn 8 b)) by (rewrite length_skipn; lia).
      reflexivity.
    + intros [re im] Hc. apply yields_ret. exact Hc.
  - (* _load_unicode *)
    apply (yields_bind (fun v => well_formed py v = true)); [exact HL|].
    intros obj _. apply yields_lift. intros v. apply decode_utf8_well_formed.
  - (* _load_slice *)
    apply (yields_bind (fun v => well_formed py v = true)); [exact HL|].
    intros obj Hobj.
    apply (yields_bind (fun t => match t with
                                 | (a, b, c) =>
                                     well_formed py (VSlice a b c) = true
                                 end)).
    + apply yields_lift. intros [[a b] c]. apply unpack3_well_formed. exact Hobj.
    + intros [[a b] c] Habc. apply yields_ret. exact Habc.
  - (* _load_frozenset *)
    apply (yields_bind (fun v => well_formed py v = true)); [exact HL|].
    intros obj Hobj. apply yields_lift. intros v.
    apply frozenset_well_formed. exact Hobj.
Qed.

(** What [load] returns is well formed: its floats are 64 bits wide, its
    texts are made of code points, its sets hold hashable elements that
    are pairwise unequal. *)
Lemma _load_well_formed (py : bool) (fuel : nat) :
  yields (fun v => well_formed py v = true) (brine._load py fuel).
Proof.
  induction fuel as [|fuel IH]; [intros s a s' H; discriminate|].
  cbn [brine._load].
  apply (yields_bind (fun _ => True)); [apply yields_any|]. intros tag _.
  destruct (dict_get bytes_eqb brine.IMM_INTS_LOADER tag) as [n|].
  { apply yields_ret. reflexivity. }
  destruct (dict_get bytes_eqb _ tag) as [h|] eqn:Eh.
  - exact (registry_well_formed py _ _ _ _ IH Eh).
  - intros s a s' H. discriminate.
Qed.

(** X22.  Encoding again what was loaded loses nothing.  When [load]
    returns a value from some bytes - the canonical encoding of the value
    or not - and [dump] encodes that value, [load] returns the same value
    from the new encoding; under Python 3 this holds of the values without
    byte strings or texts other than empty ones. *)
Theorem load_dump_load (is_py3k : bool) (data again : bytes) (v : value) :
  brine.load is_py3k data = Some (Ok v) ->
  (is_py3k = true -> stringless v = true) ->
  brine.dump is_py3k v = Ok again ->
  brine.load is_py3k again = Some (Ok v).
Proof.
  intros Hl Hs Hd.
  assert (well_formed is_py3k v = true) as Hw.
  { unfold brine.load in Hl.
    destruct (brine._load is_py3k (S (length data)) data)
      as [[[obj rest]|e]|] eqn:E; [|discriminate ..].
    injection Hl as <-. exact (_load_well_formed is_py3k _ _ _ _ E). }
  pose proof (load_dump is_py3k v again Hd []) as E. rewrite app_nil_r in E.
  rewrite E. f_equal. unfold brine.dump in Hd.
  destruct (brine._dump is_py3k v []) as [s1|e] eqn:Ed; [|discriminate].
  exact (reload_exact is_py3k v Hw Hs _ _ Ed).
Qed.

Lemma load_dump_load_witness :
  brine.load false [x11; x16; x01; x37; x1a; x12; x51; x51; x52]
  = Some (Ok (VTuple [VInt 7; VFrozenset [VInt 1; VInt 2]])) /\
  brine.load false [x11; x57; x1a; x11; x51; x52]
  = Some (Ok (VTuple [VInt 7; VFrozenset [VInt 1; VInt 2]])).
Proof.
  split; [reflexivity|].
  exact (load_dump_load false [x11; x16; x01; x37; x1a; x12; x51; x51; x52]
           [x11; x57; x1a; x11; x51; x52]
           (VTuple [VInt 7; VFrozenset [VInt 1; VInt 2]])
           eq_refl ltac:(discriminate) eq_refl).
Defined.

(** ** Connecting with backoff *)

Lemma range_last (a b : Z) : a <= b -> range a (b + 1) = range a b ++ [b].
Proof.
  intros H. unfold range.
  replace (Z.to_nat (b + 1 - a)) with (S (Z.to_nat (b - a))) by lia.
  rewrite seq_S, map_app. cbn [map Nat.add]. f_equal. f_equal. lia.
Qed.

Lemma range_first (a b : Z) : a < b -> range a b = a :: range (a + 1) b.
Proof.
  intros H. unfold range.
  replace (Z.to_nat (b - a)) with (S (Z.to_nat (b - (a + 1)))) by lia.
  cbn [seq map]. f_equal; [lia|].
  rewrite <- seq_shift, map_map. apply map_ext. intros k. lia.
Qed.

Lemma range_empty (a : Z) : range a a = [].
Proof. unfold range. rewrite Z.sub_diag. reflexivity. Qed.

Section connect_facts.
Variable rnd : Q -> Q.
Variable attempt : Z -> option exn.
Variable draw : Z -> Q.

Let connect_loop := lib.connect_loop rnd attempt draw.

(** [n] attempts in a row that time out, none of them the last one
    allowed: each is followed by closing the socket and sleeping. *)
Lemma connect_loop_backs_off (n : nat) :
  forall (c : Z) (tr : lib.trace) (fuel : nat) (attempts : Z),
    0 <= c ->
    (forall i, c < i <= c + Z.of_nat n -> times_out attempt i) ->
    c + Z.of_nat n < attempts ->
    connect_loop (n + fuel) attempts c tr
    = connect_loop fuel attempts (c + Z.of_nat n)
        {| lib.slept := lib.slept tr
                        ++ map (fun i => lib.exp_backoff rnd i (draw i))
                               (range (c + 1) (c + Z.of_nat n + 1));
           lib.closed_sockets := lib.closed_sockets tr + Z.of_nat n |}.
Proof.
  induction n as [|n IH]; intros c tr fuel attempts Hc Hto Hlt.
  - cbn [Nat.add Z.of_nat]. rewrite !Z.add_0_r, range_empty. cbn [map].
    rewrite app_nil_r. destruct tr; reflexivity.
  - subst connect_loop. cbn [Nat.add lib.connect_loop].
    destruct (Hto (c + 1) ltac:(lia)) as (e & -> & ->).
    destruct (Z.eqb_spec (c + 1) attempts); [lia|].
    destruct (Z.ltb_spec attempts 1); [lia|]. cbn [orb].
    rewrite IH by (try lia; intros i Hi; apply Hto; lia).
    cbn [lib.slept lib.closed_sockets].
    rewrite <- app_assoc. cbn [app].
    rewrite (range_first (c + 1) (c + Z.of_nat (S n) + 1)) by lia.
    cbn [map].
    replace (c + Z.of_nat (S n)) with (c + 1 + Z.of_nat n) by lia.
    replace (lib.closed_sockets tr + Z.of_nat (S n))
      with (lib.closed_sockets tr + 1 + Z.of_nat n) by lia.
    reflexivity.
Qed.

End connect_facts.

(** X7.  When the attempts before the [k]-th time out and the [k]-th connects,
    with [k] within the attempts allowed, [socket_backoff_connect] returns
    the socket of the [k]-th attempt, having closed the [k - 1] sockets
    before it and slept once after each, for [exp_backoff] of the number
    of the attempt. *)
Theorem connect_succeeds_after_timeouts
        (rnd : Q -> Q) (attempt : Z -> option exn) (draw : Z -> Q)
        (attempts k : Z) :
  1 <= k <= attempts ->
  (forall i, 1 <= i < k -> times_out attempt i) ->
  attempt k = None ->
  lib.socket_backoff_connect rnd attempt draw attempts
  = Some (Ok k, {| lib.slept := backoffs rnd draw k;
                   lib.closed_sockets := k - 1 |}).
Proof.
  intros Hk Hto Hok. unfold lib.socket_backoff_connect.
  replace (Z.to_nat (Z.max attempts 1))
    with (Z.to_nat (k - 1) + S (Z.to_nat (attempts - k)))%nat by lia.
  rewrite connect_loop_backs_off
    by (try lia; intros i Hi; apply Hto; lia).
  cbn [lib.connect_loop lib.slept lib.closed_sockets app].
  replace (0 + Z.of_nat (Z.to_nat (k - 1)) + 1) with k by lia.
  rewrite Hok. unfold backoffs.
  replace (0 + Z.of_nat (Z.to_nat (k - 1))) with (k - 1) by lia.
  reflexivity.
Qed.

Lemma connect_succeeds_after_timeouts_witness :
  lib.socket_backoff_connect (fun x => x)
    (fun i => if i <? 3 then Some (Exn TimeoutError None) else None)
    (fun _ => 1 # 2) 6
  = Some (Ok 3, {| lib.slept := backoffs (fun x => x) (fun _ => 1 # 2) 3;
                   lib.closed_sockets := 2 |}).
Proof.
  exact (connect_succeeds_after_timeouts (fun x => x)
           (fun i => if i <? 3 then Some (Exn TimeoutError None) else None)
           (fun _ => 1 # 2) 6 3 ltac:(lia)
           ltac:(intros i Hi; exists (Exn TimeoutError None);
                 destruct (Z.ltb_spec i 3); [split; reflexivity | lia])
           eq_refl).
Defined.

(** X8.  When every one of the [attempts >= 1] attempts allowed times out,
    [socket_backoff_connect] raises the error of the last attempt; it has
    slept after each attempt but the last, and has closed every socket but
    the last one, which is left open. *)
Theorem connect_gives_up_after_attempts
        (rnd : Q -> Q) (attempt : Z -> option exn) (draw : Z -> Q)
        (attempts : Z) (e : exn) :
  1 <= attempts ->
  (forall i, 1 <= i < attempts -> times_out attempt i) ->
  attempt attempts = Some e ->
  lib.socket_backoff_connect rnd attempt draw attempts
  = Some (Raise e, {| lib.slept := backoffs rnd draw attempts;
                      lib.closed_sockets := attempts - 1 |}).
Proof.
  intros Hk Hto He. unfold lib.socket_backoff_connect.
  replace (Z.to_nat (Z.max attempts 1))
    with (Z.to_nat (attempts - 1) + 1)%nat by lia.
  rewrite connect_loop_backs_off
    by (try lia; intros i Hi; apply Hto; lia).
  cbn [lib.connect_loop lib.slept lib.closed_sockets app].
  replace (0 + Z.of_nat (Z.to_nat (attempts - 1)) + 1) with attempts by lia.
  rewrite He, Z.eqb_refl. cbn [orb].
  unfold backoffs.
  replace (0 + Z.of_nat (Z.to_nat (attempts - 1))) with (attempts - 1) by lia.
  destruct (isinstance e socket.timeout); reflexivity.
Qed.

Lemma connect_gives_up_after_attempts_witness :
  lib.socket_backoff_connect (fun x => x)
    (fun _ => Some (Exn TimeoutError None)) (fun _ => 1 # 2) 3
  = Some (raise TimeoutError,
          {| lib.slept := backoffs (fun x => x) (fun _ => 1 # 2) 3;
             lib.closed_sockets := 2 |}).
Proof.
  exact (connect_gives_up_after_attempts (fun x => x)
           (fun _ => Some (Exn TimeoutError None)) (fun _ => 1 # 2) 3
           (Exn TimeoutError None) ltac:(lia)
           ltac:(intros i Hi; exists (Exn TimeoutError None); split; reflexivity)
           eq_refl).
Defined.

(** Whatever the attempt, the delay stays under the one of the tenth. *)
Lemma exp_backoff_capped (rnd : Q -> Q) (n : Z) (u : Q) :
  rounding rnd -> 1 <= n -> (0 <= u)%Q -> (u < 1)%Q ->
  (0 <= lib.exp_backoff rnd n u)%Q /\
  (lib.exp_backoff rnd n u <= rnd (inject_Z 1023 * rnd (512 # 10000000)))%Q.
Proof.
  intros Hr Hn Hu0 Hu1.
  assert (0 <= rnd (512 # 10000000))%Q as Hc
      by (apply rounding_nonneg; [exact Hr | discriminate]).
  assert (forall B : Z, 0 <= B <= 1023 ->
            (rnd (inject_Z B * rnd (512 # 10000000))
             <= rnd (inject_Z 1023 * rnd (512 # 10000000)))%Q) as Hcap.
  { intros B HB. apply (proj1 Hr). apply Qmult_le_compat_r; [|exact Hc].
    rewrite <- Zle_Qle. lia. }
  unfold lib.exp_backoff.
  assert (Z.min n 10 = 1 \/ Z.min n 10 = 2 \/ Z.min n 10 = 3 \/
          Z.min n 10 = 4 \/ Z.min n 10 = 5 \/ Z.min n 10 = 6 \/
          Z.min n 10 = 7 \/ Z.min n 10 = 8 \/ Z.min n 10 = 9 \/
          Z.min n 10 = 10) as C by lia.
  repeat (destruct C as [C|C]); rewrite C;
    cbn [Z.gtb Z.compare Pos.compare Pos.compare_cont];
    match goal with
    | |- context [lib.uniform rnd 0 ?b u] =>
        let B := eval vm_compute in (Qnum b / Zpos (Qden b)) in
        destruct (backoff_range rnd B b u Hr ltac:(lia)
                    ltac:(vm_compute; reflexivity) Hu0 Hu1) as (H0 & H1);
        split; [exact H0 | eapply Qle_trans; [exact H1 | apply Hcap; lia]]
    end.
Qed.

Section connect_trace.
Variable rnd : Q -> Q.
Variable attempt : Z -> option exn.
Variable draw : Z -> Q.

(** What a run of the loop adds to the trace. *)
Lemma connect_loop_trace (P : Q -> Prop) (attempts : Z) :
  (forall i, 1 <= i -> P (lib.exp_backoff rnd i (draw i))) ->
  forall (fuel : nat) (c : Z) (tr tr' : lib.trace) (r : result Z),
    0 <= c ->
    lib.connect_loop rnd attempt draw fuel attempts c tr = Some (r, tr') ->
    exists added : list Q,
      lib.slept tr' = lib.slept tr ++ added /\
      Forall P added /\
      lib.closed_sockets tr' = lib.closed_sockets tr + len added /\
      len added < Z.of_nat fuel.
Proof.
  intros HP. induction fuel as [|fuel IH]; intros c tr tr' r Hc E;
    [discriminate|].
  cbn [lib.connect_loop] in E.
  assert (exists added : list Q,
             lib.slept tr = lib.slept tr ++ added /\ Forall P added /\
             lib.closed_sockets tr = lib.closed_sockets tr + len added /\
             len added < Z.of_nat (S fuel)) as Stop.
  { exists []. rewrite app_nil_r. change (len (@nil Q)) with 0.
    split; [reflexivity|]. split; [constructor|]. split; lia. }
  destruct (attempt (c + 1)) as [e|]; [|injection E as <- <-; exact Stop].
  destruct (isinstance e socket.timeout); [|injection E as <- <-; exact Stop].
  destruct ((c + 1 =? attempts) || (attempts <? 1));
    [injection E as <- <-; exact Stop|].
  apply IH in E; [|lia].
  destruct E as (added & E1 & E2 & E3 & E4).
  cbn [lib.slept lib.closed_sockets] in E1, E3.
  exists (lib.exp_backoff rnd (c + 1) (draw (c + 1)) :: added).
  rewrite E1, E3, <- app_assoc, len_cons. cbn [app].
  split; [reflexivity|]. split; [constructor; [apply HP; lia | exact E2]|].
  split; lia.
Qed.

End connect_trace.

(** X9.  Whatever the network does, when [socket_backoff_connect] ends it has
    slept fewer times than attempts were allowed, once for each socket it
    closed, and each time for a delay between zero and the greatest delay
    of [exp_backoff], 1023 times 51.2 microseconds. *)
Theorem connect_sleeps_bounded
        (rnd : Q -> Q) (attempt : Z -> option exn) (draw : Z -> Q)
        (attempts : Z) (r : result Z) (tr : lib.trace) :
  rounding rnd ->
  (forall i, (0 <= draw i)%Q /\ (draw i < 1)%Q) ->
  lib.socket_backoff_connect rnd attempt draw attempts = Some (r, tr) ->
  Forall (fun d => (0 <= d)%Q /\
                   (d <= rnd (inject_Z 1023 * rnd (512 # 10000000)))%Q)
         (lib.slept tr) /\
  len (lib.slept tr) = lib.closed_sockets tr /\
  lib.closed_sockets tr < Z.max attempts 1.
Proof.
  intros Hr Hdraw E. unfold lib.socket_backoff_connect in E.
  apply (connect_loop_trace rnd attempt draw
           (fun d => (0 <= d)%Q /\
                     (d <= rnd (inject_Z 1023 * rnd (512 # 10000000)))%Q))
    in E; [| |lia].
  - destruct E as (added & E1 & E2 & E3 & E4).
    cbn [lib.slept lib.closed_sockets app] in E1, E3. rewrite E1, E3.
    split; [exact E2|]. split; lia.
  - intros i Hi. destruct (Hdraw i) as [H0 H1].
    apply exp_backoff_capped; assumption.
Qed.

Lemma connect_sleeps_bounded_witness :
  Forall (fun d => (0 <= d)%Q /\ (d <= inject_Z 1023 * (512 # 10000000))%Q)
         (backoffs (fun x => x) (fun _ => 1 # 2) 3).
Proof.
  exact (proj1 (connect_sleeps_bounded (fun x => x)
                  (fun _ => Some (Exn TimeoutError None)) (fun _ => 1 # 2) 3
                  (raise TimeoutError)
                  {| lib.slept := backoffs (fun x => x) (fun _ => 1 # 2) 3;
                     lib.closed_sockets := 2 |}
                  rounding_identity
                  ltac:(intros i; split; [discriminate | reflexivity])
                  eq_refl)).
Defined.

(** ** Reading in sequence *)

Lemma slice_from_zero {A : Type} (l : list A) : slice_from 0 l = l.
Proof.
  unfold slice_from. destruct (Z.leb_spec (len l) 0) as [H|H]; [|reflexivity].
  destruct l; [reflexivity|]. rewrite len_cons in H.
  pose proof (len_nonneg l). lia.
Qed.

Lemma slice_from_prefix {A : Type} (n : Z) (buf p : list A) :
  0 <= n ->
  slice_from (len buf + n) (buf ++ p) = slice_from n p.
Proof.
  intros Hn. unfold slice_from. rewrite len_app.
  destruct (Z.leb_spec (len buf + len p) (len buf + n)) as [H|H];
    destruct (Z.leb_spec (len p) n) as [H'|H']; try lia; [reflexivity|].
  unfold len. rewrite Z2Nat.inj_add, Nat2Z.id by lia.
  rewrite skipn_app, skipn_all2 by lia.
  replace (length buf + Z.to_nat n - length buf)%nat with (Z.to_nat n) by lia.
  reflexivity.
Qed.

Lemma set_rx_set_rx (ep : stream.endpoint) (a b : list stream.recv_event) :
  stream.set_rx (stream.set_rx ep a) b = stream.set_rx ep b.
Proof. reflexivity. Qed.

Lemma set_rx_same (ep : stream.endpoint) : stream.set_rx ep (stream.rx ep) = ep.
Proof. destruct ep; reflexivity. Qed.

Section read_sequence.
Variable get_exc_errno : exn -> option Z.
Variables EAGAIN EWOULDBLOCK : Z.

(** The loop of [read] takes from the transport the first [count] bytes
    and no more: what the script still delivers afterwards is the rest. *)
Lemma read_loop_takes (N : nat) :
  forall (ep : stream.endpoint) (count : Z) (acc : list bytes),
    (length (stream.rx ep) + length (delivered (stream.rx ep)) <= N)%nat ->
    Forall flowing (stream.rx ep) ->
    0 <= count <= len (delivered (stream.rx ep)) ->
    exists (fuel : nat) (rx' : list stream.recv_event),
      stream.read_loop get_exc_errno EAGAIN EWOULDBLOCK fuel
                       {| stream.sock := stream.Socket ep |} count acc
      = Some (Ok (concat acc ++ slice_to count (delivered (stream.rx ep))),
              {| stream.sock := stream.Socket (stream.set_rx ep rx') |}) /\
      delivered rx' = slice_from count (delivered (stream.rx ep)) /\
      Forall flowing rx'.
Proof.
  induction N as [|N IH]; intros ep count acc HN Hflow Hcount.
  - destruct (stream.rx ep) as [|ev rest] eqn:Erx; [|simpl in HN; lia].
    simpl in Hcount. assert (count = 0) as -> by (unfold len in *; simpl in *; lia).
    exists O, []. split; [|split; [reflexivity | constructor]].
    cbn. rewrite app_nil_r, <- Erx, set_rx_same. reflexivity.
  - destruct (Z.gtb_spec count 0) as [Hpos|Hzero].
    2: { assert (count = 0) as -> by lia. exists O, (stream.rx ep).
         split; [|split; [rewrite slice_from_zero; reflexivity | exact Hflow]].
         cbn.
         rewrite slice_to_zero, app_nil_r, set_rx_same. reflexivity. }
    destruct (stream.rx ep) as [|ev rest] eqn:Erx.
    { simpl in Hcount. unfold len in Hcount. simpl in Hcount. lia. }
    apply Forall_cons_iff in Hflow. destruct Hflow as [Hev Hrest].
    destruct ev as [chunk|e]; simpl in Hev.
    + set (k := Z.min stream.MAX_IO_CHUNK count).
      assert (0 < k <= count) as Hk by (unfold k, stream.MAX_IO_CHUNK; lia).
      set (buf := slice_to k chunk).
      set (rx1 := match slice_from k chunk with
                  | [] => rest
                  | remaining => stream.Arrives remaining :: rest
                  end).
      assert (chunk = buf ++ slice_from k chunk) as Hsplit
          by apply slice_split.
      assert (delivered rx1 = slice_from k chunk ++ delivered rest) as Hd'.
      { unfold rx1. destruct (slice_from k chunk); reflexivity. }
      assert (0 < len buf <= k) as Hbuf.
      { unfold buf. rewrite len_slice_to by lia.
        destruct chunk; [congruence|]. rewrite len_cons.
        pose proof (len_nonneg chunk). lia. }
      assert (delivered (stream.Arrives chunk :: rest) = buf ++ delivered rx1)
        as Hdel.
      { cbn [delivered]. rewrite Hd', app_assoc, <- Hsplit. reflexivity. }
      destruct (IH (stream.set_rx ep rx1) (count - len buf) (acc ++ [buf]))
        as (fuel & rx' & E & Hrx' & Hflow').
      { cbn [stream.set_rx stream.rx].
        rewrite Hdel, length_app in HN. cbn [length] in HN.
        assert (length rx1 <= S (length rest))%nat
          by (unfold rx1; destruct (slice_from k chunk); simpl; lia).
        unfold len in Hbuf. lia. }
      { cbn [stream.set_rx stream.rx]. unfold rx1.
        destruct (slice_from k chunk) as [|x l] eqn:Es; [assumption|].
        constructor; [simpl; discriminate | assumption]. }
      { cbn [stream.set_rx stream.rx]. rewrite Hdel, len_app in Hcount. lia. }
      exists (S fuel), rx'.
      rewrite (read_loop_arrives _ _ _ fuel ep count acc chunk rest Erx)
        by (lia || assumption).
      fold k. fold buf. fold rx1. rewrite E.
      cbn [stream.set_rx stream.rx] in Hrx' |- *. rewrite Hdel.
      split; [|split; [|exact Hflow']].
      * rewrite concat_app. cbn [concat]. rewrite app_nil_r.
        replace count with (len buf + (count - len buf)) at 2 by lia.
        rewrite slice_to_prefix by lia. rewrite <- app_assoc. reflexivity.
      * rewrite Hrx'.
        replace count with (len buf + (count - len buf)) at 2 by lia.
        rewrite slice_from_prefix by lia. reflexivity.
    + destruct (IH (stream.set_rx ep rest) count acc)
        as (fuel & rx' & E & Hrx' & Hflow').
      { cbn [stream.set_rx stream.rx]. simpl in HN. lia. }
      { exact Hrest. }
      { exact Hcount. }
      exists (S fuel), rx'.
      rewrite (read_loop_retries _ _ _ fuel ep count acc e rest Erx)
        by (lia || assumption).
      rewrite E. split; [reflexivity|].
      split; [exact Hrx' | exact Hflow'].
Qed.

End read_sequence.

(** X10.  Successive reads share the bytes out in order.  Over a transport
    that delivers at least [n + m] bytes - in fragments of any sizes, with
    exceptions in between that [read] rides out - [read(n)] returns
    exactly the first [n] bytes, the [read(m)] that follows returns
    exactly the next [m], and the stream is still open. *)
Theorem reads_follow_one_another
        (get_exc_errno : exn -> option Z) (EAGAIN EWOULDBLOCK : Z)
        (ep : stream.endpoint) (n m : Z) :
  Forall flowing (stream.rx ep) ->
  0 <= n -> 0 <= m -> n + m <= len (delivered (stream.rx ep)) ->
  let read := stream.read get_exc_errno EAGAIN EWOULDBLOCK in
  let arriving := delivered (stream.rx ep) in
  exists (fuel1 fuel2 : nat) (s1 s2 : stream.SocketStream),
    read fuel1 {| stream.sock := stream.Socket ep |} n
    = Some (Ok (slice_to n arriving), s1) /\
    read fuel2 s1 m = Some (Ok (slice_to m (slice_from n arriving)), s2) /\
    stream.closed s2 = false.
Proof.
  intros Hflow Hn Hm Hlen read arriving. subst read arriving.
  destruct (read_loop_takes get_exc_errno EAGAIN EWOULDBLOCK _ ep n []
              (le_n _) Hflow ltac:(pose proof (len_nonneg (delivered (stream.rx ep))); lia))
    as (fuel1 & rx1 & E1 & D1 & F1).
  assert (len (slice_from n (delivered (stream.rx ep)))
          = len (delivered (stream.rx ep)) - n) as Hrest.
  { pose proof (slice_split n (delivered (stream.rx ep))) as S.
    apply (f_equal len) in S. rewrite len_app, len_slice_to in S by lia. lia. }
  destruct (read_loop_takes get_exc_errno EAGAIN EWOULDBLOCK _
              (stream.set_rx ep rx1) m [] (le_n _))
    as (fuel2 & rx2 & E2 & D2 & F2).
  { exact F1. }
  { cbn [stream.set_rx stream.rx]. rewrite D1, Hrest. lia. }
  cbn [stream.set_rx stream.rx concat app] in E1, E2. rewrite D1 in E2.
  exists fuel1, fuel2. eexists. eexists.
  split; [exact E1|]. split; [exact E2 | reflexivity].
Qed.

Lemma reads_follow_one_another_witness :
  exists (fuel1 fuel2 : nat) (s1 s2 : stream.SocketStream),
    stream.read linux.get_exc_errno linux.EAGAIN linux.EWOULDBLOCK fuel1
      (stream_over [stream.Arrives [x61]; stream.RecvRaises (Exn TimeoutError None);
                    stream.Arrives [x62; x63; x64]] []) 2
    = Some (Ok [x61; x62], s1) /\
    stream.read linux.get_exc_errno linux.EAGAIN linux.EWOULDBLOCK fuel2 s1 1
    = Some (Ok [x63], s2) /\
    stream.closed s2 = false.
Proof.
  exact (reads_follow_one_another linux.get_exc_errno linux.EAGAIN
           linux.EWOULDBLOCK
           (endpoint_over [stream.Arrives [x61];
                           stream.RecvRaises (Exn TimeoutError None);
                           stream.Arrives [x62; x63; x64]] [])
           2 1
           ltac:(repeat constructor; discriminate)
           ltac:(lia) ltac:(lia) ltac:(vm_compute; discriminate)).
Defined.

(** X11.  [read] returns all the bytes asked for or none.  Over a transport
    whose script [read] rides out, [read(n)] returns exactly the first [n]
    bytes when that many are delivered before the peer closes, and leaves
    the stream open; when fewer are delivered it closes the stream and
    raises [EOFError], and the bytes it had gathered are dropped. *)
Theorem read_all_or_nothing
        (get_exc_errno : exn -> option Z) (EAGAIN EWOULDBLOCK : Z)
        (ep : stream.endpoint) (n : Z) :
  Forall flowing (stream.rx ep) ->
  quiet_shutdown {| stream.sock := stream.Socket ep |} ->
  0 <= n ->
  let read := stream.read get_exc_errno EAGAIN EWOULDBLOCK in
  let arriving := delivered (stream.rx ep) in
  exists fuel : nat,
    (n <= len arriving ->
     exists ep', read fuel {| stream.sock := stream.Socket ep |} n
                 = Some (Ok (slice_to n arriving),
                         {| stream.sock := stream.Socket ep' |})) /\
    (len arriving < n ->
     read fuel {| stream.sock := stream.Socket ep |} n
     = Some (raise EOFError, closed_stream)).
Proof.
  intros Hflow Hq Hn read arriving. subst read arriving. unfold stream.read.
  destruct (Z.le_gt_cases n (len (delivered (stream.rx ep)))) as [H|H].
  - destruct (read_loop_exact get_exc_errno EAGAIN EWOULDBLOCK _ ep n []
                (le_n _) Hflow ltac:(lia)) as (fuel & ep' & E).
    exists fuel. split; [intros _; exists ep'; exact E | lia].
  - destruct (read_loop_peer_closed get_exc_errno EAGAIN EWOULDBLOCK _ ep n []
                (le_n _) Hflow H Hq) as (fuel & E).
    exists fuel. split; [lia | intros _; exact E].
Qed.

Lemma read_all_or_nothing_witness :
  exists fuel : nat,
    stream.read linux.get_exc_errno linux.EAGAIN linux.EWOULDBLOCK fuel
      (stream_over [stream.Arrives [x61]; stream.Arrives [x62]] []) 3
    = Some (raise EOFError, closed_stream).
Proof.
  destruct (read_all_or_nothing linux.get_exc_errno linux.EAGAIN
              linux.EWOULDBLOCK
              (endpoint_over [stream.Arrives [x61]; stream.Arrives [x62]] []) 3
              ltac:(repeat constructor; discriminate) I ltac:(lia))
    as (fuel & _ & H).
  exists fuel. exact (H ltac:(vm_compute; reflexivity)).
Defined.

(** ** Writing *)

Lemma slice_to_slice_to {A : Type} (c k : Z) (l : list A) :
  0 <= k -> 0 <= c <= len (slice_to k l) ->
  slice_to c (slice_to k l) = slice_to c l.
Proof.
  intros Hk. unfold slice_to at 1 3.
  destruct (Z.leb_spec (len l) k) as [H|H]; [reflexivity|].
  unfold slice_to, len. rewrite length_firstn. intros Hc.
  destruct (Z.leb_spec (Z.of_nat (Nat.min (Z.to_nat k) (length l))) c) as [H1|H1];
    destruct (Z.leb_spec (Z.of_nat (length l)) c) as [H2|H2];
    unfold len in *; try lia.
  - assert (c = k) as -> by lia. reflexivity.
  - rewrite firstn_firstn. f_equal. lia.
Qed.

(** What the loop of [write] has sent when it stops: a prefix of the
    data, all of it when it ends normally; and it ends normally when no
    send raises. *)
Lemma write_loop_sends (fuel : nat) :
  forall (ep : stream.endpoint) (data : bytes) (r : result unit)
         (self' : stream.SocketStream),
    stream.write_loop fuel {| stream.sock := stream.Socket ep |} data
    = Some (r, self') ->
    exists (ep' : stream.endpoint) (p q : bytes),
      self' = {| stream.sock := stream.Socket ep' |} /\
      stream.sent ep' = stream.sent ep ++ p /\
      stream.rx ep' = stream.rx ep /\
      data = p ++ q /\
      match r with
      | Ok _ => q = []
      | Raise _ => ~ Forall accepting (stream.tx ep)
      end.
Proof.
  induction fuel as [|fuel IH]; intros ep data r self' E.
  - destruct data; [|discriminate]. injection E as <- <-.
    exists ep, [], []. rewrite app_nil_r. repeat split.
  - cbn [stream.write_loop] in E. destruct data as [|b data].
    { injection E as <- <-. exists ep, [], []. rewrite app_nil_r. repeat split. }
    set (d := b :: data) in *.
    set (chunk := slice_to stream.MAX_IO_CHUNK d) in *.
    cbn [stream.sock stream.sock_send] in E. unfold stream.ep_send in E.
    assert (forall count tx',
               0 <= count <= len chunk ->
               stream.write_loop fuel
                 {| stream.sock :=
                      stream.Socket
                        (stream.set_tx ep tx'
                           (stream.sent ep ++ slice_to count chunk)) |}
                 (slice_from count d) = Some (r, self') ->
               (Forall accepting (stream.tx ep) -> Forall accepting tx') ->
               exists (ep' : stream.endpoint) (p q : bytes),
                 self' = {| stream.sock := stream.Socket ep' |} /\
                 stream.sent ep' = stream.sent ep ++ p /\
                 stream.rx ep' = stream.rx ep /\
                 d = p ++ q /\
                 match r with
                 | Ok _ => q = []
                 | Raise _ => ~ Forall accepting (stream.tx ep)
                 end) as Step.
    { intros count tx' Hc E' Hacc. apply IH in E'.
      destruct E' as (ep' & p & q & -> & Hs & Hrx & Hd & Hr).
      cbn [stream.set_tx stream.sent stream.rx stream.tx] in Hs, Hrx, Hr.
      exists ep', (slice_to count d ++ p), q.
      unfold chunk in Hc, Hs. rewrite slice_to_slice_to in Hs
        by (exact Hc || (unfold stream.MAX_IO_CHUNK; lia)).
      split; [reflexivity|]. split; [rewrite Hs, app_assoc; reflexivity|].
      split; [exact Hrx|]. split.
      - rewrite <- app_assoc, <- Hd. apply slice_split.
      - destruct r; [exact Hr|]. intros F. apply Hr, Hacc, F. }
    destruct (stream.tx ep) as [|ev rest] eqn:Etx.
    + apply (Step (len chunk) []).
      * pose proof (len_nonneg chunk). lia.
      * replace (slice_to (len chunk) chunk) with chunk
          by (unfold slice_to; rewrite Z.leb_refl; reflexivity).
        exact E.
      * intros _. constructor.
    + destruct ev as [n|e].
      * apply (Step (Z.max 0 (Z.min n (len chunk))) rest).
        -- pose proof (len_nonneg chunk). lia.
        -- exact E.
        -- intros F. inversion F. assumption.
      * injection E as <- <-.
        exists (stream.set_tx ep rest (stream.sent ep)), [], d.
        cbn [stream.set_tx stream.sent stream.rx]. rewrite app_nil_r.
        repeat split. intros F. inversion F as [|x l Hx Hl]. exact Hx.
Qed.

(** X12.  [write] sends everything or fails.  Whatever the transport does,
    when [write] returns normally the peer has been sent the whole of
    [data], in order and once, after what it had been sent before, however
    many calls of [send] it took; the stream is open and what it has
    received is untouched.  And [write] does return normally when no
    [send] raises, even if calls accept only part of what they are
    offered, or nothing. *)
Theorem write_sends_everything (ep : stream.endpoint) (data : bytes) :
  (forall fuel self',
      stream.write fuel {| stream.sock := stream.Socket ep |} data
      = Some (Ok tt, self') ->
      exists ep', self' = {| stream.sock := stream.Socket ep' |} /\
                  stream.sent ep' = stream.sent ep ++ data /\
                  stream.rx ep' = stream.rx ep) /\
  (Forall accepting (stream.tx ep) ->
   exists fuel self',
     stream.write fuel {| stream.sock := stream.Socket ep |} data
     = Some (Ok tt, self')).
Proof.
  split.
  - intros fuel self' E. unfold stream.write in E.
    destruct (stream.write_loop fuel {| stream.sock := stream.Socket ep |} data)
      as [[[[]|ex] s]|] eqn:L; [| |discriminate].
    + injection E as <-.
      destruct (write_loop_sends _ _ _ _ _ L) as (ep' & p & q & -> & Hs & Hrx & Hd & ->).
      rewrite app_nil_r in Hd. subst p. exists ep'. repeat split; assumption.
    + destruct (isinstance ex socket.error); [|discriminate].
      unfold stream.close_and_raise_EOFError in E.
      destruct (stream.close s) as [[u|e] s'']; discriminate.
  - intros Hacc.
    destruct (write_loop_total _ {| stream.sock := stream.Socket ep |} data
                (le_n _)) as ([r s] & L).
    destruct (write_loop_sends _ _ _ _ _ L) as (ep' & p & q & -> & _ & _ & _ & Hr).
    destruct r as [[]|ex]; [|contradiction].
    eexists. eexists. unfold stream.write. rewrite L. reflexivity.
Qed.

Lemma write_sends_everything_witness :
  exists fuel self',
    stream.write fuel
      (stream_over [] [stream.Accepts 1; stream.Accepts 0; stream.Accepts 5])
      [x61; x62; x63]
    = Some (Ok tt, self').
Proof.
  exact (proj2 (write_sends_everything
                  (endpoint_over [] [stream.Accepts 1; stream.Accepts 0;
                                     stream.Accepts 5])
                  [x61; x62; x63])
               ltac:(repeat constructor)).
Defined.

(** ** Descriptors and closing *)

(** X13.  [fileno] on an open stream.  It returns the descriptor and leaves
    the stream alone; when the socket's [fileno] raises an [Exception],
    the stream is closed first, and what is raised is [EOFError] if the
    error number is [EBADF] and the error itself otherwise; anything else
    that is raised passes through and the stream stays open. *)
Theorem fileno_closes_on_error
        (get_exc_errno : exn -> option Z) (EBADF : Z) (ep : stream.endpoint) :
  quiet_shutdown {| stream.sock := stream.Socket ep |} ->
  let self := {| stream.sock := stream.Socket ep |} in
  (forall n, stream.fd ep = Ok n ->
             stream.fileno get_exc_errno EBADF self = (Ok n, self)) /\
  (forall ex, stream.fd ep = Raise ex -> isinstance ex Exception = true ->
     stream.fileno get_exc_errno EBADF self
     = (if stream.errno_in (get_exc_errno ex) [EBADF]
        then raise EOFError else Raise ex,
        closed_stream)) /\
  (forall ex, stream.fd ep = Raise ex -> isinstance ex Exception = false ->
     stream.fileno get_exc_errno EBADF self = (Raise ex, self)).
Proof.
  intros Hq self. subst self.
  unfold stream.fileno. cbn [stream.sock stream.sock_fileno].
  split; [|split].
  - intros n ->. reflexivity.
  - intros ex -> Hex. change socket.error with Exception. rewrite Hex.
    rewrite (close_quiet _ Hq).
    destruct (stream.errno_in (get_exc_errno ex) [EBADF]); reflexivity.
  - intros ex -> Hex. change socket.error with Exception. rewrite Hex.
    reflexivity.
Qed.

Lemma fileno_closes_on_error_witness :
  stream.fileno linux.get_exc_errno linux.EBADF
    {| stream.sock :=
         stream.Socket
           {| stream.rx := []; stream.tx := []; stream.sent := [];
              stream.fd := Raise (Exn OSError (Some linux.EBADF));
              stream.on_shutdown := Some (Exn OSError (Some 107)) |} |}
  = (raise EOFError, closed_stream).
Proof.
  exact (proj1 (proj2 (fileno_closes_on_error linux.get_exc_errno linux.EBADF
                         {| stream.rx := []; stream.tx := []; stream.sent := [];
                            stream.fd := Raise (Exn OSError (Some linux.EBADF));
                            stream.on_shutdown := Some (Exn OSError (Some 107)) |}
                         ltac:(right; reflexivity)))
               (Exn OSError (Some linux.EBADF)) eq_refl eq_refl).
Defined.

(** X14.  [close] on an open stream.  Whether [shutdown] succeeds or raises
    an [Exception] - which is swallowed - [close] raises nothing and the
    stream is closed afterwards.  When [shutdown] raises something that is
    no [Exception], such as [KeyboardInterrupt], [close] raises it and the
    stream is left open, its socket not closed. *)
Theorem close_swallows_shutdown_errors (ep : stream.endpoint) :
  let self := {| stream.sock := stream.Socket ep |} in
  (stream.on_shutdown ep = None ->
   stream.close self = (Ok tt, closed_stream)) /\
  (forall e, stream.on_shutdown ep = Some e ->
     stream.close self
     = if isinstance e Exception then (Ok tt, closed_stream)
       else (Raise e, self)).
Proof.
  cbv zeta. unfold stream.close, stream.closed.
  cbn [stream.sock stream.sock_shutdown negb]. split.
  - intros ->. reflexivity.
  - intros e ->. destruct (isinstance e Exception); reflexivity.
Qed.

(** ** Options of a new connection *)

Section connect_options.
Variable setsockopt_raises : SocketStream.sockopt -> Z -> option exn.
Variables has_TCP_KEEPIDLE has_TCP_KEEPINTVL has_TCP_KEEPCNT : bool.

(** A step leaves [was_closed] alone and only adds options. *)
Lemma setsockopt_adds (o : SocketStream.sockopt) (v : Z)
      (s s' : SocketStream.socket_t) (r : result unit) :
  SocketStream.setsockopt setsockopt_raises o v s = (r, s') ->
  SocketStream.was_closed s' = SocketStream.was_closed s /\
  ((r = Ok tt /\ SocketStream.options s' = SocketStream.options s ++ [(o, v)]) \/
   ((exists e, r = Raise e) /\ s' = s)).
Proof.
  unfold SocketStream.setsockopt.
  destruct (setsockopt_raises o v) as [e|]; intros [= <- <-].
  - split; [reflexivity|]. right. split; [exists e|]; reflexivity.
  - split; [reflexivity|]. left. split; reflexivity.
Qed.

End connect_options.

(** X23.  [_connect] leaks no socket.  Whatever [setsockopt] does, once
    [socket_backoff_connect] has returned a socket, either [_connect]
    returns that socket, open, or it raises and the socket has been
    closed. *)
Theorem connect_closes_socket_on_failure
        (setsockopt_raises : SocketStream.sockopt -> Z -> option exn)
        (has_TCP_KEEPIDLE has_TCP_KEEPINTVL has_TCP_KEEPCNT : bool)
        (s : SocketStream.socket_t) (nodelay : bool)
        (keepalive : SocketStream.keepalive_t) :
  SocketStream.was_closed s = false ->
  exists s',
    (SocketStream._connect setsockopt_raises has_TCP_KEEPIDLE has_TCP_KEEPINTVL
                           has_TCP_KEEPCNT (Ok s) nodelay keepalive
     = (Ok s', Some s') /\ SocketStream.was_closed s' = false) \/
    (exists e,
        SocketStream._connect setsockopt_raises has_TCP_KEEPIDLE
                              has_TCP_KEEPINTVL has_TCP_KEEPCNT (Ok s) nodelay
                              keepalive
        = (Raise e, Some s') /\ SocketStream.was_closed s' = true).
Proof.
  intros Hopen. unfold SocketStream._connect.
  assert (forall s1 r s2,
             SocketStream.configure setsockopt_raises has_TCP_KEEPIDLE
               has_TCP_KEEPINTVL has_TCP_KEEPCNT nodelay keepalive s1 = (r, s2) ->
             SocketStream.was_closed s2 = SocketStream.was_closed s1) as Keep.
  { intros s1 r s2. unfold SocketStream.configure, SocketStream.then_,
      SocketStream.done, SocketStream.fail, SocketStream.setsockopt.
    repeat match goal with
           | |- context [match setsockopt_raises ?o ?v with _ => _ end] =>
               destruct (setsockopt_raises o v)
           | |- context [if ?c then _ else _] => destruct c
           end; intros [= <- <-]; reflexivity. }
  destruct (SocketStream.configure setsockopt_raises has_TCP_KEEPIDLE
              has_TCP_KEEPINTVL has_TCP_KEEPCNT nodelay keepalive s)
    as [[[]|e] s'] eqn:E.
  - exists s'. left. split; [reflexivity|]. rewrite (Keep _ _ _ E). exact Hopen.
  - exists (SocketStream.close s'). right. exists e. split; reflexivity.
Qed.

Lemma connect_closes_socket_on_failure_witness :
  exists s',
    (SocketStream._connect (fun _ _ => None) true true true
       (Ok {| SocketStream.options := []; SocketStream.was_closed := false |})
       true (SocketStream.KInt (-5))
     = (Ok s', Some s') /\ SocketStream.was_closed s' = false) \/
    (exists e,
        SocketStream._connect (fun _ _ => None) true true true
          (Ok {| SocketStream.options := []; SocketStream.was_closed := false |})
          true (SocketStream.KInt (-5))
        = (Raise e, Some s') /\ SocketStream.was_closed s' = true).
Proof.
  exact (connect_closes_socket_on_failure (fun _ _ => None) true true true
           {| SocketStream.options := []; SocketStream.was_closed := false |}
           true (SocketStream.KInt (-5)) eq_refl).
Defined.

(** What [_connect] does where [setsockopt] raises nothing. *)
Lemma connect_options_by_cases
      (has_TCP_KEEPIDLE has_TCP_KEEPINTVL has_TCP_KEEPCNT : bool)
      (s : SocketStream.socket_t) (nodelay : bool)
      (keepalive : SocketStream.keepalive_t) :
  let linux := has_TCP_KEEPIDLE && has_TCP_KEEPINTVL && has_TCP_KEEPCNT in
  let first := if nodelay then [(SocketStream.TCP_NODELAY, 1)] else [] in
  let seconds := match keepalive with
                 | SocketStream.KBool _ => 60
                 | SocketStream.KInt n => n
                 end in
  let with_options (l : list (SocketStream.sockopt * Z)) :=
    {| SocketStream.options := SocketStream.options s ++ first ++ l;
       SocketStream.was_closed := SocketStream.was_closed s |} in
  SocketStream._connect (fun _ _ => None) has_TCP_KEEPIDLE has_TCP_KEEPINTVL
                        has_TCP_KEEPCNT (Ok s) nodelay keepalive
  = if negb (SocketStream.truth keepalive) then
      (Ok (with_options []), Some (with_options []))
    else if negb linux then
      (Ok (with_options [(SocketStream.SO_KEEPALIVE, 1)]),
       Some (with_options [(SocketStream.SO_KEEPALIVE, 1)]))
    else if seconds <? 1 then
      (raise ValueError,
       Some (SocketStream.close (with_options [(SocketStream.SO_KEEPALIVE, 1)])))
    else
      (Ok (with_options [(SocketStream.SO_KEEPALIVE, 1);
                         (SocketStream.TCP_KEEPCNT, 5);
                         (SocketStream.TCP_KEEPIDLE, seconds);
                         (SocketStream.TCP_KEEPINTVL, seconds)]),
       Some (with_options [(SocketStream.SO_KEEPALIVE, 1);
                           (SocketStream.TCP_KEEPCNT, 5);
                           (SocketStream.TCP_KEEPIDLE, seconds);
                           (SocketStream.TCP_KEEPINTVL, seconds)])).
Proof.
  cbv zeta. unfold SocketStream._connect, SocketStream.configure,
    SocketStream.then_, SocketStream.done, SocketStream.fail,
    SocketStream.setsockopt, SocketStream.close.
  destruct s as [opts closed], nodelay, has_TCP_KEEPIDLE, has_TCP_KEEPINTVL,
    has_TCP_KEEPCNT, keepalive as [[|]|n]; cbn;
    try (destruct (n =? 0); cbn); try (destruct (n <? 1); cbn);
    rewrite ?app_nil_r, <- ?app_assoc; reflexivity.
Qed.

(** X24.  The keepalive options of a new connection.  Whatever the
    platform, a socket that [_connect] returns never has its keepalive idle
    time or interval set below one second.  Where [setsockopt] raises
    nothing and the three Linux options exist, asking for keepalive with an
    integer of at least one - or with [True], which stands for 60 - sets
    [SO_KEEPALIVE], five probes, and that many seconds as idle time and as
    interval; a smaller integer makes [_connect] raise [ValueError] and
    close the socket; and where one of the three options is missing, only
    [SO_KEEPALIVE] is set, whatever the integer. *)
Theorem connect_keepalive_options
        (s : SocketStream.socket_t) (nodelay : bool)
        (keepalive : SocketStream.keepalive_t) :
  SocketStream.options s = [] ->
  SocketStream.truth keepalive = true ->
  let first := if nodelay then [(SocketStream.TCP_NODELAY, 1)] else [] in
  let seconds := match keepalive with
                 | SocketStream.KBool _ => 60
                 | SocketStream.KInt n => n
                 end in
  let opened (l : list (SocketStream.sockopt * Z)) :=
    {| SocketStream.options := first ++ l;
       SocketStream.was_closed := SocketStream.was_closed s |} in
  (forall setsockopt_raises i v c s' left,
      SocketStream._connect setsockopt_raises i v c (Ok s) nodelay keepalive
      = (Ok s', left) ->
      forall t, In (SocketStream.TCP_KEEPIDLE, t) (SocketStream.options s') \/
                In (SocketStream.TCP_KEEPINTVL, t) (SocketStream.options s') ->
                1 <= t) /\
  (1 <= seconds ->
   fst (SocketStream._connect (fun _ _ => None) true true true (Ok s)
                              nodelay keepalive)
   = Ok (opened [(SocketStream.SO_KEEPALIVE, 1); (SocketStream.TCP_KEEPCNT, 5);
                 (SocketStream.TCP_KEEPIDLE, seconds);
                 (SocketStream.TCP_KEEPINTVL, seconds)])) /\
  (seconds < 1 ->
   SocketStream._connect (fun _ _ => None) true true true (Ok s)
                         nodelay keepalive
   = (raise ValueError,
      Some (SocketStream.close (opened [(SocketStream.SO_KEEPALIVE, 1)])))) /\
  (forall i v c, i && v && c = false ->
   fst (SocketStream._connect (fun _ _ => None) i v c (Ok s) nodelay keepalive)
   = Ok (opened [(SocketStream.SO_KEEPALIVE, 1)])).
Proof.
  intros Hs Ht. destruct s as [opts closed].
  cbn [SocketStream.options] in Hs. subst opts.
  cbv zeta. split; [|split; [|split]].
  - intros raises i v c s' left.
    unfold SocketStream._connect, SocketStream.configure, SocketStream.then_,
      SocketStream.done, SocketStream.fail, SocketStream.setsockopt.
    rewrite Ht.
    assert (forall k, (SocketStream.int_of k <? 1) = false ->
              1 <= SocketStream.int_of k) as Hk
        by (intros k Hk; apply Z.ltb_ge in Hk; exact Hk).
    repeat match goal with
           | |- context [match raises ?o ?x with _ => _ end] =>
               destruct (raises o x)
           | |- context [if ?b then _ else _] => destruct b eqn:?
           end; cbn; intros [= <- <-] t; cbn;
      intuition (try discriminate);
      match goal with
      | H : (_, _) = (_, t) |- _ => inversion H; subst; clear H
      end; apply Hk; assumption.
  - intros H1. rewrite connect_options_by_cases, Ht.
    cbn [negb andb app SocketStream.options SocketStream.was_closed].
    destruct (Z.ltb_spec (match keepalive with
                          | SocketStream.KBool _ => 60
                          | SocketStream.KInt n => n
                          end) 1); [lia | reflexivity].
  - intros H1. rewrite connect_options_by_cases, Ht.
    cbn [negb andb app SocketStream.options SocketStream.was_closed].
    destruct (Z.ltb_spec (match keepalive with
                          | SocketStream.KBool _ => 60
                          | SocketStream.KInt n => n
                          end) 1); [reflexivity | lia].
  - intros i v c Hl. rewrite connect_options_by_cases, Ht, Hl.
    reflexivity.
Qed.

Lemma connect_keepalive_options_witness :
  fst (SocketStream._connect (fun _ _ => None) true true true
         (Ok {| SocketStream.options := []; SocketStream.was_closed := false |})
         true (SocketStream.KBool true))
  = Ok {| SocketStream.options :=
            [(SocketStream.TCP_NODELAY, 1); (SocketStream.SO_KEEPALIVE, 1);
             (SocketStream.TCP_KEEPCNT, 5); (SocketStream.TCP_KEEPIDLE, 60);
             (SocketStream.TCP_KEEPINTVL, 60)];
          SocketStream.was_closed := false |}.
Proof.
  exact (proj1 (proj2 (connect_keepalive_options
                         {| SocketStream.options := [];
                            SocketStream.was_closed := false |}
                         true (SocketStream.KBool true) eq_refl eq_refl))
               ltac:(lia)).
Defined.

(** ** Deadlines *)

Lemma Qle_bool_false (x y : Q) : Qle_bool x y = false -> (y < x)%Q.
Proof.
  intros H. apply Qnot_le_lt. intros L. apply Qle_bool_iff in L. congruence.
Qed.

Lemma consistent_tmax (t : timeout.Timeout) :
  consistent t = true -> timeout.finite t = true ->
  exists deadline, timeout.tmax t = Some deadline.
Proof.
  unfold consistent. intros C F. rewrite F in C.
  destruct (timeout.tmax t) as [d|]; [exists d; reflexivity | discriminate].
Qed.

Lemma rounding_nonpos (rnd : Q -> Q) (x : Q) :
  rounding rnd -> (x <= 0)%Q -> (rnd x <= 0)%Q.
Proof.
  intros Hr Hx. apply (rounding_below rnd x 0 Hr); [lia | exact Hx].
Qed.

Lemma init_consistent (rnd : Q -> Q) (now : Q) (a : timeout.timeout_arg) :
  (forall t, a = timeout.OfTimeout t -> consistent t = true) ->
  consistent (timeout.__init__ rnd now a) = true.
Proof.
  intros Ha. destruct a as [t| |s]; cbn.
  - specialize (Ha t eq_refl). destruct t; exact Ha.
  - reflexivity.
  - unfold consistent. cbn. destruct (Qle_bool 0 s); reflexivity.
Qed.

Lemma consistent_timeleft (rnd : Q -> Q) (self : timeout.Timeout) (now : Q) :
  consistent self = true ->
  exists d, timeout.timeleft rnd self now
            = Ok (if timeout.finite self then Some d else None).
Proof.
  intros C. unfold timeout.timeleft.
  destruct (timeout.finite self) eqn:F; [|exists 0%Q; reflexivity].
  destruct (consistent_tmax self C F) as (deadline & ->).
  eexists; reflexivity.
Qed.

(** X15.  The constructor makes consistent objects - given a consistent one
    when it is given a [Timeout] - and on a consistent [Timeout] no method
    compares a number with [None]: [expired] answers a boolean and
    [timeleft] a duration, or [None] when the timeout is not finite. *)
Theorem timeout_consistent (rnd : Q -> Q) (now : Q) (a : timeout.timeout_arg) :
  (forall t, a = timeout.OfTimeout t -> consistent t = true) ->
  let self := timeout.__init__ rnd now a in
  consistent self = true /\
  forall later : Q,
    (exists b, timeout.expired self later = Ok b) /\
    (exists d, timeout.timeleft rnd self later
               = Ok (if timeout.finite self then Some d else None)).
Proof.
  intros Ha self. pose proof (init_consistent rnd now a Ha) as C.
  split; [exact C|]. intros later.
  split; [|apply consistent_timeleft; exact C].
  unfold timeout.expired. destruct (timeout.finite self) eqn:F;
    [|eexists; reflexivity].
  destruct (consistent_tmax self C F) as (deadline & ->).
  eexists; reflexivity.
Qed.

Lemma timeout_consistent_witness :
  consistent (timeout.__init__ (fun x => x) 100
                (timeout.OfTimeout
                   (timeout.__init__ (fun x => x) 7 (timeout.OfSeconds 3))))
  = true.
Proof.
  exact (proj1 (timeout_consistent (fun x => x) 100
                  (timeout.OfTimeout
                     (timeout.__init__ (fun x => x) 7 (timeout.OfSeconds 3)))
                  ltac:(intros t E; injection E as <-; reflexivity))).
Defined.

(** X16.  The time left of a finite timeout is never negative, it is zero once
    the timeout has expired, and it does not grow as the clock advances;
    a timeout that has expired stays expired. *)
Theorem timeleft_runs_down (rnd : Q -> Q) (self : timeout.Timeout)
        (now later : Q) :
  rounding rnd ->
  consistent self = true -> timeout.finite self = true ->
  (now <= later)%Q ->
  exists d d' : Q,
    timeout.timeleft rnd self now = Ok (Some d) /\
    timeout.timeleft rnd self later = Ok (Some d') /\
    (0 <= d')%Q /\ (d' <= d)%Q /\
    (timeout.expired self now = Ok true ->
     d = 0%Q /\ timeout.expired self later = Ok true).
Proof.
  intros Hr C F Hle.
  destruct (consistent_tmax self C F) as (deadline & E).
  unfold timeout.timeleft, timeout.expired. rewrite F, E.
  assert (rnd (deadline - later) <= rnd (deadline - now))%Q as Hm
      by (apply (proj1 Hr); lra).
  eexists. eexists. split; [reflexivity|]. split; [reflexivity|].
  split; [|split].
  - destruct (Qle_bool (rnd (deadline - later)%Q) 0) eqn:L; [apply Qle_refl|].
    apply Qlt_le_weak, Qle_bool_false. exact L.
  - destruct (Qle_bool (rnd (deadline - later)%Q) 0) eqn:L;
      destruct (Qle_bool (rnd (deadline - now)%Q) 0) eqn:L'.
    + apply Qle_refl.
    + apply Qlt_le_weak, Qle_bool_false. exact L'.
    + apply Qle_bool_iff in L'. apply Qle_bool_false in L. lra.
    + exact Hm.
  - intros X. injection X as X. apply Qle_bool_iff in X. split.
    + assert (rnd (deadline - now) <= 0)%Q as L
          by (apply rounding_nonpos; [exact Hr | lra]).
      apply Qle_bool_iff in L. rewrite L. reflexivity.
    + f_equal. apply Qle_bool_iff. lra.
Qed.

Lemma timeleft_runs_down_witness :
  exists d d' : Q,
    timeout.timeleft (fun x => x)
      (timeout.__init__ (fun x => x) 7 (timeout.OfSeconds 3)) 8 = Ok (Some d) /\
    timeout.timeleft (fun x => x)
      (timeout.__init__ (fun x => x) 7 (timeout.OfSeconds 3)) 12 = Ok (Some d') /\
    (0 <= d')%Q /\ (d' <= d)%Q.
Proof.
  destruct (timeleft_runs_down (fun x => x)
              (timeout.__init__ (fun x => x) 7 (timeout.OfSeconds 3)) 8 12
              rounding_identity eq_refl eq_refl ltac:(discriminate))
    as (d & d' & H1 & H2 & H3 & H4 & _).
  exists d, d'. repeat split; assumption.
Defined.

(** X17.  In exact arithmetic a timeout of [s >= 0] seconds made at time [t0]
    expires exactly when the clock reaches [t0 + s], and until then the
    time left is what separates the clock from [t0 + s]; a [Timeout] made
    from it later has the same deadline: the count does not start again. *)
Theorem timeout_deadline (t0 s t1 now : Q) :
  (0 <= s)%Q ->
  let exact := fun x : Q => x in
  let self := timeout.__init__ exact t0 (timeout.OfSeconds s) in
  (timeout.expired self now = Ok true <-> (t0 + s <= now)%Q) /\
  (exists d, timeout.timeleft exact self now = Ok (Some d) /\
             ((now <= t0 + s)%Q -> (d == t0 + s - now)%Q) /\
             ((t0 + s <= now)%Q -> d = 0%Q)) /\
  timeout.__init__ exact t1 (timeout.OfTimeout self) = self.
Proof.
  intros Hs exact self. subst self exact.
  apply Qle_bool_iff in Hs.
  unfold timeout.__init__, timeout.expired, timeout.timeleft. cbn.
  rewrite Hs. cbn. split; [|split; [|reflexivity]].
  - split.
    + intros X. injection X as X. apply Qle_bool_iff. exact X.
    + intros X. f_equal. apply Qle_bool_iff. exact X.
  - eexists. split; [reflexivity|]. split; intros X.
    + destruct (Qle_bool (t0 + s - now)%Q 0) eqn:L; [|reflexivity].
      apply Qle_bool_iff in L. lra.
    + assert (t0 + s - now <= 0)%Q as L by lra.
      apply Qle_bool_iff in L. rewrite L. reflexivity.
Qed.

Lemma timeout_deadline_witness :
  timeout.expired (timeout.__init__ (fun x => x) 7 (timeout.OfSeconds 3)) 10
  = Ok true.
Proof.
  exact (proj2 (proj1 (timeout_deadline 7 3 9 10 ltac:(discriminate)))
               ltac:(discriminate)).
Defined.

(** X18.  A timeout of [None] or of a negative number of seconds never
    expires: whatever the clock, [expired] is false, there is no time left
    to speak of, and [sleep] sleeps the whole interval. *)
Theorem timeout_unbounded (rnd : Q -> Q) (a : timeout.timeout_arg)
        (t0 now interval : Q) :
  a = timeout.OfNone \/ (exists s, a = timeout.OfSeconds s /\ (s < 0)%Q) ->
  (0 <= interval)%Q ->
  let self := timeout.__init__ rnd t0 a in
  timeout.expired self now = Ok false /\
  timeout.timeleft rnd self now = Ok None /\
  timeout.sleep rnd self now interval = Ok interval.
Proof.
  intros Ha Hi self.
  assert (timeout.finite self = false) as F.
  { subst self. destruct Ha as [->|(s & -> & Hs)]; [reflexivity|]. cbn.
    destruct (Qle_bool 0 s) eqn:L; [|reflexivity].
    apply Qle_bool_iff in L. lra. }
  unfold timeout.expired, timeout.timeleft, timeout.sleep, time.sleep.
  rewrite F. apply Qle_bool_iff in Hi. rewrite Hi. repeat split.
Qed.

Lemma timeout_unbounded_witness :
  timeout.expired (timeout.__init__ (fun x => x) 7 (timeout.OfSeconds (-1))) 1000
  = Ok false /\
  timeout.sleep (fun x => x) (timeout.__init__ (fun x => x) 7 timeout.OfNone) 1000 5
  = Ok 5%Q.
Proof.
  split.
  - exact (proj1 (timeout_unbounded (fun x => x) (timeout.OfSeconds (-1)) 7 1000 5
                    ltac:(right; exists (-1)%Q; split; reflexivity)
                    ltac:(discriminate))).
  - exact (proj2 (proj2 (timeout_unbounded (fun x => x) timeout.OfNone 7 1000 5
                           ltac:(left; reflexivity) ltac:(discriminate)))).
Defined.

(** X19.  [sleep] never sleeps past the deadline: for an interval that is not
    negative it sleeps no longer than the interval and no longer than the
    time left; a negative interval makes it raise [ValueError]. *)
Theorem timeout_sleep_bounded (rnd : Q -> Q) (self : timeout.Timeout)
        (now interval : Q) :
  rounding rnd -> consistent self = true ->
  ((0 <= interval)%Q ->
   exists d, timeout.sleep rnd self now interval = Ok d /\
             (0 <= d)%Q /\ (d <= interval)%Q /\
             forall l, timeout.timeleft rnd self now = Ok (Some l) -> (d <= l)%Q) /\
  ((interval < 0)%Q ->
   timeout.sleep rnd self now interval = raise ValueError).
Proof.
  intros Hr C.
  assert (forall x, (0 <= x)%Q -> time.sleep x = Ok x) as Hsleep.
  { intros x Hx. unfold time.sleep. apply Qle_bool_iff in Hx. rewrite Hx.
    reflexivity. }
  assert (forall x, (x < 0)%Q -> time.sleep x = raise ValueError) as Hneg.
  { intros x Hx. unfold time.sleep. destruct (Qle_bool 0 x) eqn:L; [|reflexivity].
    apply Qle_bool_iff in L. lra. }
  unfold timeout.sleep. destruct (timeout.finite self) eqn:F.
  - destruct (consistent_tmax self C F) as (deadline & E).
    unfold timeout.timeleft. rewrite F, E. cbn [rbind].
    set (l := if Qle_bool (rnd (deadline - now)%Q) 0 then 0%Q
              else rnd (deadline - now)%Q).
    assert (0 <= l)%Q as Hl.
    { subst l. destruct (Qle_bool (rnd (deadline - now)%Q) 0) eqn:L;
        [apply Qle_refl|]. apply Qlt_le_weak, Qle_bool_false. exact L. }
    split.
    + intros Hi. destruct (Qle_bool interval l) eqn:L.
      * exists interval. apply Qle_bool_iff in L.
        split; [apply Hsleep; exact Hi|]. split; [exact Hi|].
        split; [apply Qle_refl|]. intros l' X. injection X as <-. exact L.
      * exists l. apply Qle_bool_false in L.
        split; [apply Hsleep; exact Hl|]. split; [exact Hl|].
        split; [lra|]. intros l' X. injection X as <-. apply Qle_refl.
    + intros Hi. assert (Qle_bool interval l = true) as ->
          by (apply Qle_bool_iff; lra).
      apply Hneg. exact Hi.
  - split.
    + intros Hi. exists interval. split; [apply Hsleep; exact Hi|].
      split; [exact Hi|]. split; [apply Qle_refl|].
      unfold timeout.timeleft. rewrite F. discriminate.
    + apply Hneg.
Qed.

Lemma timeout_sleep_bounded_witness :
  exists d,
    timeout.sleep (fun x => x)
      (timeout.__init__ (fun x => x) 7 (timeout.OfSeconds 3)) 9 5 = Ok d /\
    (0 <= d)%Q /\ (d <= 5)%Q.
Proof.
  destruct (proj1 (timeout_sleep_bounded (fun x => x)
              (timeout.__init__ (fun x => x) 7 (timeout.OfSeconds 3)) 9 5
              rounding_identity eq_refl) ltac:(discriminate))
    as (d & E & H0 & H5 & _).
  exists d. repeat split; assumption.
Defined.

(** ** Polling *)

Section poll_facts.
Variable rnd : Q -> Q.
Variable get_exc_errno : exn -> option Z.
Variables EBADF EINTR : Z.
Variable select_error : pyclass.
Variable p : Stream.poller.
Variable started : Q.
Variable clock : nat -> Q.

Let poll := Stream.poll rnd get_exc_errno EBADF EINTR select_error p started clock.
Let poll_loop := Stream.poll_loop rnd EINTR select_error p clock.

(** Rounds of the loop in which [p.poll] is interrupted. *)
Lemma poll_loop_interrupted (t : timeout.Timeout) (n : nat) :
  consistent t = true ->
  forall (k fuel : nat),
    (forall i remaining, (k <= i < k + n)%nat ->
       exists ex, Stream.answers p i remaining = Raise ex /\
                  isinstance ex select_error = true /\
                  Stream.interrupted EINTR ex = true) ->
    poll_loop (n + fuel) k t = poll_loop fuel (k + n) t.
Proof.
  intros C. induction n as [|n IH]; intros k fuel H.
  - rewrite Nat.add_0_r. reflexivity.
  - subst poll_loop. cbn [Nat.add Stream.poll_loop].
    destruct (timeout.timeleft rnd t (clock k)) as [remaining|e] eqn:E.
    + cbn [rbind]. destruct (H k remaining ltac:(lia)) as (ex & -> & -> & ->).
      rewrite IH; [f_equal; lia|].
      intros i r Hi. apply H. lia.
    + exfalso. unfold timeout.timeleft in E.
      destruct (timeout.finite t) eqn:F; [|discriminate].
      destruct (consistent_tmax t C F) as (d & Ed). rewrite Ed in E. discriminate.
Qed.

End poll_facts.

(** X20.  [poll] goes on after an interrupted call: when the stream is open,
    the first [k] calls of [p.poll] raise a [select_error] whose number is
    [EINTR] and the next one returns the list [rl], [poll] raises nothing
    and answers whether [rl] holds anything; the stream is left as it
    was. *)
Theorem poll_resumes_after_EINTR
        (rnd : Q -> Q) (get_exc_errno : exn -> option Z) (EBADF EINTR : Z)
        (select_error : pyclass) (p : Stream.poller) (started : Q)
        (clock : nat -> Q) (ep : stream.endpoint) (fd : Z)
        (a : timeout.timeout_arg) (k : nat) (rl : list Z) :
  (forall t, a = timeout.OfTimeout t -> consistent t = true) ->
  stream.fd ep = Ok fd ->
  Stream.on_register p fd = None ->
  (forall i remaining, (i < k)%nat ->
     exists ex, Stream.answers p i remaining = Raise ex /\
                isinstance ex select_error = true /\
                Stream.interrupted EINTR ex = true) ->
  (forall remaining, Stream.answers p k remaining = Ok rl) ->
  Stream.poll rnd get_exc_errno EBADF EINTR select_error p started clock
              (S k) {| stream.sock := stream.Socket ep |} a
  = Some (Ok (negb (len rl =? 0)), {| stream.sock := stream.Socket ep |}).
Proof.
  intros Ha Hfd Hreg Hint Hans.
  pose proof (init_consistent rnd started a Ha) as C.
  pose proof (consistent_timeleft rnd _ (clock k) C) as Hm.
  unfold Stream.poll, stream.fileno. cbn [stream.sock stream.sock_fileno].
  rewrite Hfd, Hreg.
  replace (S k) with (k + 1)%nat by lia.
  rewrite (poll_loop_interrupted rnd EINTR select_error p clock _ k C 0 1%nat)
    by (intros i r Hi; apply Hint; lia).
  cbn [Nat.add Stream.poll_loop].
  destruct Hm as (d & ->). cbn [rbind]. rewrite Hans.
  destruct rl; reflexivity.
Qed.

Lemma poll_resumes_after_EINTR_witness :
  Stream.poll (fun x => x) linux.get_exc_errno linux.EBADF 4 OSError
    {| Stream.on_register := fun _ => None;
       Stream.answers := fun i _ =>
         if (i <? 2)%nat then Raise (Exn OSError (Some 4)) else Ok [3] |}
    100 (fun i => 100 + inject_Z (Z.of_nat i))%Q
    3 (stream_over [] []) (timeout.OfSeconds 5)
  = Some (Ok true, stream_over [] []).
Proof.
  exact (poll_resumes_after_EINTR (fun x => x) linux.get_exc_errno linux.EBADF 4
           OSError
           {| Stream.on_register := fun _ => None;
              Stream.answers := fun i _ =>
                if (i <? 2)%nat then Raise (Exn OSError (Some 4)) else Ok [3] |}
           100 (fun i => 100 + inject_Z (Z.of_nat i))%Q
           (endpoint_over [] []) 3 (timeout.OfSeconds 5) 2 [3]
           ltac:(discriminate) eq_refl eq_refl
           ltac:(intros i r Hi; exists (Exn OSError (Some 4));
                 destruct i as [|[|i]]; [repeat split ..| lia])
           ltac:(reflexivity)).
Defined.

(** X21.  The errors of [poll].  Whatever the poll object and the stream do,
    a [ValueError] - from [fileno], [register] or [p.poll] - leaves [poll]
    as a [select_error], so that [poll] raises no [ValueError] when
    [select_error] is not one; an error of [p.poll] that is a
    [select_error] with another number than [EINTR], and no [ValueError],
    is raised at once;
    and on a closed stream [poll] raises [EOFError] without polling. *)
Theorem poll_errors
        (rnd : Q -> Q) (get_exc_errno : exn -> option Z) (EBADF EINTR : Z)
        (select_error : pyclass) (p : Stream.poller) (started : Q)
        (clock : nat -> Q) (a : timeout.timeout_arg) :
  issubclass select_error ValueError = false ->
  (forall t, a = timeout.OfTimeout t -> consistent t = true) ->
  let poll := Stream.poll rnd get_exc_errno EBADF EINTR select_error p
                          started clock in
  (forall fuel self e self',
      poll fuel self a = Some (Raise e, self') ->
      isinstance e ValueError = false) /\
  (forall fuel ep fd e,
      stream.fd ep = Ok fd -> Stream.on_register p fd = Some e ->
      isinstance e ValueError = true ->
      poll fuel {| stream.sock := stream.Socket ep |} a
      = Some (Raise (Exn select_error None),
              {| stream.sock := stream.Socket ep |})) /\
  (forall fuel ep fd ex,
      stream.fd ep = Ok fd -> Stream.on_register p fd = None ->
      (forall remaining, Stream.answers p 0 remaining = Raise ex) ->
      isinstance ex select_error = true ->
      Stream.interrupted EINTR ex = false ->
      isinstance ex ValueError = false ->
      poll (S fuel) {| stream.sock := stream.Socket ep |} a
      = Some (Raise ex, {| stream.sock := stream.Socket ep |})) /\
  (forall fuel, poll fuel closed_stream a = Some (raise EOFError, closed_stream)).
Proof.
  intros Hsel Ha poll. subst poll.
  pose proof (init_consistent rnd started a Ha) as C.
  pose proof (consistent_timeleft rnd _ (clock O) C) as Hm.
  split; [|split; [|split]].
  - intros fuel self e self'. unfold Stream.poll.
    match goal with
    | |- match ?b with _ => _ end = _ -> _ => destruct b as [[[rl|ex] s]|]
    end; [discriminate | | discriminate].
    destruct (isinstance ex ValueError) eqn:V; intros X; injection X as <- <-.
    + exact Hsel.
    + exact V.
  - intros fuel ep fd e Hfd Hreg He.
    unfold Stream.poll, stream.fileno. cbn [stream.sock stream.sock_fileno].
    rewrite Hfd, Hreg, He. reflexivity.
  - intros fuel ep fd ex Hfd Hreg Hans Hsub Hint V.
    unfold Stream.poll, stream.fileno. cbn [stream.sock stream.sock_fileno].
    rewrite Hfd, Hreg. cbn [Stream.poll_loop].
    destruct Hm as (d & ->). cbn [rbind].
    rewrite Hans, Hsub, Hint, V.
    reflexivity.
  - intros fuel. unfold Stream.poll, stream.fileno, closed_stream.
    cbn. destruct (stream.errno_in (get_exc_errno stream.stream_closed) [EBADF]);
      reflexivity.
Qed.

Lemma poll_errors_witness :
  Stream.poll (fun x => x) linux.get_exc_errno linux.EBADF 4 OSError
    {| Stream.on_register := fun _ => Some (Exn ValueError None);
       Stream.answers := fun _ _ => Ok [] |}
    100 (fun _ => 100%Q) 0 (stream_over [] []) timeout.OfNone
  = Some (raise OSError, stream_over [] []) /\
  Stream.poll (fun x => x) linux.get_exc_errno linux.EBADF 4 OSError
    {| Stream.on_register := fun _ => Some (Exn ValueError None);
       Stream.answers := fun _ _ => Ok [] |}
    100 (fun _ => 100%Q) 0 closed_stream timeout.OfNone
  = Some (raise EOFError, closed_stream).
Proof.
  destruct (poll_errors (fun x => x) linux.get_exc_errno linux.EBADF 4 OSError
              {| Stream.on_register := fun _ => Some (Exn ValueError None);
                 Stream.answers := fun _ _ => Ok [] |}
              100 (fun _ => 100%Q) timeout.OfNone eq_refl ltac:(discriminate))
    as (_ & Hreg & _ & Hclosed).
  split.
  - exact (Hreg O (endpoint_over [] []) 3 (Exn ValueError None)
                eq_refl eq_refl eq_refl).
  - exact (Hclosed O).
Defined.
